(** * ADS-B / SBS tools: a shallow embedding of the [adsb] package

    The development follows the package layout:
    - [Protocol]  : [adsb/sbs/protocol.py], the line framing of [SBSProtocol];
    - [Aircraft]  : [adsb/sbs/aircraft.py];
    - [Text]      : the string operations of the line codec;
    - [Message]   : [adsb/sbs/message.py], the SBS line codec;
    - [Client]    : [adsb/sbs/client.py], the dispatch of [_on_sbs_message];
    - [Session]   : [adsb/sbs/session.py], the aircraft map and its sweep;
    - [Framing]   : lines on the wire, [SBSServerProtocol.send_message];
    - [HistoryShape], [SessionRun] : the position history and the runs of
      a session;
    - [Recording], [ClientLife], [ClientPipeline] : the client's recorder,
      its connection and its path from bytes to callbacks;
    - [Server]    : [adsb/sbs/server.py], the peer table;
    - [Archive]   : [adsb/sbs/archive.py], the rotating archive file;
    - [JsonUtils] : [adsb/sbs/json_utils.py], dates and times in JSON.

    Timestamps ([datetime.datetime]) and durations ([datetime.timedelta])
    are integers counting microseconds, the resolution Python keeps. *)

From Stdlib Require Import ZArith NArith List String Ascii Lia Bool.
From Stdlib Require Import Init.Byte.
From Stdlib Require Import DecimalString DecimalZ DecimalN DecimalPos.
From Stdlib Require DecimalNat DecimalFacts.
From Equations Require Import Equations.
From stdpp Require Import gmap strings list fin_maps.
Import ListNotations.

Local Open Scope Z_scope.

(* ===================================================================== *)
(** * The frame decoder: [adsb/sbs/protocol.py]                          *)
(* ===================================================================== *)

Module Protocol.

(** [DELIMITER = b"\r\n"] *)
Definition DELIMITER : list byte := [x0d; x0a].

(** [starts_with p l] is [Some r] when [l = p ++ r]. *)
Fixpoint starts_with (p l : list byte) : option (list byte) :=
  match p, l with
  | [], _ => Some l
  | _ :: _, [] => None
  | a :: p', b :: l' => if Byte.eqb a b then starts_with p' l' else None
  end.

(** [bytes.partition(sep)]: split at the first occurrence of [sep]; when
    [sep] does not occur the result is [(buf, b"", b"")]. *)
Fixpoint partition (sep buf : list byte) : list byte * list byte * list byte :=
  match buf with
  | [] => ([], [], [])
  | b :: rest =>
      match starts_with sep buf with
      | Some r => ([], sep, r)
      | None => let '(m, s, r) := partition sep rest in (b :: m, s, r)
      end
  end.

(** Python truthiness of a bytes object. *)
Definition truthy (l : list byte) : bool :=
  match l with [] => false | _ :: _ => true end.

Lemma starts_with_length p l r :
  starts_with p l = Some r -> length l = (length p + length r)%nat.
Proof.
  revert l; induction p as [|a p IH]; intros l H; simpl in *.
  - inversion H; reflexivity.
  - destruct l as [|b l]; [discriminate|].
    destruct (Byte.eqb a b); [|discriminate].
    simpl. rewrite (IH _ H). reflexivity.
Qed.

Lemma partition_length sep buf m s r :
  partition sep buf = (m, s, r) ->
  length buf = (length m + length s + length r)%nat.
Proof.
  revert m s r; induction buf as [|b rest IH]; intros m s r H; simpl in H.
  - inversion H; reflexivity.
  - destruct (starts_with sep (b :: rest)) as [r'|] eqn:E.
    + inversion H; subst. apply starts_with_length in E. simpl in *. lia.
    + destruct (partition sep rest) as [[m' s'] r'] eqn:P.
      inversion H; subst. specialize (IH _ _ _ eq_refl). simpl. lia.
Qed.

(** A value together with the equation that names it, so that the loop
    below can recurse on a component of [partition]'s result. *)
Definition inspect {A} (a : A) : {b : A | a = b} := exist _ a eq_refl.

(** The [while self.buf:] loop of [data_received].  [cb] tells whether a
    handler is registered ([self.on_message_received] is not [None]); the
    result is the buffer left behind and the lines handed to the handler,
    in call order.  The handler is taken to return from each call; the loop
    with a handler that can raise is [Framing.drain_calling], which agrees
    with this one when every call returns. *)
Equations? drain (cb : bool) (buf : list byte) : list byte * list (list byte)
  by wf (length buf) lt :=
  drain cb [] := ([], []);
  drain cb (b :: rest) with inspect (partition DELIMITER (b :: rest)) => {
    | exist _ (msg, [], remainder) _ := (b :: rest, []);
    | exist _ (msg, s :: sep, remainder) e :=
        let '(buf', out) := drain cb remainder in
        if truthy msg && cb then (buf', msg :: out) else (buf', out) }.
Proof.
  apply partition_length in e. simpl in *. lia.
Qed.

(** The protocol object: [buf] is [None] until [connection_made] and after
    [connection_lost]; [on_message_received] records whether a handler was
    given to the constructor. *)
Record SBSProtocol := {
  buf : option (list byte);
  on_message_received : bool
}.

Definition connection_made (p : SBSProtocol) : SBSProtocol :=
  {| buf := Some []; on_message_received := on_message_received p |}.

Definition connection_lost (p : SBSProtocol) : SBSProtocol :=
  {| buf := None; on_message_received := on_message_received p |}.

(** [data_received]: [None] is the [AttributeError] of [None.extend] when
    no connection is up. *)
Definition data_received (p : SBSProtocol) (data : list byte)
  : option (SBSProtocol * list (list byte)) :=
  match buf p with
  | None => None
  | Some b =>
      let '(b', out) := drain (on_message_received p) (b ++ data) in
      Some ({| buf := Some b'; on_message_received := on_message_received p |},
            out)
  end.

(** Feeding chunks one call at a time, collecting the dispatched lines. *)
Fixpoint feed (p : SBSProtocol) (chunks : list (list byte))
  : option (SBSProtocol * list (list byte)) :=
  match chunks with
  | [] => Some (p, [])
  | c :: cs =>
      match data_received p c with
      | None => None
      | Some (p', out) =>
          match feed p' cs with
          | None => None
          | Some (p'', out') => Some (p'', out ++ out')
          end
      end
  end.

(** ** Facts about [partition] *)

Lemma starts_with_spec p l r : starts_with p l = Some r -> l = p ++ r.
Proof.
  revert l; induction p as [|a p IH]; intros l H; simpl in *.
  - inversion H; reflexivity.
  - destruct l as [|b l]; [discriminate|].
    destruct (Byte.eqb a b) eqn:E; [|discriminate].
    apply Byte.byte_dec_bl in E. subst b. simpl. f_equal. auto.
Qed.

Lemma starts_with_app p l r d :
  starts_with p l = Some r -> starts_with p (l ++ d) = Some (r ++ d).
Proof.
  revert l; induction p as [|a p IH]; intros l H; simpl in *.
  - inversion H; reflexivity.
  - destruct l as [|b l]; [discriminate|]. simpl.
    destruct (Byte.eqb a b); [auto|discriminate].
Qed.

Lemma starts_with_none_app p l d :
  starts_with p l = None -> (length p <= length l)%nat ->
  starts_with p (l ++ d) = None.
Proof.
  revert l; induction p as [|a p IH]; intros l H Hlen; simpl in *.
  - discriminate.
  - destruct l as [|b l]; simpl in *; [lia|].
    destruct (Byte.eqb a b); [apply IH; [assumption|lia]|reflexivity].
Qed.

(** The middle component is either empty (not found) or the separator. *)
Lemma partition_sep sep buf m s r :
  partition sep buf = (m, s, r) -> s = [] \/ s = sep.
Proof.
  revert m s r; induction buf as [|b rest IH]; intros m s r H; simpl in H.
  - inversion H; auto.
  - destruct (starts_with sep (b :: rest)) as [r'|] eqn:E.
    + inversion H; auto.
    + destruct (partition sep rest) as [[m' s'] r'] eqn:P.
      inversion H; subst. eapply IH; reflexivity.
Qed.

(** When the separator is found the three parts rebuild the buffer. *)
Lemma partition_found sep buf m a s r :
  partition sep buf = (m, a :: s, r) -> buf = m ++ sep ++ r /\ a :: s = sep.
Proof.
  revert m r; induction buf as [|b rest IH]; intros m r H; simpl in H.
  - discriminate.
  - destruct (starts_with sep (b :: rest)) as [r'|] eqn:E.
    + inversion H; subst. apply starts_with_spec in E. split; auto.
    + destruct (partition sep rest) as [[m' s'] r'] eqn:P.
      inversion H; subst. destruct (IH _ _ eq_refl) as [-> E']. 
      split; auto.
Qed.

(** When it is not found the whole buffer is returned as the head. *)
Lemma partition_missing sep buf m r :
  partition sep buf = (m, [], r) -> sep <> [] -> m = buf /\ r = [].
Proof.
  intros H Hsep.
  revert m r H; induction buf as [|b rest IH]; intros m r H; simpl in H.
  - inversion H; auto.
  - destruct (starts_with sep (b :: rest)) as [r'|] eqn:E.
    + inversion H; subst. congruence.
    + destruct (partition sep rest) as [[m' s'] r'] eqn:P.
      inversion H; subst. destruct (IH _ _ eq_refl) as [-> ->]. auto.
Qed.

(** Bytes appended after a found separator do not move the split point. *)
Lemma partition_app sep buf m a s r d :
  partition sep buf = (m, a :: s, r) ->
  partition sep (buf ++ d) = (m, a :: s, r ++ d).
Proof.
  revert m r; induction buf as [|b rest IH]; intros m r H; simpl in H.
  - discriminate.
  - change ((b :: rest) ++ d) with (b :: (rest ++ d)).
    cbn [partition].
    change (b :: (rest ++ d)) with ((b :: rest) ++ d).
    destruct (starts_with sep (b :: rest)) as [r'|] eqn:E.
    + inversion H; subst. rewrite (starts_with_app _ _ _ d E). reflexivity.
    + destruct (partition sep rest) as [[m' s'] r'] eqn:P.
      inversion H; subst.
      rewrite starts_with_none_app; [|assumption|].
      * rewrite (IH _ _ eq_refl). reflexivity.
      * pose proof (partition_length _ _ _ _ _ P) as L.
        destruct (partition_found _ _ _ _ _ _ P) as [_ <-].
        simpl in *. lia.
Qed.

(** ** Facts about the loop *)

(** One turn of the loop, without the termination bookkeeping. *)
Lemma drain_step cb buf :
  drain cb buf =
  match partition DELIMITER buf with
  | (msg, [], _) => (buf, [])
  | (msg, _ :: _, remainder) =>
      let '(buf', out) := drain cb remainder in
      if truthy msg && cb then (buf', msg :: out) else (buf', out)
  end.
Proof.
  destruct buf as [|b rest]; [reflexivity|].
  simp drain. unfold inspect.
  assert (G : forall q (e : partition DELIMITER (b :: rest) = q),
    drain_unfold_clause_2 cb b rest (exist _ q e) =
    match q with
    | (msg, [], _) => (b :: rest, [])
    | (msg, _ :: _, remainder) =>
        let '(buf', out) := drain cb remainder in
        if truthy msg && cb then (buf', msg :: out) else (buf', out)
    end).
  { intros [[msg [|s sep]] remainder] e; simp drain; reflexivity. }
  apply G.
Qed.

(** Induction on the buffer following the loop: either no delimiter is
    left, or the property is carried over from the remainder. *)
Lemma drain_ind (P : list byte -> Prop) :
  (forall buf m r, partition DELIMITER buf = (m, [], r) -> P buf) ->
  (forall buf m a s r,
      partition DELIMITER buf = (m, a :: s, r) -> P r -> P buf) ->
  forall buf, P buf.
Proof.
  intros Hstop Hstep buf.
  remember (length buf) as n eqn:Hn.
  revert buf Hn. induction n as [n IH] using lt_wf_ind. intros buf ->.
  destruct (partition DELIMITER buf) as [[m [|a s]] r] eqn:E.
  - eapply Hstop; eassumption.
  - eapply Hstep; [eassumption|].
    apply (IH (length r)); [|reflexivity].
    apply partition_length in E. simpl in E. lia.
Qed.

(** Data appended to the buffer is seen by the loop exactly as if it had
    been appended to what an earlier run left behind. *)
Lemma drain_app cb buf d :
  drain cb (buf ++ d) =
  let '(r, out) := drain cb buf in
  let '(r', out') := drain cb (r ++ d) in (r', out ++ out').
Proof.
  induction buf as [buf m r E | buf m a s r E IH] using drain_ind.
  - rewrite (drain_step cb buf), E.
    destruct (drain cb (buf ++ d)) as [r' out']. reflexivity.
  - rewrite (drain_step cb (buf ++ d)), (partition_app _ _ _ _ _ _ d E).
    rewrite (drain_step cb buf), E. rewrite IH.
    destruct (drain cb r) as [r1 o1].
    destruct (truthy m && cb); cbn iota beta;
      destruct (drain cb (r1 ++ d)) as [r2 o2]; reflexivity.
Qed.

(** What the loop leaves behind holds no delimiter: running the loop on it
    again dispatches nothing and keeps it. *)
Lemma drain_stable cb buf r out :
  drain cb buf = (r, out) -> drain cb r = (r, []).
Proof.
  revert r out.
  induction buf as [buf m r0 E | buf m a s r0 E IH] using drain_ind;
    intros r out H.
  - rewrite drain_step, E in H. inversion H; subst.
    rewrite drain_step, E. reflexivity.
  - rewrite drain_step, E in H.
    destruct (drain cb r0) as [r1 o1] eqn:D.
    assert (r = r1) as -> by (destruct (truthy m && cb); congruence).
    eapply IH; reflexivity.
Qed.

(** The leftover is the part of the buffer after its last delimiter. *)
Lemma drain_leftover cb buf r out :
  drain cb buf = (r, out) ->
  exists pre, buf = pre ++ r
    /\ partition DELIMITER r = (r, [], [])
    /\ (pre = [] \/ exists q, pre = q ++ DELIMITER).
Proof.
  revert r out.
  induction buf as [buf m r0 E | buf m a s r0 E IH] using drain_ind;
    intros r out H.
  - rewrite drain_step, E in H. inversion H; subst.
    exists []. split; [reflexivity|]. split; [|auto].
    destruct (partition_missing _ _ _ _ E) as [-> ->]; [discriminate|].
    assumption.
  - rewrite drain_step, E in H.
    destruct (drain cb r0) as [r1 o1] eqn:D.
    assert (r = r1) as -> by (destruct (truthy m && cb); congruence).
    destruct (IH _ _ eq_refl) as (pre & -> & Hno & Hpre).
    destruct (partition_found _ _ _ _ _ _ E) as [-> _].
    exists (m ++ DELIMITER ++ pre). split.
    { rewrite <- !app_assoc. reflexivity. }
    split; [assumption|]. right.
    destruct Hpre as [-> | [q ->]].
    + exists m. rewrite app_nil_r. reflexivity.
    + exists (m ++ DELIMITER ++ q). rewrite <- !app_assoc. reflexivity.
Qed.

(** Every dispatched line is non-empty. *)
Lemma drain_lines_nonempty cb buf r out :
  drain cb buf = (r, out) -> Forall (fun l => l <> []) out.
Proof.
  revert r out.
  induction buf as [buf m r0 E | buf m a s r0 E IH] using drain_ind;
    intros r out H.
  - rewrite drain_step, E in H. inversion H; subst. constructor.
  - rewrite drain_step, E in H.
    destruct (drain cb r0) as [r1 o1] eqn:D.
    specialize (IH _ _ eq_refl).
    destruct m as [|b m]; simpl in H.
    + inversion H; subst. assumption.
    + destruct cb; inversion H; subst; [constructor|]; auto; discriminate.
Qed.

(** ** Chunk-boundary independence *)

(** A buffer is settled when the loop has nothing to extract from it. *)
Definition settled (p : SBSProtocol) : Prop :=
  exists b, buf p = Some b /\ drain (on_message_received p) b = (b, []).

Lemma connection_made_settled p : settled (connection_made p).
Proof. exists []. split; reflexivity. Qed.

Lemma data_received_settled p data p' out :
  data_received p data = Some (p', out) -> settled p'.
Proof.
  unfold data_received. destruct (buf p) as [b|]; [|discriminate].
  destruct (drain _ (b ++ data)) as [b' o] eqn:D. intros H; inversion H; subst.
  exists b'. split; [reflexivity|]. simpl. eapply drain_stable; eassumption.
Qed.

Lemma feed_concat p chunks :
  settled p -> feed p chunks = data_received p (concat chunks).
Proof.
  revert p; induction chunks as [|c cs IH]; intros p Hp.
  - destruct Hp as (b & Hb & Hd). destruct p as [pb cb]; simpl in *.
    subst pb. unfold data_received; simpl. rewrite app_nil_r, Hd. reflexivity.
  - simpl. destruct (data_received p c) as [[p1 o1]|] eqn:D1.
    + rewrite (IH p1 (data_received_settled _ _ _ _ D1)).
      unfold data_received in *. destruct (buf p) as [b|]; [|discriminate].
      destruct (drain (on_message_received p) (b ++ c)) as [b1 out1] eqn:E1.
      inversion D1; subst; simpl.
      rewrite app_assoc, (drain_app _ (b ++ c) (concat cs)), E1.
      destruct (drain _ (b1 ++ concat cs)) as [b2 out2]. reflexivity.
    + unfold data_received in *. destruct (buf p) as [b|]; [|reflexivity].
      revert D1.
      destruct (drain (on_message_received p) (b ++ c)); discriminate.
Qed.

Example drain_two_lines :
  drain true [x41; x0d; x0a; x0d; x0a; x42; x43; x0d; x0a; x44; x0d]
  = ([x44; x0d], [[x41]; [x42; x43]]).
Proof. reflexivity. Qed.

Example feed_split_delimiter :
  feed (connection_made {| buf := None; on_message_received := true |})
       [[x41; x0d]; [x0a; x42]]
  = Some ({| buf := Some [x42]; on_message_received := true |}, [[x41]]).
Proof. reflexivity. Qed.

(** C2: fed to a connected protocol in any chunking, a byte stream makes
    [data_received] dispatch the same lines, in the same order, and leaves
    the same buffer as one call with the whole stream; the buffer left is
    the part of the stream after its last delimiter. *)
Theorem data_received_chunk_independent
    (p0 : SBSProtocol) (chunks : list (list byte)) :
  exists p' out,
    feed (connection_made p0) chunks = Some (p', out)
    /\ data_received (connection_made p0) (concat chunks) = Some (p', out)
    /\ exists pre r,
         buf p' = Some r
         /\ concat chunks = pre ++ r
         /\ partition DELIMITER r = (r, [], [])
         /\ (pre = [] \/ exists q, pre = q ++ DELIMITER).
Proof.
  rewrite (feed_concat _ chunks (connection_made_settled p0)).
  unfold data_received; simpl.
  destruct (drain _ (concat chunks)) as [r out] eqn:D.
  eexists _, _. split; [reflexivity|]. split; [reflexivity|].
  destruct (drain_leftover _ _ _ _ D) as (pre & Hpre & Hno & Hend).
  exists pre, r. simpl. auto.
Qed.

(** C9: whatever is fed to the decoder, an empty line (a bare delimiter,
    the heartbeat) is never handed to the message handler: every dispatched
    line is non-empty. *)
Theorem heartbeat_never_dispatched
    (p : SBSProtocol) (chunks : list (list byte))
    (p' : SBSProtocol) (out : list (list byte)) :
  feed p chunks = Some (p', out) -> Forall (fun l => l <> []) out.
Proof.
  revert p p' out; induction chunks as [|c cs IH]; intros p p' out H.
  - inversion H; subst. constructor.
  - simpl in H. destruct (data_received p c) as [[p1 o1]|] eqn:D1;
      [|discriminate].
    destruct (feed p1 cs) as [[p2 o2]|] eqn:F; [|discriminate].
    inversion H; subst. apply Forall_app. split; [|eapply IH; eassumption].
    unfold data_received in D1. destruct (buf p) as [b|]; [|discriminate].
    destruct (drain (on_message_received p) (b ++ c)) as [b1 out1] eqn:E1.
    inversion D1; subst.
    eapply drain_lines_nonempty; eassumption.
Qed.

Lemma heartbeat_never_dispatched_witness :
  Forall (fun l : list byte => l <> []) [[x41]; [x42]].
Proof.
  apply (heartbeat_never_dispatched
           (connection_made {| buf := None; on_message_received := true |})
           [[x0d; x0a; x41; x0d]; [x0a; x0d; x0a]; [x42; x0d; x0a; x0d; x0a]]
           {| buf := Some []; on_message_received := true |}).
  reflexivity.
Defined.

End Protocol.

(* ===================================================================== *)
(** * Aircraft records: [adsb/sbs/aircraft.py]                           *)
(* ===================================================================== *)

(** Exceptions that the modelled code can raise. *)
Inductive PyError : Type :=
| TypeError
| NameError
| ValueError
| AttributeError
| KeyError
| UnicodeDecodeError
| Exception.

(** A computation that returns or raises. *)
Definition result (A : Type) : Type := PyError + A.

(** [collections.deque(maxlen=...)]: [maxlen = None] is an unbounded deque. *)
Module Deque.

Record deque (A : Type) := {
  maxlen : option nat;
  items : list A
}.
Arguments maxlen {A} _.
Arguments items {A} _.

(** [deque(maxlen=n)]: [None] is no bound, a negative bound is a
    [ValueError]. *)
Definition new {A} (n : option Z) : result (deque A) :=
  match n with
  | None => inr {| maxlen := None; items := [] |}
  | Some n =>
      if n <? 0 then inl ValueError
      else inr {| maxlen := Some (Z.to_nat n); items := [] |}
  end.

(** [d.append(x)]: the item goes to the right end and, if the deque is then
    longer than [maxlen], one item is dropped from the left end. *)
Definition append {A} (x : A) (d : deque A) : deque A :=
  let l := items d ++ [x] in
  match maxlen d with
  | None => {| maxlen := None; items := l |}
  | Some n =>
      {| maxlen := Some n;
         items := if (n <? length l)%nat then tail l else l |}
  end.

(** [d[-1]] *)
Definition last_item {A} (d : deque A) : option A := last (items d).

(** [bool(d)] *)
Definition truthy {A} (d : deque A) : bool :=
  match items d with [] => false | _ :: _ => true end.

End Deque.

Module Aircraft.

Section WithNumber.

(** The type of the numeric payload ([float] in [mypy_types.py]); the
    aircraft record only stores such values. *)
Context {number : Type}.

(** [PositionType]: a [(lat, lon)] tuple whose components may be [None]. *)
Definition Position : Type := option number * option number.

(** [HistoryPointType]: [(timestamp, lat, lon, alt)]. *)
Definition HistoryPoint : Type :=
  Z * option number * option number * option number.

Record Aircraft := {
  icao : string;
  callsign : option string;
  last_seen : option Z;
  altitude : option number;
  latitude : option number;
  longitude : option number;
  ground_speed : option number;
  track : option number;
  vertical_rate : option number;
  msg_count : Z;
  origin : option Position;
  details : gmap string string;
  history_interval : option Z;
  history : Deque.deque HistoryPoint
}.

(** [datetime.timedelta(seconds=n)] in microseconds. *)
Definition timedelta_seconds (n : Z) : Z := n * 1000000.

(** [Aircraft.__init__(hex_ident, history_size=50, history_interval=5)].
    [history_interval] is [None] or an [int]; [if history_interval:] is
    false for both [None] and [0]. *)
Definition init (hex_ident : string) (history_size : option Z)
    (interval : option Z) : result Aircraft :=
  match Deque.new history_size with
  | inl e => inl e
  | inr h =>
      inr {| icao := hex_ident;
             callsign := None;
             last_seen := None;
             altitude := None;
             latitude := None;
             longitude := None;
             ground_speed := None;
             track := None;
             vertical_rate := None;
             msg_count := 0;
             origin := None;
             details := ∅;
             history_interval :=
               match interval with
               | Some n => if n =? 0 then None else Some (timedelta_seconds n)
               | None => None
               end;
             history := h |}
  end.

(** The defaults of the constructor. *)
Definition default_history_size : option Z := Some 50.
Definition default_history_interval : option Z := Some 5.

(** Field updates, one per assigned attribute. *)
Definition set_last_seen (t : option Z) (a : Aircraft) : Aircraft :=
  {| icao := icao a; callsign := callsign a; last_seen := t;
     altitude := altitude a; latitude := latitude a;
     longitude := longitude a; ground_speed := ground_speed a;
     track := track a; vertical_rate := vertical_rate a;
     msg_count := msg_count a; origin := origin a; details := details a;
     history_interval := history_interval a; history := history a |}.

Definition set_callsign (c : option string) (a : Aircraft) : Aircraft :=
  {| icao := icao a; callsign := c; last_seen := last_seen a;
     altitude := altitude a; latitude := latitude a;
     longitude := longitude a; ground_speed := ground_speed a;
     track := track a; vertical_rate := vertical_rate a;
     msg_count := msg_count a; origin := origin a; details := details a;
     history_interval := history_interval a; history := history a |}.

Definition set_altitude (v : option number) (a : Aircraft) : Aircraft :=
  {| icao := icao a; callsign := callsign a; last_seen := last_seen a;
     altitude := v; latitude := latitude a;
     longitude := longitude a; ground_speed := ground_speed a;
     track := track a; vertical_rate := vertical_rate a;
     msg_count := msg_count a; origin := origin a; details := details a;
     history_interval := history_interval a; history := history a |}.

Definition set_latlon (lat lon : option number) (a : Aircraft) : Aircraft :=
  {| icao := icao a; callsign := callsign a; last_seen := last_seen a;
     altitude := altitude a; latitude := lat;
     longitude := lon; ground_speed := ground_speed a;
     track := track a; vertical_rate := vertical_rate a;
     msg_count := msg_count a; origin := origin a; details := details a;
     history_interval := history_interval a; history := history a |}.

Definition set_motion (gs tr vr : option number) (a : Aircraft) : Aircraft :=
  {| icao := icao a; callsign := callsign a; last_seen := last_seen a;
     altitude := altitude a; latitude := latitude a;
     longitude := longitude a; ground_speed := gs;
     track := tr; vertical_rate := vr;
     msg_count := msg_count a; origin := origin a; details := details a;
     history_interval := history_interval a; history := history a |}.

Definition set_msg_count (n : Z) (a : Aircraft) : Aircraft :=
  {| icao := icao a; callsign := callsign a; last_seen := last_seen a;
     altitude := altitude a; latitude := latitude a;
     longitude := longitude a; ground_speed := ground_speed a;
     track := track a; vertical_rate := vertical_rate a;
     msg_count := n; origin := origin a; details := details a;
     history_interval := history_interval a; history := history a |}.

Definition set_origin (o : option Position) (a : Aircraft) : Aircraft :=
  {| icao := icao a; callsign := callsign a; last_seen := last_seen a;
     altitude := altitude a; latitude := latitude a;
     longitude := longitude a; ground_speed := ground_speed a;
     track := track a; vertical_rate := vertical_rate a;
     msg_count := msg_count a; origin := o; details := details a;
     history_interval := history_interval a; history := history a |}.

Definition set_details (d : gmap string string) (a : Aircraft) : Aircraft :=
  {| icao := icao a; callsign := callsign a; last_seen := last_seen a;
     altitude := altitude a; latitude := latitude a;
     longitude := longitude a; ground_speed := ground_speed a;
     track := track a; vertical_rate := vertical_rate a;
     msg_count := msg_count a; origin := origin a; details := d;
     history_interval := history_interval a; history := history a |}.

Definition set_history (h : Deque.deque HistoryPoint) (a : Aircraft)
  : Aircraft :=
  {| icao := icao a; callsign := callsign a; last_seen := last_seen a;
     altitude := altitude a; latitude := latitude a;
     longitude := longitude a; ground_speed := ground_speed a;
     track := track a; vertical_rate := vertical_rate a;
     msg_count := msg_count a; origin := origin a; details := details a;
     history_interval := history_interval a; history := h |}.

(** The [position] property. *)
Definition position (a : Aircraft) : Position := (latitude a, longitude a).

(** [update_ident] *)
Definition update_ident (c : option string) (timestamp : Z) (a : Aircraft)
  : Aircraft :=
  set_callsign c (set_last_seen (Some timestamp) a).

(** [update_motion] *)
Definition update_motion (gs tr vr : option number) (timestamp : Z)
    (a : Aircraft) : Aircraft :=
  set_last_seen (Some timestamp) (set_motion gs tr vr a).

(** [update_altitude] *)
Definition update_altitude (alt : option number) (timestamp : Z)
    (a : Aircraft) : Aircraft :=
  set_altitude alt (set_last_seen (Some timestamp) a).

(** [update_details] *)
Definition update_details (d : gmap string string) (a : Aircraft)
  : Aircraft := set_details d a.

(** [update_position] *)
Definition update_position (alt lat lon : option number) (timestamp : Z)
    (a : Aircraft) : Aircraft :=
  let a1 :=
    set_latlon lat lon (set_altitude alt (set_last_seen (Some timestamp) a)) in
  let point : HistoryPoint := (timestamp, lat, lon, alt) in
  if Deque.truthy (history a1) then
    match history_interval a1 with
    | Some interval =>
        match Deque.last_item (history a1) with
        | Some (_timestamp, _, _, _) =>
            if timestamp >? _timestamp + interval
            then set_history (Deque.append point (history a1)) a1
            else a1
        | None => a1
        end
    | None => set_history (Deque.append point (history a1)) a1
    end
  else set_history (Deque.append point (history a1)) a1.

(** [path] *)
Definition path (a : Aircraft) : list HistoryPoint :=
  Deque.items (history a).

(** The names bound at module level in [aircraft.py]: what it imports
    ([collections], [datetime], [logging], five type aliases from
    [mypy_types], [List] and [Tuple] from [typing]) and what it defines. *)
Definition module_names : list string :=
  ["collections"; "datetime"; "logging";
   "AltitudeType"; "LatitudeType"; "LongitudeType"; "PositionType";
   "HistoryPointType"; "List"; "Tuple"; "logger"; "Aircraft"]%string.

(** Looking up a global name from a method body: a name that the module
    does not bind is a [NameError]. *)
Definition lookup_global (name : string) : result unit :=
  if bool_decide (name ∈ module_names) then inr tt else inl NameError.

(** [None in t] for a 2-tuple [t]. *)
Definition contains_none (p : Position) : bool :=
  match p with
  | (Some _, Some _) => false
  | _ => true
  end.

(** The great-circle formula of [utils.haversine_distance] on two fully
    set points, in floating point; it is kept abstract. *)
Context (great_circle : number * number -> number * number -> number).

(** [utils.haversine_distance(origin, destination)]: raises when either
    argument is [None]; subtracting with a [None] component is a
    [TypeError]. *)
Definition haversine_distance (o d : option Position) : result number :=
  match o, d with
  | None, _ | _, None => inl Exception
  | Some (Some lat1, Some lon1), Some (Some lat2, Some lon2) =>
      inr (great_circle (lat1, lon1) (lat2, lon2))
  | Some _, Some _ => inl TypeError
  end.

(** The [distance] property.  [None not in self.origin] is a [TypeError]
    when [self.origin] is [None]; the right operand of [and] is evaluated
    only when the left one is true. *)
Definition distance (a : Aircraft) : result (option number) :=
  if negb (contains_none (position a)) then
    match origin a with
    | None => inl TypeError
    | Some o =>
        if negb (contains_none o) then
          match lookup_global "haversine_distance" with
          | inl e => inl e
          | inr _ =>
              match haversine_distance (origin a) (Some (position a)) with
              | inl e => inl e
              | inr d => inr (Some d)
              end
          end
        else inr None
    end
  else inr None.

(** A run of [update_position] calls, oldest first. *)
Definition PositionUpdate : Type :=
  option number * option number * option number * Z.

Definition apply_update (a : Aircraft) (u : PositionUpdate) : Aircraft :=
  let '(alt, lat, lon, t) := u in update_position alt lat lon t a.

Definition apply_updates (us : list PositionUpdate) (a : Aircraft)
  : Aircraft := fold_left apply_update us a.

End WithNumber.

Arguments Aircraft : clear implicits.
Arguments Position : clear implicits.
Arguments HistoryPoint : clear implicits.
Arguments PositionUpdate : clear implicits.

(** ** The history of an aircraft *)

Section History.

Context {number : Type}.
Implicit Types (a : Aircraft number) (us : list (PositionUpdate number)).

Lemma deque_append_maxlen {A} (x : A) (d : Deque.deque A) :
  Deque.maxlen (Deque.append x d) = Deque.maxlen d.
Proof. unfold Deque.append. destruct (Deque.maxlen d); reflexivity. Qed.

(** A bounded deque that respects its bound still does after an append. *)
Lemma deque_append_bounded {A} (x : A) (d : Deque.deque A) n :
  Deque.maxlen d = Some n ->
  (length (Deque.items d) <= n)%nat ->
  (length (Deque.items (Deque.append x d)) <= n)%nat.
Proof.
  intros Hm Hl. unfold Deque.append. rewrite Hm. simpl.
  destruct (n <? length (Deque.items d ++ [x]))%nat eqn:E.
  - destruct (Deque.items d) as [|y l]; simpl in *; [lia|].
    rewrite length_app. simpl. lia.
  - apply Nat.ltb_ge in E. assumption.
Qed.

(** On a full deque the oldest item leaves and the new one is last. *)
Lemma deque_append_full {A} (x y : A) (l : list A) n :
  length (y :: l) = n ->
  Deque.items (Deque.append x {| Deque.maxlen := Some n;
                                 Deque.items := y :: l |}) = l ++ [x].
Proof.
  intros <-. unfold Deque.append. cbn [Deque.maxlen Deque.items].
  replace (length (y :: l) <? length ((y :: l) ++ [x]))%nat with true;
    [reflexivity|].
  symmetry. apply Nat.ltb_lt. rewrite length_app. simpl. lia.
Qed.

(** With room left the deque only grows at the right end. *)
Lemma deque_append_room {A} (x : A) (d : Deque.deque A) n :
  Deque.maxlen d = Some n ->
  (length (Deque.items d) < n)%nat ->
  Deque.items (Deque.append x d) = Deque.items d ++ [x].
Proof.
  intros Hm Hl. unfold Deque.append. rewrite Hm. simpl.
  replace (n <? length (Deque.items d ++ [x]))%nat with false; [reflexivity|].
  symmetry. apply Nat.ltb_ge. rewrite length_app. simpl. lia.
Qed.

(** Without a bound every appended item is retained. *)
Lemma deque_append_unbounded {A} (x : A) (d : Deque.deque A) :
  Deque.maxlen d = None ->
  Deque.items (Deque.append x d) = Deque.items d ++ [x].
Proof. intros Hm. unfold Deque.append. rewrite Hm. reflexivity. Qed.

(** A deque of capacity zero never holds anything. *)
Lemma deque_append_zero {A} (x : A) (d : Deque.deque A) :
  Deque.maxlen d = Some 0%nat -> Deque.items d = [] ->
  Deque.items (Deque.append x d) = [].
Proof. intros Hm Hl. unfold Deque.append. rewrite Hm, Hl. reflexivity. Qed.

Lemma update_position_history a alt lat lon t :
  history (update_position alt lat lon t a) = history a
  \/ history (update_position alt lat lon t a)
     = Deque.append (t, lat, lon, alt) (history a).
Proof.
  unfold update_position. simpl.
  destruct (Deque.truthy (history a)); [|right; reflexivity].
  destruct (history_interval a) as [i|]; [|right; reflexivity].
  destruct (Deque.last_item (history a)) as [[[[t0 ?] ?] ?]|];
    [|left; reflexivity].
  destruct (t >? t0 + i); [right|left]; reflexivity.
Qed.

Lemma update_position_maxlen a alt lat lon t :
  Deque.maxlen (history (update_position alt lat lon t a))
  = Deque.maxlen (history a).
Proof.
  destruct (update_position_history a alt lat lon t) as [-> | ->];
    [reflexivity | apply deque_append_maxlen].
Qed.

(** The bound of the deque is an invariant of [update_position]. *)
Lemma apply_updates_bounded a us n :
  Deque.maxlen (history a) = Some n ->
  (length (Deque.items (history a)) <= n)%nat ->
  (length (path (apply_updates us a)) <= n)%nat.
Proof.
  unfold apply_updates, path. revert a.
  induction us as [|[[[alt lat] lon] t] us IH]; intros a Hm Hl; simpl.
  - exact Hl.
  - apply IH.
    + rewrite update_position_maxlen. exact Hm.
    + destruct (update_position_history a alt lat lon t) as [-> | ->];
        [exact Hl | apply deque_append_bounded; assumption].
Qed.

Lemma init_history hex (n : Z) interval :
  0 <= n ->
  exists a : Aircraft number,
    init hex (Some n) interval = inr a
    /\ history a = {| Deque.maxlen := Some (Z.to_nat n); Deque.items := [] |}.
Proof.
  intros Hn. unfold init, Deque.new.
  replace (n <? 0) with false by (symmetry; apply Z.ltb_ge; exact Hn).
  eexists. split; reflexivity.
Qed.

(** The part of C4 that the code meets: a history built with a positive
    capacity never holds more samples than that. *)
Lemma history_bounded hex (n : Z) interval a us :
  0 < n -> init hex (Some n) interval = inr a ->
  (length (path (apply_updates us a)) <= Z.to_nat n)%nat.
Proof.
  intros Hn Hinit.
  destruct (init_history hex n interval) as (a0 & H0 & Hh); [lia|].
  rewrite Hinit in H0. inversion H0; subst a0.
  apply apply_updates_bounded; rewrite Hh; simpl; [reflexivity|lia].
Qed.

(** C4, at capacity zero: the constructor's documentation promises that
    [history_size = 0] disables the maximum, but [deque(maxlen=0)] is a
    deque that holds nothing, so no sample is ever retained. *)
Theorem history_size_zero_retains_nothing
    (hex : string) (interval : option Z) :
  exists a : Aircraft number,
    init hex (Some 0) interval = inr a
    /\ forall us, path (apply_updates us a) = [].
Proof.
  destruct (init_history hex 0 interval) as (a & Ha & Hh); [lia|].
  exists a. split; [exact Ha|]. intros us.
  pose proof (apply_updates_bounded a us 0%nat) as Hb.
  rewrite Hh in Hb. specialize (Hb eq_refl (Nat.le_refl _)).
  destruct (path (apply_updates us a)); [reflexivity|simpl in Hb; lia].
Qed.

(** C5: with interval gating on and a history whose last sample is
    [(t0, ...)], an [update_position] stamped no later than
    [t0 + history_interval] leaves the history as it was and still sets the
    live altitude, latitude, longitude and [last_seen]. *)
Theorem update_position_within_interval
    (a : Aircraft number) (interval t0 : Z) (lat0 lon0 alt0 : option number)
    (alt lat lon : option number) (timestamp : Z) :
  history_interval a = Some interval ->
  Deque.last_item (history a) = Some (t0, lat0, lon0, alt0) ->
  timestamp <= t0 + interval ->
  let a' := update_position alt lat lon timestamp a in
  history a' = history a
  /\ altitude a' = alt /\ latitude a' = lat /\ longitude a' = lon
  /\ last_seen a' = Some timestamp.
Proof.
  intros Hi Hlast Hle. unfold update_position. simpl.
  rewrite Hi, Hlast.
  assert (Ht : Deque.truthy (history a) = true).
  { unfold Deque.truthy, Deque.last_item in *.
    destruct (Deque.items (history a)); [discriminate|reflexivity]. }
  rewrite Ht.
  replace (timestamp >? t0 + interval) with false
    by (symmetry; rewrite Z.gtb_ltb; apply Z.ltb_ge; exact Hle).
  simpl. repeat split; reflexivity.
Qed.

(** ** The [distance] property *)

Lemma lookup_haversine_distance :
  lookup_global "haversine_distance" = inl NameError.
Proof. reflexivity. Qed.

(** With a position that is not fully set the property returns [None]. *)
Lemma distance_position_unset gc (a : Aircraft number) :
  contains_none (position a) = true -> distance gc a = inr None.
Proof. intros H. unfold distance. rewrite H. reflexivity. Qed.

(** With an origin tuple that has a [None] component, also. *)
Lemma distance_origin_component_unset gc (a : Aircraft number) o :
  origin a = Some o -> contains_none o = true -> distance gc a = inr None.
Proof.
  intros Ho H. unfold distance. rewrite Ho, H.
  destruct (contains_none (position a)); reflexivity.
Qed.

(** C8, where the code departs from it: with the position fully set, an
    unset origin ([None], the default of both [Aircraft] and [Session])
    makes the property raise [TypeError] rather than return [None]; and
    with origin and position both fully set it raises [NameError], since
    [aircraft.py] never imports [haversine_distance], rather than return
    the great-circle distance. *)
Theorem distance_raises
    (gc : number * number -> number * number -> number)
    (a : Aircraft number) (alt : option number) (lat lon olat olon : number)
    (t : Z) :
  distance gc (update_position alt (Some lat) (Some lon) t
                 (set_origin None a)) = inl TypeError
  /\ distance gc (update_position alt (Some lat) (Some lon) t
                    (set_origin (Some (Some olat, Some olon)) a))
     = inl NameError
  /\ haversine_distance gc (Some (Some olat, Some olon))
       (Some (Some lat, Some lon)) = inr (gc (olat, olon) (lat, lon)).
Proof.
  assert (Hpos : forall o,
    position (update_position alt (Some lat) (Some lon) t (set_origin o a))
    = (Some lat, Some lon)
    /\ origin (update_position alt (Some lat) (Some lon) t (set_origin o a))
       = o).
  { intros o. unfold update_position. simpl.
    destruct (Deque.truthy (history a)); [|split; reflexivity].
    destruct (history_interval a); [|split; reflexivity].
    destruct (Deque.last_item (history a)) as [[[[t0 ?] ?] ?]|];
      [|split; reflexivity].
    destruct (t >? t0 + z); split; reflexivity. }
  split; [|split; [|reflexivity]].
  - destruct (Hpos None) as [Hp Ho]. unfold distance. rewrite Hp, Ho.
    reflexivity.
  - destruct (Hpos (Some (Some olat, Some olon))) as [Hp Ho].
    unfold distance. rewrite Hp, Ho. reflexivity.
Qed.

End History.

(** A default aircraft over integer payloads, two seconds into its
    history interval. *)
Example gated_update_example :
  match init (number := Z) "7C79B7" (Some 50) (Some 5) with
  | inr a0 =>
      let a1 := update_position (Some 2850) (Some 1) (Some 2) 1000000 a0 in
      let a2 := update_position (Some 2900) (Some 3) (Some 4) 3000000 a1 in
      path a2 = [(1000000, Some 1, Some 2, Some 2850)]
      /\ position a2 = (Some 3, Some 4)
  | inl _ => False
  end.
Proof. split; reflexivity. Qed.

Lemma update_position_within_interval_witness :
  let a : Aircraft Z :=
    {| icao := "7C79B7"; callsign := None; last_seen := Some 1000000;
       altitude := Some 2850; latitude := Some 1; longitude := Some 2;
       ground_speed := None; track := None; vertical_rate := None;
       msg_count := 1; origin := None; details := ∅;
       history_interval := Some 5000000;
       history := {| Deque.maxlen := Some 50%nat;
                     Deque.items := [(1000000, Some 1, Some 2, Some 2850)] |}
    |} in
  let a' := update_position (Some 2900) (Some 3) (Some 4) 6000000 a in
  history a' = history a
  /\ altitude a' = Some 2900 /\ latitude a' = Some 3 /\ longitude a' = Some 4
  /\ last_seen a' = Some 6000000.
Proof.
  intros a.
  apply (update_position_within_interval a 5000000 1000000
           (Some 1) (Some 2) (Some 2850)).
  - reflexivity.
  - reflexivity.
  - lia.
Defined.

End Aircraft.

(* ===================================================================== *)
(** * Text: the string operations the line codec relies on               *)
(* ===================================================================== *)

Module Text.

(** [c not in s] *)
Fixpoint absent (c : ascii) (s : string) : Prop :=
  match s with
  | EmptyString => True
  | String a s' => a <> c /\ absent c s'
  end.

(** [s.split(c)] for a one-character separator. *)
Fixpoint split (c : ascii) (s : string) : list string :=
  match s with
  | EmptyString => [EmptyString]
  | String a s' =>
      if Ascii.eqb a c then EmptyString :: split c s'
      else match split c s' with
           | [] => [String a EmptyString]
           | w :: ws => String a w :: ws
           end
  end.

(** [c.join(l)] *)
Definition join (c : ascii) (l : list string) : string :=
  String.concat (String c EmptyString) l.

Lemma split_nonempty c s : split c s <> [].
Proof.
  induction s as [|a s IH]; simpl; [discriminate|].
  destruct (Ascii.eqb a c); [discriminate|].
  destruct (split c s); discriminate.
Qed.

Lemma split_absent c s : Forall (absent c) (split c s).
Proof.
  induction s as [|a s IH]; simpl.
  - repeat constructor.
  - destruct (Ascii.eqb_spec a c) as [->|Hne].
    + constructor; [exact I|exact IH].
    + destruct (split c s) as [|w ws]; [repeat constructor; assumption|].
      inversion IH; subst. constructor; [split; assumption|assumption].
Qed.

Lemma split_absent_id c s : absent c s -> split c s = [s].
Proof.
  induction s as [|a s IH]; simpl; [reflexivity|].
  intros [Hne Hs]. rewrite (proj2 (Ascii.eqb_neq a c) Hne), (IH Hs).
  reflexivity.
Qed.

Lemma append_cons a s t :
  String.append (String a s) t = String a (String.append s t).
Proof. reflexivity. Qed.

Lemma append_nil t : String.append EmptyString t = t.
Proof. reflexivity. Qed.

Lemma split_app c s t :
  absent c s ->
  split c (String.append s (String c t)) = s :: split c t.
Proof.
  induction s as [|a s IH]; simpl.
  - intros _. rewrite Ascii.eqb_refl. reflexivity.
  - intros [Hne Hs]. rewrite (proj2 (Ascii.eqb_neq a c) Hne), (IH Hs).
    reflexivity.
Qed.

Lemma split_join c l :
  l <> [] -> Forall (absent c) l -> split c (join c l) = l.
Proof.
  unfold join. induction l as [|w l IH]; [congruence|].
  intros _ Hl. inversion Hl as [|? ? Hw Hl']; subst.
  destruct l as [|w' l].
  - simpl. apply split_absent_id. exact Hw.
  - change (String.concat (String c "") (w :: w' :: l))
      with (String.append w
              (String c (String.concat (String c "") (w' :: l)))).
    rewrite split_app by exact Hw. f_equal. apply IH; [discriminate|exact Hl'].
Qed.


(** Removing one trailing [CR LF], the line terminator of the stream. *)
Definition CRLF : string := String "013" (String "010" EmptyString).

Fixpoint chomp (s : string) : string :=
  match s with
  | EmptyString => EmptyString
  | String a s' =>
      if String.eqb s CRLF then EmptyString else String a (chomp s')
  end.

Lemma chomp_terminated s : chomp (String.append s CRLF) = s.
Proof.
  induction s as [|a s IH]; [reflexivity|].
  rewrite append_cons. cbn [chomp]. rewrite IH.
  destruct (String.eqb_spec (String a (String.append s CRLF)) CRLF) as [E|_];
    [|reflexivity].
  exfalso. inversion E as [[Ha Hs]].
  destruct s as [|b [|c s]]; discriminate.
Qed.

(** A line that ends with a separator followed by a short field that holds
    no terminator is left alone. *)
Lemma chomp_after_separator c s b :
  c <> "013"%char -> c <> "010"%char -> chomp b = b ->
  chomp (String.append s (String c b)) = String.append s (String c b).
Proof.
  intros Hr Hc Hb. induction s as [|a s IH].
  - rewrite append_nil. cbn [chomp]. rewrite Hb.
    destruct (String.eqb_spec (String c b) CRLF) as [E|_]; [|reflexivity].
    inversion E as [[Ha Hs]]. congruence.
  - rewrite append_cons. cbn [chomp]. rewrite IH.
    destruct (String.eqb_spec
                (String a (String.append s (String c b))) CRLF) as [E|_];
      [|reflexivity].
    exfalso. inversion E as [[Ha Hs]].
    destruct s as [|a' s].
    + rewrite append_nil in Hs. inversion Hs. congruence.
    + rewrite append_cons in Hs. injection Hs as _ Hs'.
      destruct s; discriminate.
Qed.

Lemma append_assoc s t u :
  String.append (String.append s t) u = String.append s (String.append t u).
Proof.
  induction s as [|a s IH]; [reflexivity|].
  rewrite !append_cons, IH. reflexivity.
Qed.

Lemma join_snoc c l b :
  l <> [] -> join c (l ++ [b]) = String.append (join c l) (String c b).
Proof.
  unfold join. induction l as [|w l IH]; [congruence|]. intros _.
  destruct l as [|w' l]; [reflexivity|].
  change (String.concat (String c "") ((w :: w' :: l) ++ [b]))
    with (String.append w
            (String c (String.concat (String c "") ((w' :: l) ++ [b])))).
  rewrite IH by discriminate.
  change (String.concat (String c "") (w :: w' :: l))
    with (String.append w
            (String c (String.concat (String c "") (w' :: l)))).
  rewrite append_assoc, append_cons. reflexivity.
Qed.

(** Joined fields of which the last holds no terminator are left alone. *)
Lemma chomp_join c l :
  c <> "013"%char -> c <> "010"%char -> (2 <= length l)%nat ->
  chomp (List.last l EmptyString) = List.last l EmptyString ->
  chomp (join c l) = join c l.
Proof.
  intros Hr Hn Hlen Hlast.
  assert (Hne : l <> []) by (destruct l; [simpl in Hlen; lia|discriminate]).
  rewrite (app_removelast_last EmptyString Hne).
  rewrite join_snoc.
  - apply chomp_after_separator; assumption.
  - destruct l as [|x [|y l]]; simpl in *; try lia; discriminate.
Qed.

(** ** Trimming spaces *)

Definition space : ascii := " "%char.

(** [s.lstrip(" ")] *)
Fixpoint lstrip (s : string) : string :=
  match s with
  | EmptyString => EmptyString
  | String a s' => if Ascii.eqb a space then lstrip s' else s
  end.

(** [s.rstrip(" ")] *)
Fixpoint rstrip (s : string) : string :=
  match s with
  | EmptyString => EmptyString
  | String a s' =>
      match rstrip s' with
      | EmptyString =>
          if Ascii.eqb a space then EmptyString else String a EmptyString
      | r => String a r
      end
  end.

(** [s.strip(" ")] *)
Definition strip (s : string) : string := lstrip (rstrip s).

Lemma lstrip_idempotent s : lstrip (lstrip s) = lstrip s.
Proof.
  induction s as [|a s IH]; [reflexivity|]. simpl.
  destruct (Ascii.eqb a space) eqn:E; [exact IH|]. simpl. rewrite E.
  reflexivity.
Qed.

Lemma rstrip_idempotent s : rstrip (rstrip s) = rstrip s.
Proof.
  induction s as [|a s IH]; [reflexivity|]. simpl.
  destruct (rstrip s) as [|b r] eqn:R.
  - destruct (Ascii.eqb a space) eqn:E; [reflexivity|]. simpl. rewrite E.
    reflexivity.
  - cbn [rstrip]. cbn [rstrip] in IH. rewrite IH. reflexivity.
Qed.

Lemma rstrip_lstrip s : rstrip s = s -> rstrip (lstrip s) = lstrip s.
Proof.
  induction s as [|a s IH]; [reflexivity|]. intros H.
  cbn [lstrip]. destruct (Ascii.eqb a space) eqn:E; [|exact H].
  apply IH. cbn [rstrip] in H. rewrite E in H.
  destruct (rstrip s) as [|b r]; [discriminate|]. congruence.
Qed.

Lemma strip_idempotent s : strip (strip s) = strip s.
Proof.
  unfold strip.
  rewrite (rstrip_lstrip (rstrip s) (rstrip_idempotent s)).
  apply lstrip_idempotent.
Qed.

Lemma lstrip_absent c s : absent c s -> absent c (lstrip s).
Proof.
  induction s as [|a s IH]; [trivial|]. intros [Hne Hs]. simpl.
  destruct (Ascii.eqb a space); [auto|split; assumption].
Qed.

Lemma rstrip_absent c s : absent c s -> absent c (rstrip s).
Proof.
  induction s as [|a s IH]; [trivial|]. intros [Hne Hs]. simpl.
  specialize (IH Hs). destruct (rstrip s) as [|b r].
  - destruct (Ascii.eqb a space); simpl; auto.
  - split; assumption.
Qed.

Lemma strip_absent c s : absent c s -> absent c (strip s).
Proof. intros H. apply lstrip_absent, rstrip_absent, H. Qed.


(** ** Decimal digits *)

Definition digit_of_ascii (c : ascii) : option N :=
  let n := N_of_ascii c in
  if (48 <=? n)%N && (n <=? 57)%N then Some (n - 48)%N else None.

Definition ascii_of_digit (d : N) : ascii := ascii_of_N (48 + d).

(** The value of a run of digits read after [acc]. *)
Fixpoint digits_value (acc : N) (s : string) : option N :=
  match s with
  | EmptyString => Some acc
  | String c s' =>
      match digit_of_ascii c with
      | Some d => digits_value (acc * 10 + d) s'
      | None => None
      end
  end.

(** [int(s)] for a non-empty run of digits. *)
Definition N_of_digits (s : string) : option N :=
  match s with
  | EmptyString => None
  | _ => digits_value 0 s
  end.

(** The last [w] digits of [n], zero-padded: [%0wd]. *)
Fixpoint fixed_digits (w : nat) (n : N) : string :=
  match w with
  | O => EmptyString
  | S w' =>
      String.append (fixed_digits w' (n / 10))
        (String (ascii_of_digit (n mod 10)) EmptyString)
  end.

Lemma digit_of_ascii_of_digit d :
  (d < 10)%N -> digit_of_ascii (ascii_of_digit d) = Some d.
Proof.
  intros Hd. unfold digit_of_ascii, ascii_of_digit.
  rewrite N_ascii_embedding by lia.
  replace (48 <=? 48 + d)%N with true by (symmetry; apply N.leb_le; lia).
  replace (48 + d <=? 57)%N with true by (symmetry; apply N.leb_le; lia).
  simpl. f_equal. lia.
Qed.

Lemma digits_value_app acc s t :
  digits_value acc (String.append s t) =
  match digits_value acc s with
  | Some a => digits_value a t
  | None => None
  end.
Proof.
  revert acc; induction s as [|c s IH]; intros acc; [reflexivity|].
  rewrite append_cons. simpl. destruct (digit_of_ascii c); [apply IH|reflexivity].
Qed.

Lemma digits_value_fixed w n acc :
  digits_value acc (fixed_digits w n)
  = Some (acc * 10 ^ N.of_nat w + n mod 10 ^ N.of_nat w)%N.
Proof.
  revert n acc; induction w as [|w IH]; intros n acc.
  - simpl. rewrite N.mod_1_r. f_equal. lia.
  - cbn [fixed_digits]. rewrite digits_value_app, IH. cbn [digits_value].
    rewrite digit_of_ascii_of_digit by (apply N.mod_lt; lia).
    f_equal. rewrite Nat2N.inj_succ, N.pow_succ_r'.
    rewrite (N.Div0.mod_mul_r n 10 (10 ^ N.of_nat w)). lia.
Qed.

Lemma fixed_digits_nonempty w n : fixed_digits (S w) n <> EmptyString.
Proof.
  cbn [fixed_digits]. destruct (fixed_digits w (n / 10)); discriminate.
Qed.

Lemma N_of_digits_fixed w n :
  (n < 10 ^ N.of_nat (S w))%N -> N_of_digits (fixed_digits (S w) n) = Some n.
Proof.
  intros Hn. unfold N_of_digits.
  pose proof (fixed_digits_nonempty w n) as Hne.
  pose proof (digits_value_fixed (S w) n 0) as Hv.
  destruct (fixed_digits (S w) n); [congruence|].
  rewrite Hv. f_equal. rewrite N.mod_small by exact Hn. lia.
Qed.

Lemma length_append s t :
  String.length (String.append s t) = (String.length s + String.length t)%nat.
Proof.
  induction s as [|a s IH]; [reflexivity|].
  rewrite append_cons. simpl. rewrite IH. reflexivity.
Qed.

Lemma fixed_digits_length w n : String.length (fixed_digits w n) = w.
Proof.
  revert n; induction w as [|w IH]; intros n; [reflexivity|].
  cbn [fixed_digits]. rewrite length_append, IH. simpl. lia.
Qed.

(** A run of digits holds no other character. *)
Lemma digits_value_absent c acc s v :
  digit_of_ascii c = None -> digits_value acc s = Some v -> absent c s.
Proof.
  intros Hc. revert acc; induction s as [|a s IH]; intros acc H; [exact I|].
  simpl in H. destruct (digit_of_ascii a) as [d|] eqn:Ha; [|discriminate].
  split; [congruence|eauto].
Qed.

Lemma N_of_digits_absent c s v :
  digit_of_ascii c = None -> N_of_digits s = Some v -> absent c s.
Proof.
  intros Hc H. destruct s; [exact I|]. eapply digits_value_absent; eassumption.
Qed.

(** ** Integers of any size *)

(** [int(s)] on an optional sign and digits. *)
Definition int_of_field (s : string) : option Z :=
  option_map Z.of_int (NilZero.int_of_string s).

(** [str(z)] *)
Definition field_of_int (z : Z) : string :=
  NilZero.string_of_int (Z.to_int z).

Lemma int_of_field_of_int z : int_of_field (field_of_int z) = Some z.
Proof.
  unfold int_of_field, field_of_int.
  rewrite NilZero.isi.
  - simpl. f_equal. apply DecimalZ.of_to.
  - destruct z; simpl; try discriminate.
    intros [= H]. exact (DecimalPos.Unsigned.to_uint_nonnil _ H).
  - destruct z; simpl; try discriminate.
    intros [= H]. exact (DecimalPos.Unsigned.to_uint_nonnil _ H).
Qed.

Lemma uint_of_string_absent c s d :
  (forall d0, uint_of_char c (Some d0) = None) ->
  NilEmpty.uint_of_string s = Some d -> absent c s.
Proof.
  intros Hc. revert d; induction s as [|a s IH]; intros d H; [exact I|].
  simpl in H. destruct (NilEmpty.uint_of_string s) as [d0|]; [|discriminate].
  split; [|eauto]. intros ->. rewrite Hc in H. discriminate.
Qed.

Lemma int_of_field_absent c s z :
  c <> "-"%char -> (forall d0, uint_of_char c (Some d0) = None) ->
  int_of_field s = Some z -> absent c s.
Proof.
  intros Hm Hc. unfold int_of_field, NilZero.int_of_string.
  destruct s as [|a s]; [discriminate|].
  destruct (Ascii.eqb_spec a "-") as [->|Hne].
  - unfold NilZero.uint_of_string. destruct s as [|b s]; [discriminate|].
    destruct (NilEmpty.uint_of_string (String b s)) as [d|] eqn:E;
      [|discriminate].
    intros _. split; [congruence|]. eapply uint_of_string_absent; eassumption.
  - unfold NilZero.uint_of_string.
    destruct (NilEmpty.uint_of_string (String a s)) as [d|] eqn:E;
      [|discriminate].
    intros _. eapply uint_of_string_absent; eassumption.
Qed.

Example int_of_field_examples :
  int_of_field "2850" = Some 2850
  /\ int_of_field "-34" = Some (-34)
  /\ int_of_field "" = None
  /\ int_of_field "12a" = None
  /\ field_of_int (-34) = "-34"%string
  /\ N_of_digits "03" = Some 3%N
  /\ fixed_digits 2 3 = "03"%string
  /\ fixed_digits 6 365000 = "365000"%string.
Proof. repeat split; reflexivity. Qed.

End Text.

(* ===================================================================== *)
(** * SBS messages: the data model of [adsb/sbs/message.py]              *)
(* ===================================================================== *)

Module Message.

(** Modelled from the spec: the [MessageType] enumeration of
    [adsb/sbs/message.py], a file that is not part of the sources at hand.
    The specification lists the kinds as Transmission, Status,
    Identification, Click, New and Remove, with the wire values
    MSG, STA, ID, CLK, AIR and SEL. *)
Inductive MessageType : Type :=
| Transmission
| Status
| Identification
| Click
| New
| Remove.

Global Instance MessageType_eq_dec : EqDecision MessageType.
Proof. solve_decision. Defined.

(** Modelled from the spec: the [TransmissionType] enumeration of
    [adsb/sbs/message.py]; [session.py] names its members and the
    specification gives their order within 1..8. *)
Module TransmissionType.
Definition ES_IDENT_AND_CATEGORY : Z := 1.
Definition ES_SURFACE_POS : Z := 2.
Definition ES_AIRBORNE_POS : Z := 3.
Definition ES_AIRBORNE_VEL : Z := 4.
Definition SURVEILLANCE_ALT : Z := 5.
Definition SURVEILLANCE_ID : Z := 6.
Definition AIR_TO_AIR : Z := 7.
Definition ALL_CALL_REPLY : Z := 8.
End TransmissionType.

(** [datetime.date] *)
Record date := { year : N; month : N; day : N }.

(** [datetime.time], with microsecond resolution *)
Record time := { hour : N; minute : N; second : N; microsecond : N }.

Global Instance date_eq_dec : EqDecision date.
Proof. solve_decision. Defined.

Global Instance time_eq_dec : EqDecision time.
Proof. solve_decision. Defined.

Section WithNumber.

Context {number : Type}.

(** Modelled from the spec: the [SBSMessage] record of
    [adsb/sbs/message.py].  The fields and their types are those of the
    specification's data model; the optional ones hold [None] when the
    wire field is empty. *)
Record SBSMessage := {
  message_type : MessageType;
  transmission_type : option Z;
  session_id : Z;
  aircraft_id : Z;
  hex_ident : string;
  flight_id : Z;
  generated_date : date;
  generated_time : time;
  logged_date : date;
  logged_time : time;
  callsign : option string;
  altitude : option number;
  ground_speed : option number;
  track : option number;
  lat : option number;
  lon : option number;
  vertical_rate : option number;
  squawk : option string;
  alert : option bool;
  emergency : option bool;
  spi : option bool;
  is_on_ground : option bool
}.

End WithNumber.

Arguments SBSMessage : clear implicits.

(** ** The line codec *)

Section Codec.

Import Text.

(** Modelled from the spec: the wire code of each message type, in the
    order in which the specification lists types and codes. *)
Definition code_of_message_type (t : MessageType) : string :=
  match t with
  | Transmission => "MSG"
  | Status => "STA"
  | Identification => "ID"
  | Click => "CLK"
  | New => "AIR"
  | Remove => "SEL"
  end.

Definition message_type_of_code (s : string) : option MessageType :=
  if String.eqb s "MSG" then Some Transmission
  else if String.eqb s "STA" then Some Status
  else if String.eqb s "ID" then Some Identification
  else if String.eqb s "CLK" then Some Click
  else if String.eqb s "AIR" then Some New
  else if String.eqb s "SEL" then Some Remove
  else None.

(** Modelled from the spec: an optional field is null when the wire field
    is empty, and null is written as the empty string. *)
Definition optional {A} (p : string -> option A) (s : string)
  : option (option A) :=
  match s with
  | EmptyString => Some None
  | _ => option_map Some (p s)
  end.

Definition show_optional {A} (f : A -> string) (o : option A) : string :=
  match o with
  | None => EmptyString
  | Some x => f x
  end.

(** Modelled from the spec: booleans are encoded as 0/1. *)
Definition bool_of_field (s : string) : option bool :=
  if String.eqb s "1" then Some true
  else if String.eqb s "0" then Some false
  else None.

Definition field_of_bool (b : bool) : string := if b then "1" else "0".

(** Modelled from the spec: a string field is taken as it is. *)
Definition string_of_field (s : string) : option string := Some s.

(** Modelled from the spec: a date is written [YYYY/MM/DD], as in the
    example lines, and converts to a calendar date. *)
Definition leap (y : N) : bool :=
  ((y mod 4 =? 0) && (negb (y mod 100 =? 0) || (y mod 400 =? 0)))%N.

Definition days_in_month (y m : N) : N :=
  if existsb (N.eqb m) [1; 3; 5; 7; 8; 10; 12]%N then 31
  else if existsb (N.eqb m) [4; 6; 9; 11]%N then 30
  else if (m =? 2)%N then (if leap y then 29 else 28)
  else 0.

Definition valid_date (d : date) : bool :=
  ((1 <=? year d) && (year d <=? 9999)
   && (1 <=? month d) && (month d <=? 12)
   && (1 <=? day d) && (day d <=? days_in_month (year d) (month d)))%N.

Definition date_of_field (s : string) : option date :=
  match split "/" s with
  | [y; m; d] =>
      y' ← N_of_digits y;
      m' ← N_of_digits m;
      d' ← N_of_digits d;
      let v := {| year := y'; month := m'; day := d' |} in
      if valid_date v then Some v else None
  | _ => None
  end.

Definition field_of_date (d : date) : string :=
  join "/" [fixed_digits 4 (year d); fixed_digits 2 (month d);
            fixed_digits 2 (day d)].

(** Modelled from the spec: a time of day is written [HH:MM:SS.fff], as in
    the example lines; the fraction of a second has up to six digits and is
    kept in microseconds. *)
Definition valid_time (t : time) : bool :=
  ((hour t <? 24) && (minute t <? 60) && (second t <? 60)
   && (microsecond t <? 1000000))%N.

Definition microsecond_of_fraction (f : string) : option N :=
  if (String.length f <=? 6)%nat then
    v ← N_of_digits f;
    Some (v * 10 ^ N.of_nat (6 - String.length f))%N
  else None.

Definition time_of_field (s : string) : option time :=
  match split ":" s with
  | [h; m; sf] =>
      match split "." sf with
      | [sec; f] =>
          h' ← N_of_digits h;
          m' ← N_of_digits m;
          s' ← N_of_digits sec;
          u' ← microsecond_of_fraction f;
          let v := {| hour := h'; minute := m'; second := s';
                      microsecond := u' |} in
          if valid_time v then Some v else None
      | _ => None
      end
  | _ => None
  end.

Definition field_of_time (t : time) : string :=
  join ":" [fixed_digits 2 (hour t); fixed_digits 2 (minute t);
            join "." [fixed_digits 2 (second t);
                      fixed_digits 6 (microsecond t)]].

(** Modelled from the spec: the transmission type is an integer, required
    of a transmission message. *)
Definition transmission_type_of_field (t : MessageType) (s : string)
  : option (option Z) :=
  match t with
  | Transmission => option_map Some (int_of_field s)
  | _ => optional int_of_field s
  end.


(** ** Surrounding white space *)

(** Modelled from the spec: the white space that the normalization of a
    field takes away, the ASCII characters that [str.strip] removes. *)
Definition is_space (c : ascii) : bool :=
  let n := N_of_ascii c in
  (((9 <=? n) && (n <=? 13)) || ((28 <=? n) && (n <=? 32)))%N.

Fixpoint ltrim (s : string) : string :=
  match s with
  | EmptyString => EmptyString
  | String a s' => if is_space a then ltrim s' else s
  end.

Fixpoint rtrim (s : string) : string :=
  match s with
  | EmptyString => EmptyString
  | String a s' =>
      match rtrim s' with
      | EmptyString =>
          if is_space a then EmptyString else String a EmptyString
      | r => String a r
      end
  end.

(** [s.strip()] *)
Definition trim (s : string) : string := ltrim (rtrim s).

(** The characters that separate fields or surround them. *)
Definition separator (c : ascii) : bool := Ascii.eqb c "," || is_space c.

(** A text that holds no separator. *)
Definition clean (s : string) : Prop :=
  forall c, separator c = true -> absent c s.

(** ** Numbers in decimal text *)

(** Modelled from the spec: a numeric payload field holds exact decimal
    text.  Its value is kept as the decimal number that the text denotes,
    in normal form: a sign, the whole part, and the digits after the point
    up to the last one that is not zero; zero has no sign.  Floating
    point is not modelled, and neither are exponents. *)
Record decimal := {
  negative : bool;
  whole : N;
  fraction : string
}.

Fixpoint digits_only (s : string) : bool :=
  match s with
  | EmptyString => true
  | String c s' =>
      match digit_of_ascii c with
      | Some _ => digits_only s'
      | None => false
      end
  end.

(** The digits without the zeros at the end. *)
Fixpoint drop_zeros (s : string) : string :=
  match s with
  | EmptyString => EmptyString
  | String a s' =>
      match drop_zeros s' with
      | EmptyString =>
          if Ascii.eqb a "0" then EmptyString else String a EmptyString
      | r => String a r
      end
  end.

(** A run of digits as a natural number. *)
Definition unsigned (w : string) : option N :=
  if digits_only w then option_map Z.to_N (int_of_field w) else None.

Definition is_empty (s : string) : bool :=
  match s with EmptyString => true | _ => false end.

Definition normal (neg : bool) (n : N) (f : string) : decimal :=
  {| negative := neg && negb ((n =? 0)%N && is_empty f);
     whole := n;
     fraction := f |}.

(** The sign in front, if any, and what follows it. *)
Definition signed (s : string) : bool * string :=
  match s with
  | String c r =>
      if Ascii.eqb c "-" then (true, r)
      else if Ascii.eqb c "+" then (false, r)
      else (false, s)
  | EmptyString => (false, s)
  end.

(** The number that a field denotes: an optional sign, digits, and
    optionally a point and digits, with a digit on one side of the point
    at least. *)
Definition decimal_of_string (s : string) : option decimal :=
  let '(neg, body) := signed s in
  match split "." body with
  | [w] => option_map (fun n => normal neg n EmptyString) (unsigned w)
  | [w; f] =>
      if digits_only f && negb (is_empty w && is_empty f) then
        option_map (fun n => normal neg n (drop_zeros f))
          (if is_empty w then Some 0%N else unsigned w)
      else None
  | _ => None
  end.

(** The decimal text of a number. *)
Definition string_of_decimal (d : decimal) : string :=
  String.append (if negative d then "-" else EmptyString)
    (String.append (field_of_int (Z.of_N (whole d)))
       (if is_empty (fraction d) then EmptyString
        else String "." (fraction d))).

(** ** The layout of a line *)

(** Modelled from the spec: the columns that a layout can list after the
    type code, one for each field of the record. *)
Inductive Column : Type :=
| transmission_type_column
| session_id_column
| aircraft_id_column
| hex_ident_column
| flight_id_column
| generated_date_column
| generated_time_column
| logged_date_column
| logged_time_column
| callsign_column
| altitude_column
| ground_speed_column
| track_column
| lat_column
| lon_column
| vertical_rate_column
| squawk_column
| alert_column
| emergency_column
| spi_column
| is_on_ground_column.

Global Instance Column_eq_dec : EqDecision Column.
Proof. solve_decision. Defined.

(** The value of a column. *)
Inductive Value : Type :=
| VInt (z : Z)
| VOptInt (o : option Z)
| VString (s : string)
| VDate (d : date)
| VTime (t : time)
| VOptString (o : option string)
| VNumber (o : option decimal)
| VFlag (o : option bool).

(** Modelled from the spec: the layout of each message type, a static
    table that gives the columns after the type code, in order.  The
    specification does not list the rows, so the table is a parameter. *)
Variable layout : MessageType -> list Column.

(** Modelled from the spec: the coercion rule of each column.  Fields are
    taken with their surrounding white space removed, which makes the
    callsign space-trimmed. *)
Definition convert (t : MessageType) (c : Column) (f : string)
  : option Value :=
  match c with
  | transmission_type_column =>
      option_map VOptInt (transmission_type_of_field t f)
  | session_id_column | aircraft_id_column | flight_id_column =>
      option_map VInt (int_of_field f)
  | hex_ident_column => option_map VString (string_of_field f)
  | generated_date_column | logged_date_column =>
      option_map VDate (date_of_field f)
  | generated_time_column | logged_time_column =>
      option_map VTime (time_of_field f)
  | callsign_column | squawk_column =>
      option_map VOptString (optional string_of_field f)
  | altitude_column | ground_speed_column | track_column | lat_column
  | lon_column | vertical_rate_column =>
      option_map VNumber (optional decimal_of_string f)
  | alert_column | emergency_column | spi_column | is_on_ground_column =>
      option_map VFlag (optional bool_of_field f)
  end.

(** The text of a value: null is the empty string, booleans are 1/0. *)
Definition show (v : Value) : string :=
  match v with
  | VInt z => field_of_int z
  | VOptInt o => show_optional field_of_int o
  | VString s => s
  | VDate d => field_of_date d
  | VTime t => field_of_time t
  | VOptString o => show_optional id o
  | VNumber o => show_optional string_of_decimal o
  | VFlag o => show_optional field_of_bool o
  end.

(** The field of the record that a column stands for. *)
Definition get (c : Column) (m : SBSMessage decimal) : Value :=
  match c with
  | transmission_type_column => VOptInt (transmission_type m)
  | session_id_column => VInt (session_id m)
  | aircraft_id_column => VInt (aircraft_id m)
  | hex_ident_column => VString (hex_ident m)
  | flight_id_column => VInt (flight_id m)
  | generated_date_column => VDate (generated_date m)
  | generated_time_column => VTime (generated_time m)
  | logged_date_column => VDate (logged_date m)
  | logged_time_column => VTime (logged_time m)
  | callsign_column => VOptString (callsign m)
  | altitude_column => VNumber (altitude m)
  | ground_speed_column => VNumber (ground_speed m)
  | track_column => VNumber (track m)
  | lat_column => VNumber (lat m)
  | lon_column => VNumber (lon m)
  | vertical_rate_column => VNumber (vertical_rate m)
  | squawk_column => VOptString (squawk m)
  | alert_column => VFlag (alert m)
  | emergency_column => VFlag (emergency m)
  | spi_column => VFlag (spi m)
  | is_on_ground_column => VFlag (is_on_ground m)
  end.

(** The record with the field of a column replaced; a value of another
    column's type changes nothing. *)
Definition put (c : Column) (v : Value) (m : SBSMessage decimal)
  : SBSMessage decimal :=
  let 'Build_SBSMessage a0 a1 a2 a3 a4 a5 a6 a7 a8 a9 a10 a11 a12 a13 a14 a15
        a16 a17 a18 a19 a20 a21 := m in
  match c, v with
  | transmission_type_column, VOptInt x =>
      Build_SBSMessage a0 x a2 a3 a4 a5 a6 a7 a8 a9 a10 a11 a12 a13 a14 a15
        a16 a17 a18 a19 a20 a21
  | session_id_column, VInt x =>
      Build_SBSMessage a0 a1 x a3 a4 a5 a6 a7 a8 a9 a10 a11 a12 a13 a14 a15
        a16 a17 a18 a19 a20 a21
  | aircraft_id_column, VInt x =>
      Build_SBSMessage a0 a1 a2 x a4 a5 a6 a7 a8 a9 a10 a11 a12 a13 a14 a15
        a16 a17 a18 a19 a20 a21
  | hex_ident_column, VString x =>
      Build_SBSMessage a0 a1 a2 a3 x a5 a6 a7 a8 a9 a10 a11 a12 a13 a14 a15
        a16 a17 a18 a19 a20 a21
  | flight_id_column, VInt x =>
      Build_SBSMessage a0 a1 a2 a3 a4 x a6 a7 a8 a9 a10 a11 a12 a13 a14 a15
        a16 a17 a18 a19 a20 a21
  | generated_date_column, VDate x =>
      Build_SBSMessage a0 a1 a2 a3 a4 a5 x a7 a8 a9 a10 a11 a12 a13 a14 a15
        a16 a17 a18 a19 a20 a21
  | generated_time_column, VTime x =>
      Build_SBSMessage a0 a1 a2 a3 a4 a5 a6 x a8 a9 a10 a11 a12 a13 a14 a15
        a16 a17 a18 a19 a20 a21
  | logged_date_column, VDate x =>
      Build_SBSMessage a0 a1 a2 a3 a4 a5 a6 a7 x a9 a10 a11 a12 a13 a14 a15
        a16 a17 a18 a19 a20 a21
  | logged_time_column, VTime x =>
      Build_SBSMessage a0 a1 a2 a3 a4 a5 a6 a7 a8 x a10 a11 a12 a13 a14 a15
        a16 a17 a18 a19 a20 a21
  | callsign_column, VOptString x =>
      Build_SBSMessage a0 a1 a2 a3 a4 a5 a6 a7 a8 a9 x a11 a12 a13 a14 a15
        a16 a17 a18 a19 a20 a21
  | altitude_column, VNumber x =>
      Build_SBSMessage a0 a1 a2 a3 a4 a5 a6 a7 a8 a9 a10 x a12 a13 a14 a15
        a16 a17 a18 a19 a20 a21
  | ground_speed_column, VNumber x =>
      Build_SBSMessage a0 a1 a2 a3 a4 a5 a6 a7 a8 a9 a10 a11 x a13 a14 a15
        a16 a17 a18 a19 a20 a21
  | track_column, VNumber x =>
      Build_SBSMessage a0 a1 a2 a3 a4 a5 a6 a7 a8 a9 a10 a11 a12 x a14 a15 a16
        a17 a18 a19 a20 a21
  | lat_column, VNumber x =>
      Build_SBSMessage a0 a1 a2 a3 a4 a5 a6 a7 a8 a9 a10 a11 a12 a13 x a15 a16
        a17 a18 a19 a20 a21
  | lon_column, VNumber x =>
      Build_SBSMessage a0 a1 a2 a3 a4 a5 a6 a7 a8 a9 a10 a11 a12 a13 a14 x a16
        a17 a18 a19 a20 a21
  | vertical_rate_column, VNumber x =>
      Build_SBSMessage a0 a1 a2 a3 a4 a5 a6 a7 a8 a9 a10 a11 a12 a13 a14 a15 x
        a17 a18 a19 a20 a21
  | squawk_column, VOptString x =>
      Build_SBSMessage a0 a1 a2 a3 a4 a5 a6 a7 a8 a9 a10 a11 a12 a13 a14 a15 a16
        x a18 a19 a20 a21
  | alert_column, VFlag x =>
      Build_SBSMessage a0 a1 a2 a3 a4 a5 a6 a7 a8 a9 a10 a11 a12 a13 a14 a15
        a16 a17 x a19 a20 a21
  | emergency_column, VFlag x =>
      Build_SBSMessage a0 a1 a2 a3 a4 a5 a6 a7 a8 a9 a10 a11 a12 a13 a14 a15
        a16 a17 a18 x a20 a21
  | spi_column, VFlag x =>
      Build_SBSMessage a0 a1 a2 a3 a4 a5 a6 a7 a8 a9 a10 a11 a12 a13 a14 a15
        a16 a17 a18 a19 x a21
  | is_on_ground_column, VFlag x =>
      Build_SBSMessage a0 a1 a2 a3 a4 a5 a6 a7 a8 a9 a10 a11 a12 a13 a14 a15
        a16 a17 a18 a19 a20 x
  | _, _ => m
  end.

(** The record of a line of type [t] before any column is read: a field
    that the layout of the type does not list stays as it is here, null
    if it is optional. *)
Definition blank (t : MessageType) : SBSMessage decimal :=
  {| message_type := t;
     transmission_type := None;
     session_id := 0; aircraft_id := 0;
     hex_ident := EmptyString;
     flight_id := 0;
     generated_date := {| year := 1; month := 1; day := 1 |};
     generated_time :=
       {| hour := 0; minute := 0; second := 0; microsecond := 0 |};
     logged_date := {| year := 1; month := 1; day := 1 |};
     logged_time :=
       {| hour := 0; minute := 0; second := 0; microsecond := 0 |};
     callsign := None;
     altitude := None; ground_speed := None; track := None;
     lat := None; lon := None; vertical_rate := None;
     squawk := None;
     alert := None; emergency := None; spi := None; is_on_ground := None |}.

(** The fields of a line taken column by column; it fails when there are
    more or fewer fields than columns, and when a field does not
    convert. *)
Fixpoint parse_columns (t : MessageType) (cols : list Column)
    (fields : list string) (m : SBSMessage decimal)
  : option (SBSMessage decimal) :=
  match cols, fields with
  | [], [] => Some m
  | c :: cols', f :: fields' =>
      match convert t c f with
      | Some v => parse_columns t cols' fields' (put c v m)
      | None => None
      end
  | _, _ => None
  end.

(** Modelled from the spec: [message.fromString], the parser of
    [adsb/sbs/message.py], a file that is not part of the sources at hand.
    A line is split on commas and each field is trimmed; the first is the
    type code, which selects the layout, and the others are converted by
    the rules of its columns.  It fails ([None], the specification's
    [MalformedMessage]) on an unknown type code, on a field count that is
    wrong for the type and on a field that does not convert.  The tests
    hand it lines that still end in [CR LF], which the trimming of the
    last field removes. *)
Definition fromString (line : string) : option (SBSMessage decimal) :=
  match map trim (split "," line) with
  | code :: fields =>
      match message_type_of_code code with
      | Some t => parse_columns t (layout t) fields (blank t)
      | None => None
      end
  | [] => None
  end.

(** Modelled from the spec: [message.toString], the serializer of
    [adsb/sbs/message.py]: the type code and the columns of the type's
    layout, joined by commas. *)
Definition toString (m : SBSMessage decimal) : string :=
  join ","
    (code_of_message_type (message_type m)
     :: map (fun c => show (get c m)) (layout (message_type m))).

(** ** Texts without separators *)

Lemma absent_append c s t :
  absent c s -> absent c t -> absent c (String.append s t).
Proof.
  induction s as [|a s IH]; [auto|]. intros [Hne Hs] Ht.
  rewrite append_cons. split; auto.
Qed.

Lemma absent_join c sep l :
  c <> sep -> Forall (absent c) l -> absent c (join sep l).
Proof.
  intros Hne. unfold join. induction l as [|w l IH]; intros Hl; [exact I|].
  inversion Hl as [|? ? Hw Hl']; subst. destruct l as [|w' l]; [exact Hw|].
  change (String.concat (String sep "") (w :: w' :: l))
    with (String.append w
            (String sep (String.concat (String sep "") (w' :: l)))).
  apply absent_append; [exact Hw|]. split; [congruence|auto].
Qed.

(** Splitting a goal on a list literal into one goal per element. *)
Ltac each_element tac :=
  repeat (apply List.Forall_cons; [tac|]); apply List.Forall_nil.

Lemma fixed_digits_absent c w n :
  digit_of_ascii c = None -> absent c (fixed_digits w n).
Proof.
  intros Hc. eapply digits_value_absent; [exact Hc|].
  apply (digits_value_fixed w n 0).
Qed.

(** A separator is none of the characters that the rules write. *)
Lemma separator_other c :
  separator c = true ->
  digit_of_ascii c = None
  /\ (forall d0, uint_of_char c (Some d0) = None)
  /\ c <> "-"%char /\ c <> "+"%char /\ c <> "."%char
  /\ c <> "/"%char /\ c <> ":"%char.
Proof.
  destruct c as [[] [] [] [] [] [] [] []]; intros H; try discriminate H;
    (split; [reflexivity|]); (split; [intros d0; reflexivity|]);
    repeat split; discriminate.
Qed.

Lemma clean_absent_comma s : clean s -> absent "," s.
Proof. intros H. apply H. reflexivity. Qed.

Lemma clean_fixed_digits w n : clean (fixed_digits w n).
Proof.
  intros c Hc. apply fixed_digits_absent.
  apply (separator_other c Hc).
Qed.

Lemma clean_field_of_int z : clean (field_of_int z).
Proof.
  intros c Hc. destruct (separator_other c Hc) as (_ & Hu & Hm & _).
  apply (int_of_field_absent c _ z Hm Hu), int_of_field_of_int.
Qed.

Lemma clean_code_of_message_type t : clean (code_of_message_type t).
Proof.
  intros c Hc. destruct t; simpl; repeat split; intros <-; discriminate Hc.
Qed.

Lemma clean_show_optional {A} (f : A -> string) (o : option A) :
  (forall x, clean (f x)) -> clean (show_optional f o).
Proof. intros H c Hc. destruct o as [x|]; simpl; [apply H, Hc|exact I]. Qed.

Lemma clean_field_of_bool b : clean (field_of_bool b).
Proof.
  intros c Hc. destruct b; simpl; repeat split; intros <-; discriminate Hc.
Qed.

Lemma clean_join sep l :
  separator sep = false -> Forall clean l -> clean (join sep l).
Proof.
  intros Hs Hl c Hc. apply absent_join; [congruence|].
  induction Hl as [|w l Hw _ IH]; constructor; [apply Hw, Hc|exact IH].
Qed.

Lemma clean_field_of_date d : clean (field_of_date d).
Proof.
  apply clean_join; [reflexivity|].
  each_element ltac:(apply clean_fixed_digits).
Qed.

Lemma clean_field_of_time t : clean (field_of_time t).
Proof.
  apply clean_join; [reflexivity|].
  apply List.Forall_cons; [apply clean_fixed_digits|].
  apply List.Forall_cons; [apply clean_fixed_digits|].
  apply List.Forall_cons; [|apply List.Forall_nil].
  apply clean_join; [reflexivity|].
  each_element ltac:(apply clean_fixed_digits).
Qed.

(** ** Trimming *)

Lemma ltrim_idempotent s : ltrim (ltrim s) = ltrim s.
Proof.
  induction s as [|a s IH]; [reflexivity|]. simpl.
  destruct (is_space a) eqn:E; [exact IH|]. simpl. rewrite E.
  reflexivity.
Qed.

Lemma rtrim_idempotent s : rtrim (rtrim s) = rtrim s.
Proof.
  induction s as [|a s IH]; [reflexivity|]. simpl.
  destruct (rtrim s) as [|b r] eqn:R.
  - destruct (is_space a) eqn:E; [reflexivity|]. simpl. rewrite E.
    reflexivity.
  - cbn [rtrim]. cbn [rtrim] in IH. rewrite IH. reflexivity.
Qed.

Lemma rtrim_ltrim s : rtrim s = s -> rtrim (ltrim s) = ltrim s.
Proof.
  induction s as [|a s IH]; [reflexivity|]. intros H.
  cbn [ltrim]. destruct (is_space a) eqn:E; [|exact H].
  apply IH. cbn [rtrim] in H. rewrite E in H.
  destruct (rtrim s) as [|b r]; [discriminate|]. congruence.
Qed.

Lemma trim_idempotent s : trim (trim s) = trim s.
Proof.
  unfold trim.
  rewrite (rtrim_ltrim (rtrim s) (rtrim_idempotent s)).
  apply ltrim_idempotent.
Qed.

Lemma ltrim_absent c s : absent c s -> absent c (ltrim s).
Proof.
  induction s as [|a s IH]; [trivial|]. intros [Hne Hs]. simpl.
  destruct (is_space a); [auto|split; assumption].
Qed.

Lemma rtrim_absent c s : absent c s -> absent c (rtrim s).
Proof.
  induction s as [|a s IH]; [trivial|]. intros [Hne Hs]. simpl.
  specialize (IH Hs). destruct (rtrim s) as [|b r].
  - destruct (is_space a); simpl; auto.
  - split; assumption.
Qed.

Lemma trim_absent c s : absent c s -> absent c (trim s).
Proof. intros H. apply ltrim_absent, rtrim_absent, H. Qed.

(** A text without white space is its own trimming. *)
Lemma rtrim_clean s :
  (forall c, is_space c = true -> absent c s) -> rtrim s = s.
Proof.
  induction s as [|a s IH]; [reflexivity|]. intros H. cbn [rtrim].
  rewrite IH by (intros c Hc; apply (H c Hc)).
  destruct s as [|b s]; [|reflexivity].
  destruct (is_space a) eqn:E; [|reflexivity].
  destruct (H a E) as [Hne _]. congruence.
Qed.

Lemma trim_clean s : clean s -> trim s = s.
Proof.
  intros H.
  assert (Hs : forall c, is_space c = true -> absent c s).
  { intros c Hc. apply H. unfold separator. rewrite Hc. apply orb_true_r. }
  unfold trim. rewrite (rtrim_clean s Hs).
  destruct s as [|a s]; [reflexivity|]. simpl.
  destruct (is_space a) eqn:E; [|reflexivity].
  destruct (Hs a E) as [Hne _]. congruence.
Qed.

(** ** Each conversion rule reads back what it writes *)

Lemma message_type_reparse t :
  message_type_of_code (code_of_message_type t) = Some t.
Proof. destruct t; reflexivity. Qed.

Lemma optional_inv {A} (p : string -> option A) s v :
  optional p s = Some v ->
  (s = EmptyString /\ v = None)
  \/ (exists x, v = Some x /\ p s = Some x /\ s <> EmptyString).
Proof.
  destruct s as [|a s]; simpl.
  - intros [= <-]. left; auto.
  - destruct (p (String a s)) as [x|]; [|discriminate].
    intros [= <-]. right. exists x. repeat split. discriminate.
Qed.

Lemma optional_some {A} (p : string -> option A) s x :
  p s = Some x -> s <> EmptyString -> optional p s = Some (Some x).
Proof.
  intros Hp Hne. destruct s; [congruence|]. simpl. rewrite Hp. reflexivity.
Qed.

(** A rule that rejects the empty string and reads back what is written
    does so as an optional field too. *)
Lemma optional_reparse {A} (p : string -> option A) (f : A -> string) v :
  p EmptyString = None ->
  (forall x, v = Some x -> p (f x) = Some x) ->
  optional p (show_optional f v) = Some v.
Proof.
  intros Hnil Hre. destruct v as [x|]; [|reflexivity]. simpl.
  apply optional_some; [auto|]. intros E.
  specialize (Hre x eq_refl). rewrite E, Hnil in Hre. discriminate.
Qed.

Lemma transmission_type_reparse t s v :
  transmission_type_of_field t s = Some v ->
  transmission_type_of_field t (show_optional field_of_int v) = Some v.
Proof.
  assert (Hopt : optional int_of_field (show_optional field_of_int v)
                 = Some v).
  { apply optional_reparse; [reflexivity|].
    intros x _. apply int_of_field_of_int. }
  destruct t; simpl; intros H; try exact Hopt.
  destruct (int_of_field s) as [z|]; [|discriminate].
  inversion H; subst. simpl. rewrite int_of_field_of_int. reflexivity.
Qed.

Lemma bool_field_reparse v :
  optional bool_of_field (show_optional field_of_bool v) = Some v.
Proof. destruct v as [[|]|]; reflexivity. Qed.

Lemma string_field_reparse s v :
  optional string_of_field s = Some v ->
  optional string_of_field (show_optional id v) = Some v.
Proof.
  intros H. apply optional_inv in H as [[_ ->]|(x & -> & Hx & Hne)];
    [reflexivity|].
  inversion Hx; subst. simpl. apply optional_some; [reflexivity|exact Hne].
Qed.

Lemma string_field_same s v :
  optional string_of_field s = Some v -> show_optional id v = s.
Proof.
  intros H. apply optional_inv in H as [[-> ->]|(x & -> & Hx & Hne)];
    [reflexivity|].
  inversion Hx; subst. reflexivity.
Qed.

Lemma days_in_month_le y m : (days_in_month y m <= 31)%N.
Proof.
  unfold days_in_month.
  destruct (existsb _ _); [lia|]. destruct (existsb _ _); [lia|].
  destruct (m =? 2)%N; [|lia]. destruct (leap y); lia.
Qed.

Lemma date_reparse_valid d :
  valid_date d = true -> date_of_field (field_of_date d) = Some d.
Proof.
  intros Hv. unfold date_of_field, field_of_date.
  rewrite split_join;
    [|discriminate|each_element ltac:(apply fixed_digits_absent; reflexivity)].
  unfold valid_date in Hv. pose proof (days_in_month_le (year d) (month d)).
  repeat (apply andb_prop in Hv as [Hv ?]).
  repeat match goal with
         | H : (_ <=? _)%N = true |- _ => apply N.leb_le in H
         end.
  rewrite !N_of_digits_fixed by (simpl; lia). cbn [mbind option_bind].
  destruct d as [y m dd]. cbn [year month day] in *.
  unfold valid_date. cbn [year month day].
  repeat match goal with
         | H : (_ <= _)%N |- _ => apply N.leb_le in H; rewrite H; clear H
         end.
  reflexivity.
Qed.

Lemma date_of_field_valid s d : date_of_field s = Some d -> valid_date d = true.
Proof.
  unfold date_of_field.
  destruct (split "/" s) as [|y [|m [|dd [|? ?]]]]; try discriminate.
  destruct (N_of_digits y); [|discriminate].
  destruct (N_of_digits m); [|discriminate].
  destruct (N_of_digits dd); [|discriminate].
  cbn [mbind option_bind].
  destruct (valid_date _) eqn:E; [|discriminate]. intros [= <-]. exact E.
Qed.

Lemma date_reparse s d :
  date_of_field s = Some d -> date_of_field (field_of_date d) = Some d.
Proof. intros H. apply date_reparse_valid. eapply date_of_field_valid, H. Qed.

Lemma time_reparse_valid t :
  valid_time t = true -> time_of_field (field_of_time t) = Some t.
Proof.
  intros Hv. unfold time_of_field, field_of_time.
  rewrite split_join; [|discriminate|].
  2:{ apply List.Forall_cons; [apply fixed_digits_absent; reflexivity|].
      apply List.Forall_cons; [apply fixed_digits_absent; reflexivity|].
      apply List.Forall_cons; [|apply List.Forall_nil].
      apply absent_join; [discriminate|].
      each_element ltac:(apply fixed_digits_absent; reflexivity). }
  rewrite split_join;
    [|discriminate|each_element ltac:(apply fixed_digits_absent; reflexivity)].
  unfold valid_time in Hv.
  repeat (apply andb_prop in Hv as [Hv ?]).
  repeat match goal with
         | H : (_ <? _)%N = true |- _ => apply N.ltb_lt in H
         end.
  unfold microsecond_of_fraction. rewrite fixed_digits_length.
  rewrite !N_of_digits_fixed by (simpl; lia). cbn.
  destruct t as [h m s u]. cbn [hour minute second microsecond] in *.
  unfold valid_time. cbn [hour minute second microsecond].
  rewrite N.mul_1_r.
  repeat match goal with
         | H : (_ < _)%N |- _ => apply N.ltb_lt in H; rewrite H; clear H
         end.
  reflexivity.
Qed.

Lemma time_of_field_valid s t : time_of_field s = Some t -> valid_time t = true.
Proof.
  unfold time_of_field.
  destruct (split ":" s) as [|h [|m [|sf [|? ?]]]]; try discriminate.
  destruct (split "." sf) as [|sec [|f [|? ?]]]; try discriminate.
  destruct (N_of_digits h); [|discriminate].
  destruct (N_of_digits m); [|discriminate].
  destruct (N_of_digits sec); [|discriminate].
  destruct (microsecond_of_fraction f); [|discriminate].
  cbn [mbind option_bind].
  destruct (valid_time _) eqn:E; [|discriminate]. intros [= <-]. exact E.
Qed.

Lemma time_reparse s t :
  time_of_field s = Some t -> time_of_field (field_of_time t) = Some t.
Proof. intros H. apply time_reparse_valid. eapply time_of_field_valid, H. Qed.

(** ** Decimal text reads back *)

Lemma digits_only_absent c s :
  digit_of_ascii c = None -> digits_only s = true -> absent c s.
Proof.
  intros Hc. induction s as [|a s IH]; [intros _; exact I|]. simpl.
  destruct (digit_of_ascii a) eqn:E; [|discriminate].
  intros H. split; [congruence|auto].
Qed.

Lemma digits_only_drop_zeros s :
  digits_only s = true -> digits_only (drop_zeros s) = true.
Proof.
  induction s as [|a s IH]; [trivial|]. simpl.
  destruct (digit_of_ascii a) eqn:E; [|discriminate].
  intros H. specialize (IH H). destruct (drop_zeros s) as [|b r].
  - destruct (Ascii.eqb a "0"); [reflexivity|]. simpl. rewrite E.
    reflexivity.
  - cbn [digits_only]. rewrite E. exact IH.
Qed.

Lemma drop_zeros_idempotent s : drop_zeros (drop_zeros s) = drop_zeros s.
Proof.
  induction s as [|a s IH]; [reflexivity|]. simpl.
  destruct (drop_zeros s) as [|b r] eqn:R.
  - destruct (Ascii.eqb a "0") eqn:E; [reflexivity|]. simpl. rewrite E.
    reflexivity.
  - cbn [drop_zeros]. cbn [drop_zeros] in IH. rewrite IH. reflexivity.
Qed.

Lemma digits_only_uint d :
  digits_only (NilEmpty.string_of_uint d) = true.
Proof. induction d; simpl; auto. Qed.

Lemma digits_only_field_of_N n :
  digits_only (field_of_int (Z.of_N n)) = true.
Proof.
  unfold field_of_int. destruct n as [|p]; [reflexivity|].
  simpl. unfold NilZero.string_of_uint.
  destruct (Pos.to_uint p); try reflexivity; apply digits_only_uint.
Qed.

Lemma unsigned_field_of_N n : unsigned (field_of_int (Z.of_N n)) = Some n.
Proof.
  unfold unsigned. rewrite digits_only_field_of_N, int_of_field_of_int.
  simpl. rewrite N2Z.id. reflexivity.
Qed.

Lemma field_of_int_nonempty z : field_of_int z <> EmptyString.
Proof.
  intros E. pose proof (int_of_field_of_int z) as H. rewrite E in H.
  discriminate H.
Qed.

(** Digits in front are no sign. *)
Lemma signed_digits w rest :
  digits_only w = true -> w <> EmptyString ->
  signed (String.append w rest) = (false, String.append w rest).
Proof.
  destruct w as [|c w]; [congruence|]. intros H _. simpl in H.
  rewrite append_cons. unfold signed.
  destruct (Ascii.eqb_spec c "-") as [->|_]; [discriminate H|].
  destruct (Ascii.eqb_spec c "+") as [->|_]; [discriminate H|].
  reflexivity.
Qed.

(** The numbers in normal form. *)
Definition canonical (x : decimal) : Prop :=
  digits_only (fraction x) = true
  /\ drop_zeros (fraction x) = fraction x
  /\ (negative x = true ->
      ((whole x =? 0)%N && is_empty (fraction x)) = false).

Lemma normal_canonical neg n f :
  digits_only f = true -> drop_zeros f = f -> canonical (normal neg n f).
Proof.
  intros Hd Hz. unfold canonical, normal. simpl.
  split; [exact Hd|]. split; [exact Hz|].
  destruct ((n =? 0)%N && is_empty f); [|reflexivity].
  rewrite andb_false_r. discriminate.
Qed.

Lemma decimal_of_string_canonical s x :
  decimal_of_string s = Some x -> canonical x.
Proof.
  unfold decimal_of_string. destruct (signed s) as [neg body].
  destruct (split "." body) as [|w [|f [|? ?]]]; try discriminate.
  - destruct (unsigned w) as [n|]; [|discriminate]. intros [= <-].
    apply normal_canonical; reflexivity.
  - destruct (digits_only f) eqn:Hf; [|discriminate]. simpl.
    destruct (negb _); [|discriminate].
    destruct (if is_empty w then Some 0%N else unsigned w) as [n|];
      [|discriminate].
    intros [= <-]. apply normal_canonical.
    + apply digits_only_drop_zeros, Hf.
    + apply drop_zeros_idempotent.
Qed.

Lemma normal_same x :
  canonical x -> normal (negative x) (whole x) (fraction x) = x.
Proof.
  intros (_ & _ & Hn). destruct x as [neg n f]. unfold normal. simpl in *.
  f_equal. destruct neg; [|reflexivity]. rewrite (Hn eq_refl). reflexivity.
Qed.

(** The text of a number in normal form denotes that number. *)
Lemma append_empty (s : string) : String.append s EmptyString = s.
Proof.
  induction s as [|c s IH]; [reflexivity|].
  rewrite append_cons, IH. reflexivity.
Qed.

Lemma decimal_of_string_of_decimal x :
  canonical x -> decimal_of_string (string_of_decimal x) = Some x.
Proof.
  intros Hc. pose proof (normal_same x Hc) as Hsame.
  destruct Hc as (Hd & Hz & _). destruct x as [neg n f].
  cbn [negative whole fraction] in *.
  pose proof (digits_only_field_of_N n) as Hw.
  pose proof (field_of_int_nonempty (Z.of_N n)) as Hne.
  pose proof (unsigned_field_of_N n) as Hu.
  unfold string_of_decimal. cbn [negative whole fraction].
  remember (field_of_int (Z.of_N n)) as W eqn:HW. clear HW.
  set (tail := if is_empty f then EmptyString else String "." f).
  assert (Hsign : signed (String.append (if neg then "-" else EmptyString)
                            (String.append W tail))
                  = (neg, String.append W tail)).
  { destruct neg; [reflexivity|].
    rewrite append_nil. apply signed_digits; assumption. }
  unfold decimal_of_string. rewrite Hsign.
  assert (HWdot : absent "." W)
    by (apply digits_only_absent; [reflexivity|exact Hw]).
  unfold tail. destruct f as [|a f].
  - cbn [is_empty]. rewrite append_empty.
    rewrite (split_absent_id _ _ HWdot), Hu. simpl. f_equal. exact Hsame.
  - cbn [is_empty].
    rewrite (split_app "." W (String a f) HWdot).
    rewrite split_absent_id
      by (apply digits_only_absent; [reflexivity|exact Hd]).
    rewrite Hd.
    replace (is_empty W) with false by (destruct W; [congruence|reflexivity]).
    cbn [andb negb is_empty]. rewrite Hu. cbn [option_map].
    rewrite Hz. f_equal. exact Hsame.
Qed.

Lemma decimal_reparse s x :
  decimal_of_string s = Some x ->
  decimal_of_string (string_of_decimal x) = Some x.
Proof.
  intros H. apply decimal_of_string_of_decimal.
  exact (decimal_of_string_canonical s x H).
Qed.

(** A text that denotes a number holds digits, a sign and a point, and
    nothing else. *)
Lemma absent_split c d s :
  c <> d -> Forall (absent c) (split d s) -> absent c s.
Proof.
  intros Hne. induction s as [|a s IH]; [intros _; exact I|]. simpl.
  destruct (Ascii.eqb_spec a d) as [->|Had].
  - intros H. apply List.Forall_inv_tail in H.
    split; [congruence|exact (IH H)].
  - destruct (split d s) as [|w ws] eqn:E.
    + intros H. apply List.Forall_inv in H. simpl in H.
      destruct H as [Ha _]. split; [exact Ha|].
      apply IH. apply List.Forall_nil.
    + intros H. pose proof (List.Forall_inv H) as H1.
      apply List.Forall_inv_tail in H. simpl in H1.
      destruct H1 as [Ha Hw]. split; [exact Ha|].
      apply IH. apply List.Forall_cons; assumption.
Qed.

Lemma unsigned_absent c w n :
  digit_of_ascii c = None -> unsigned w = Some n -> absent c w.
Proof.
  intros Hc. unfold unsigned. destruct (digits_only w) eqn:E; [|discriminate].
  intros _. apply digits_only_absent; assumption.
Qed.

Lemma decimal_of_string_absent c s x :
  digit_of_ascii c = None ->
  c <> "-"%char -> c <> "+"%char -> c <> "."%char ->
  decimal_of_string s = Some x -> absent c s.
Proof.
  intros Hc Hm Hp Hd. unfold decimal_of_string.
  assert (Hbody : forall body,
             absent c body -> signed s = (true, body) \/ signed s = (false, body)
             -> absent c s).
  { intros body Hb. unfold signed. destruct s as [|a r].
    - intros [[= <-]|[= <-]]. exact I.
    - destruct (Ascii.eqb_spec a "-") as [->|_].
      { intros [[= <-]|[=]]. split; [congruence|exact Hb]. }
      destruct (Ascii.eqb_spec a "+") as [->|_].
      { intros [[=]|[= <-]]. split; [congruence|exact Hb]. }
      intros [[=]|[= <-]]. exact Hb. }
  destruct (signed s) as [neg body] eqn:Hs.
  intros H. apply (Hbody body); [|destruct neg; auto].
  apply (absent_split c "." body Hd).
  destruct (split "." body) as [|w [|f [|? ?]]]; try discriminate.
  - destruct (unsigned w) as [n|] eqn:E; [|discriminate].
    apply List.Forall_cons; [|apply List.Forall_nil].
    exact (unsigned_absent c w n Hc E).
  - destruct (digits_only f) eqn:Hf; [|discriminate]. simpl in H.
    destruct (negb _); [|discriminate].
    apply List.Forall_cons;
      [|apply List.Forall_cons; [|apply List.Forall_nil]].
    + destruct w as [|a w]; [exact I|]. cbn [is_empty] in H.
      destruct (unsigned (String a w)) as [n|] eqn:E; [|discriminate].
      exact (unsigned_absent c _ n Hc E).
    + apply digits_only_absent; assumption.
Qed.

Lemma clean_string_of_decimal s x :
  decimal_of_string s = Some x -> clean (string_of_decimal x).
Proof.
  intros H c Hc. destruct (separator_other c Hc) as (Hd & _ & Hm & Hp & Ht & _).
  apply (decimal_of_string_absent c _ x Hd Hm Hp Ht).
  exact (decimal_reparse s x H).
Qed.

Lemma number_field_reparse s v :
  optional decimal_of_string s = Some v ->
  optional decimal_of_string (show_optional string_of_decimal v) = Some v.
Proof.
  intros H. apply optional_reparse; [reflexivity|].
  intros x ->. apply optional_inv in H as [[_ [=]]|(y & [= <-] & Hy & _)].
  exact (decimal_reparse s _ Hy).
Qed.

Lemma clean_number_field s v :
  optional decimal_of_string s = Some v ->
  clean (show_optional string_of_decimal v).
Proof.
  intros H. destruct v as [x|]; [|intros c _; exact I]. simpl.
  apply optional_inv in H as [[_ [=]]|(y & [= <-] & Hy & _)].
  exact (clean_string_of_decimal s _ Hy).
Qed.

(** ** Columns *)

Lemma convert_reparse t c f v :
  convert t c f = Some v -> convert t c (show v) = Some v.
Proof.
  destruct c; cbn [convert];
    match goal with
    | |- option_map _ ?p = _ -> _ =>
        let E := fresh "E" in
        destruct p as [x|] eqn:E; [|discriminate]; intros [= <-];
        cbn [show]
    end.
  - rewrite (transmission_type_reparse _ _ _ E). reflexivity.
  - rewrite int_of_field_of_int. reflexivity.
  - rewrite int_of_field_of_int. reflexivity.
  - reflexivity.
  - rewrite int_of_field_of_int. reflexivity.
  - rewrite (date_reparse _ _ E). reflexivity.
  - rewrite (time_reparse _ _ E). reflexivity.
  - rewrite (date_reparse _ _ E). reflexivity.
  - rewrite (time_reparse _ _ E). reflexivity.
  - rewrite (string_field_reparse _ _ E). reflexivity.
  - rewrite (number_field_reparse _ _ E). reflexivity.
  - rewrite (number_field_reparse _ _ E). reflexivity.
  - rewrite (number_field_reparse _ _ E). reflexivity.
  - rewrite (number_field_reparse _ _ E). reflexivity.
  - rewrite (number_field_reparse _ _ E). reflexivity.
  - rewrite (number_field_reparse _ _ E). reflexivity.
  - rewrite (string_field_reparse _ _ E). reflexivity.
  - rewrite bool_field_reparse. reflexivity.
  - rewrite bool_field_reparse. reflexivity.
  - rewrite bool_field_reparse. reflexivity.
  - rewrite bool_field_reparse. reflexivity.
Qed.

(** A field as [fromString] hands it to a rule: it holds no comma and is
    trimmed. *)
Definition field (f : string) : Prop := absent "," f /\ trim f = f.

Lemma clean_field s : clean s -> field s.
Proof. intros H. split; [apply clean_absent_comma, H|apply trim_clean, H]. Qed.

(** What a rule read from a field it writes as a field. *)
Lemma convert_field t c f v :
  convert t c f = Some v -> field f -> field (show v).
Proof.
  intros H Hf.
  destruct c; cbn [convert] in H;
    match type of H with
    | option_map _ ?p = _ =>
        let E := fresh "E" in
        destruct p as [x|] eqn:E; [|discriminate]; injection H as <-;
        cbn [show]
    end;
    first
      [ apply clean_field;
        first [ apply clean_field_of_int
              | apply clean_field_of_date
              | apply clean_field_of_time
              | apply clean_show_optional; intros;
                first [apply clean_field_of_int|apply clean_field_of_bool]
              | eapply clean_number_field; eassumption ]
      | rewrite (string_field_same _ _ E); exact Hf
      | idtac ].
  unfold string_of_field in E. injection E as <-. exact Hf.
Qed.

Lemma get_put t c f v m :
  convert t c f = Some v -> get c (put c v m) = v.
Proof.
  intros H. destruct m.
  destruct c; cbn [convert] in H;
    match type of H with
    | option_map _ ?p = _ =>
        destruct p; [|discriminate]; injection H as <-
    end; reflexivity.
Qed.

Lemma get_put_other c c' v m :
  c <> c' -> get c' (put c v m) = get c' m.
Proof.
  intros Hne. destruct m.
  destruct c, v; try reflexivity; destruct c'; try reflexivity; congruence.
Qed.

Lemma message_type_put c v m : message_type (put c v m) = message_type m.
Proof. destruct m. destruct c, v; reflexivity. Qed.

(** A record is its type and its columns. *)
Lemma message_ext (a b : SBSMessage decimal) :
  message_type a = message_type b ->
  (forall c, get c a = get c b) -> a = b.
Proof.
  intros Ht H. destruct a, b. cbn [message_type] in Ht. subst.
  pose proof (H transmission_type_column) as H1.
  pose proof (H session_id_column) as H2.
  pose proof (H aircraft_id_column) as H3.
  pose proof (H hex_ident_column) as H4.
  pose proof (H flight_id_column) as H5.
  pose proof (H generated_date_column) as H6.
  pose proof (H generated_time_column) as H7.
  pose proof (H logged_date_column) as H8.
  pose proof (H logged_time_column) as H9.
  pose proof (H callsign_column) as H10.
  pose proof (H altitude_column) as H11.
  pose proof (H ground_speed_column) as H12.
  pose proof (H track_column) as H13.
  pose proof (H lat_column) as H14.
  pose proof (H lon_column) as H15.
  pose proof (H vertical_rate_column) as H16.
  pose proof (H squawk_column) as H17.
  pose proof (H alert_column) as H18.
  pose proof (H emergency_column) as H19.
  pose proof (H spi_column) as H20.
  pose proof (H is_on_ground_column) as H21.
  clear H. cbn [get transmission_type session_id aircraft_id hex_ident
    flight_id generated_date generated_time logged_date logged_time callsign
    altitude ground_speed track lat lon vertical_rate squawk alert emergency
    spi is_on_ground] in *.
  injection H1 as ->. injection H2 as ->. injection H3 as ->.
  injection H4 as ->. injection H5 as ->. injection H6 as ->.
  injection H7 as ->. injection H8 as ->. injection H9 as ->.
  injection H10 as ->. injection H11 as ->. injection H12 as ->.
  injection H13 as ->. injection H14 as ->. injection H15 as ->.
  injection H16 as ->. injection H17 as ->. injection H18 as ->.
  injection H19 as ->. injection H20 as ->. injection H21 as ->.
  reflexivity.
Qed.

(** ** Lines *)

(** Reading columns changes neither the type nor the other columns. *)
Lemma parse_columns_frame t cols fields m0 m :
  parse_columns t cols fields m0 = Some m ->
  message_type m = message_type m0
  /\ forall c, ~ In c cols -> get c m = get c m0.
Proof.
  revert fields m0. induction cols as [|c cols IH]; intros [|f fields] m0 H;
    try discriminate H.
  - injection H as <-. split; [reflexivity|]. intros; reflexivity.
  - cbn [parse_columns] in H.
    destruct (convert t c f) as [v|]; [|discriminate].
    destruct (IH _ _ H) as [Ht Hg]. split.
    + rewrite Ht. apply message_type_put.
    + intros c' Hn. rewrite Hg by (intros Hin; apply Hn; right; exact Hin).
      apply get_put_other. intros ->. apply Hn. left. reflexivity.
Qed.

(** Every column that was read holds what its rule made of a field. *)
Lemma parse_columns_origin t cols fields m0 m :
  parse_columns t cols fields m0 = Some m ->
  Forall field fields ->
  forall c, In c cols ->
    exists f, field f /\ convert t c f = Some (get c m).
Proof.
  revert fields m0. induction cols as [|c cols IH]; intros [|f fields] m0 H Hf;
    try discriminate H.
  - intros c [].
  - cbn [parse_columns] in H.
    destruct (convert t c f) as [v|] eqn:E; [|discriminate].
    intros c' Hin.
    destruct (in_dec Column_eq_dec c' cols) as [Hc|Hc].
    + exact (IH _ _ H (List.Forall_inv_tail Hf) c' Hc).
    + destruct Hin as [<-|Hin]; [|contradiction].
      exists f. split; [exact (List.Forall_inv Hf)|].
      destruct (parse_columns_frame _ _ _ _ _ H) as [_ Hg].
      rewrite (Hg c Hc), (get_put t c f v m0 E). exact E.
Qed.

(** Reading the columns of a record from their texts gives its columns
    back. *)
Lemma parse_columns_replay t cols (m m1 : SBSMessage decimal) :
  (forall c, In c cols ->
     convert t c (show (get c m)) = Some (get c m)) ->
  exists m',
    parse_columns t cols (map (fun c => show (get c m)) cols) m1 = Some m'
    /\ message_type m' = message_type m1
    /\ (forall c, In c cols -> get c m' = get c m)
    /\ (forall c, ~ In c cols -> get c m' = get c m1).
Proof.
  revert m1. induction cols as [|c cols IH]; intros m1 H.
  - exists m1. repeat split; try reflexivity. intros c [].
  - cbn [map parse_columns].
    pose proof (H c (or_introl eq_refl)) as Hc. rewrite Hc.
    destruct (IH (put c (get c m) m1)) as (m' & Hp & Ht & Hin & Hout).
    { intros c' Hc'. apply H. right. exact Hc'. }
    exists m'. split; [exact Hp|]. split; [|split].
    + rewrite Ht. apply message_type_put.
    + intros c' Hc'.
      destruct (in_dec Column_eq_dec c' cols) as [Hi|Hi]; [exact (Hin c' Hi)|].
      destruct Hc' as [<-|Hc']; [|contradiction].
      rewrite (Hout c Hi). exact (get_put t c _ _ m1 Hc).
    + intros c' Hc'. rewrite Hout by (intros Hi; apply Hc'; right; exact Hi).
      apply get_put_other. intros ->. apply Hc'. left. reflexivity.
Qed.

Lemma fields_of_line L : Forall field (map trim (split "," L)).
Proof.
  pose proof (split_absent "," L) as Hab.
  induction Hab as [|f fs Hf _ IH]; [apply List.Forall_nil|].
  apply List.Forall_cons; [|exact IH].
  split; [apply trim_absent, Hf|apply trim_idempotent].
Qed.

(** C1: for every line that [fromString] accepts, serializing the message
    parsed from it and parsing the result again yields a message equal to
    the one parsed from the line.  This holds whatever the layout table
    is, and nothing is assumed of the number codec. *)
Theorem fromString_toString_roundtrip (L : string) (m : SBSMessage decimal) :
  fromString L = Some m -> fromString (toString m) = Some m.
Proof.
  unfold fromString at 1. intros H.
  pose proof (fields_of_line L) as Hfields.
  destruct (map trim (split "," L)) as [|code fields]; [discriminate H|].
  destruct (message_type_of_code code) as [t|]; [|discriminate H].
  apply List.Forall_inv_tail in Hfields.
  destruct (parse_columns_frame _ _ _ _ _ H) as [Ht Hout].
  change (message_type (blank t)) with t in Ht.
  pose proof (parse_columns_origin _ _ _ _ _ H Hfields) as Horigin.
  assert (Hshow : Forall field
                    (code_of_message_type t
                     :: map (fun c => show (get c m)) (layout t))).
  { apply List.Forall_cons;
      [apply clean_field, clean_code_of_message_type|].
    apply List.Forall_forall. intros s Hs. apply in_map_iff in Hs.
    destruct Hs as (c & <- & Hc). destruct (Horigin c Hc) as (f & Hf & Hv).
    exact (convert_field t c f _ Hv Hf). }
  unfold fromString, toString. rewrite Ht.
  rewrite split_join; [|discriminate|].
  2:{ eapply List.Forall_impl; [|exact Hshow]. intros s [Hs _]. exact Hs. }
  replace (map trim
             (code_of_message_type t
              :: map (fun c => show (get c m)) (layout t)))
    with (code_of_message_type t
          :: map (fun c => show (get c m)) (layout t)).
  2:{ symmetry. clear -Hshow.
      induction Hshow as [|s l [_ Hs] _ IH]; [reflexivity|].
      cbn [map]. rewrite Hs, IH. reflexivity. }
  rewrite message_type_reparse.
  destruct (parse_columns_replay t (layout t) m (blank t))
    as (m' & Hp & Ht' & Hin & Hout').
  { intros c Hc. destruct (Horigin c Hc) as (f & _ & Hv).
    exact (convert_reparse t c f _ Hv). }
  rewrite Hp. f_equal. apply message_ext.
  - rewrite Ht', Ht. reflexivity.
  - intros c. destruct (in_dec Column_eq_dec c (layout t)) as [Hc|Hc].
    + exact (Hin c Hc).
    + rewrite (Hout' c Hc), (Hout c Hc). reflexivity.
Qed.

End Codec.

(** ** A layout table and the line of the end-to-end scenario *)

(** A table whose row for a transmission is that of the scenario's line,
    type code and 21 columns; the rows of the other types, which the
    specification does not show, are here the columns up to the
    timestamps. *)
Definition transmission_row : list Column :=
  [transmission_type_column; session_id_column; aircraft_id_column;
   hex_ident_column; flight_id_column;
   generated_date_column; generated_time_column;
   logged_date_column; logged_time_column;
   callsign_column; altitude_column; ground_speed_column; track_column;
   lat_column; lon_column; vertical_rate_column; squawk_column;
   alert_column; emergency_column; spi_column; is_on_ground_column].

Definition example_layout (t : MessageType) : list Column :=
  match t with
  | Transmission => transmission_row
  | _ => firstn 9 transmission_row
  end.

Definition example_line : string :=
  "MSG,3,1,1,7C79B7,1,2017/03/25,10:41:45.365,2017/03/25,10:41:45.384,,2850,,,-34.84658,138.67962,,,,,,".

Definition example_message : SBSMessage decimal :=
  {| message_type := Transmission;
     transmission_type := Some 3;
     session_id := 1; aircraft_id := 1;
     hex_ident := "7C79B7";
     flight_id := 1;
     generated_date := {| year := 2017; month := 3; day := 25 |};
     generated_time :=
       {| hour := 10; minute := 41; second := 45; microsecond := 365000 |};
     logged_date := {| year := 2017; month := 3; day := 25 |};
     logged_time :=
       {| hour := 10; minute := 41; second := 45; microsecond := 384000 |};
     callsign := None;
     altitude :=
       Some {| negative := false; whole := 2850; fraction := "" |};
     ground_speed := None; track := None;
     lat := Some {| negative := true; whole := 34; fraction := "84658" |};
     lon := Some {| negative := false; whole := 138; fraction := "67962" |};
     vertical_rate := None; squawk := None;
     alert := None; emergency := None; spi := None; is_on_ground := None |}.

Example fromString_example_line :
  fromString example_layout example_line = Some example_message
  /\ fromString example_layout (String.append example_line Text.CRLF)
     = Some example_message.
Proof. split; vm_compute; reflexivity. Qed.

Example toString_example_message :
  toString example_layout example_message =
  "MSG,3,1,1,7C79B7,1,2017/03/25,10:41:45.365000,2017/03/25,10:41:45.384000,,2850,,,-34.84658,138.67962,,,,,,"%string.
Proof. vm_compute. reflexivity. Qed.

(** Numbers are kept by value: these texts denote the same number. *)
Example decimal_of_string_examples :
  decimal_of_string "2850" = decimal_of_string "+2850.00"
  /\ decimal_of_string "-0.0" = decimal_of_string "0"
  /\ decimal_of_string ".5" = decimal_of_string "0.50"
  /\ decimal_of_string "1e3" = None
  /\ decimal_of_string "" = None
  /\ string_of_decimal {| negative := true; whole := 0; fraction := "5" |}
     = "-0.5"%string.
Proof. repeat split; vm_compute; reflexivity. Qed.

(** Malformed lines: a field too few, an unknown type code, a field that
    does not convert, and a field count that is right for another type
    only. *)
Example fromString_malformed :
  fromString example_layout
    "MSG,3,1,1,7C79B7,1,2017/03/25,10:41:45.365,2017/03/25,10:41:45.384,,2850,,,-34.84658,138.67962,,,,,"
    = None
  /\ fromString example_layout
       "XYZ,3,1,1,7C79B7,1,2017/03/25,10:41:45.365,2017/03/25,10:41:45.384,,2850,,,-34.84658,138.67962,,,,,,"
     = None
  /\ fromString example_layout
       "MSG,3,1,1,7C79B7,1,2017/02/30,10:41:45.365,2017/03/25,10:41:45.384,,2850,,,-34.84658,138.67962,,,,,,"
     = None
  /\ fromString example_layout
       "STA,,1,1,7C79B7,1,2017/03/25,10:41:45.365,2017/03/25,10:41:45.384,,2850,,,-34.84658,138.67962,,,,,,"
     = None
  /\ fromString example_layout
       "STA,,1,1,7C79B7,1,2017/03/25,10:41:45.365,2017/03/25,10:41:45.384"
     <> None.
Proof. repeat split; vm_compute; try reflexivity; discriminate. Qed.

Lemma fromString_toString_roundtrip_witness :
  fromString example_layout (toString example_layout example_message)
  = Some example_message.
Proof.
  apply (fromString_toString_roundtrip example_layout example_line).
  vm_compute. reflexivity.
Defined.

End Message.

(* ===================================================================== *)
(** * The client's dispatch: [adsb/sbs/client.py]                        *)
(* ===================================================================== *)

Module Client.

Import Message.

Section Dispatch.

Context {number : Type}.

(** [bytes.decode()]; [None] stands for [UnicodeDecodeError]. *)
Variable decode : list byte -> option string.

(** [message.fromString], defined in a file that is not at hand; [None]
    stands for any exception it raises. *)
Variable fromString : string -> option (SBSMessage number).

(** The attributes of [Client] that [_on_sbs_message] reads: whether each
    callback is registered and whether recording is on. *)
Record Client := {
  _on_message_received : bool;
  _on_raw_message_received : bool;
  archiving_enabled : bool
}.

(** What one call of [_on_sbs_message] does to the outside, in order. *)
Inductive Event : Type :=
| Archived (msg_str : string)
| RawMessage (msg_data : list byte)
| ParsedMessage (msg : SBSMessage number).

(** [Client._on_sbs_message]: the events of the call, or the exception
    that leaves it.  The handlers themselves are taken to return. *)
Definition _on_sbs_message (c : Client) (msg_data : list byte)
  : result (list Event) :=
  match decode msg_data with
  | None => inl UnicodeDecodeError
  | Some msg_str =>
      let archived :=
        if archiving_enabled c then [Archived msg_str] else [] in
      let raw :=
        if _on_raw_message_received c then [RawMessage msg_data] else [] in
      if _on_message_received c then
        match fromString msg_str with
        | None => inr (archived ++ raw)
        | Some msg =>
            if bool_decide (hex_ident msg = "000000"%string)
            then inr (archived ++ raw)
            else inr (archived ++ raw ++ [ParsedMessage msg])
        end
      else inr (archived ++ raw)
  end.

(** The messages handed to the parsed-message callback. *)
Definition delivered (evs : list Event) : list (SBSMessage number) :=
  flat_map (fun e => match e with ParsedMessage m => [m] | _ => [] end) evs.

End Dispatch.

Arguments Client : clear implicits.
Arguments Event : clear implicits.

End Client.

(* ===================================================================== *)
(** * Sessions: [adsb/sbs/session.py]                                    *)
(* ===================================================================== *)

Module Session.

Import Message.

Section WithParser.

Context {number : Type}.

(** The text of a message line as the session receives it. *)
Context {wire : Type}.

(** [message.fromString], defined in a file that is not at hand; [None]
    stands for any exception it raises. *)
Variable fromString : wire -> option (SBSMessage number).

Record Session := {
  origin : option (Aircraft.Position number);
  aircraft : gmap string (Aircraft.Aircraft number);
  expiry_threshold : Z;
  archiving_enabled : bool;
  logfile : list wire;
  cache_enabled : bool
}.

(** [datetime.timedelta(minutes=n)] in microseconds. *)
Definition timedelta_minutes (n : Z) : Z := n * 60 * 1000000.

Definition set_aircraft (m : gmap string (Aircraft.Aircraft number))
    (s : Session) : Session :=
  {| origin := origin s; aircraft := m;
     expiry_threshold := expiry_threshold s;
     archiving_enabled := archiving_enabled s;
     logfile := logfile s; cache_enabled := cache_enabled s |}.

(** [self.logfile.emit(msg_str)]: the archive is an append-only sink. *)
Definition emit (msg_str : wire) (s : Session) : Session :=
  {| origin := origin s; aircraft := aircraft s;
     expiry_threshold := expiry_threshold s;
     archiving_enabled := archiving_enabled s;
     logfile := logfile s ++ [msg_str]; cache_enabled := cache_enabled s |}.

(** The [if ... elif ...] chain of [on_sbs_message] on the transmission
    type. *)
Definition apply_transmission (now : Z) (msg : SBSMessage number)
    (ac : Aircraft.Aircraft number) : Aircraft.Aircraft number :=
  let tt := transmission_type msg in
  if bool_decide (tt = Some TransmissionType.ES_IDENT_AND_CATEGORY) then
    if bool_decide (Aircraft.callsign ac <> callsign msg)
    then Aircraft.update_ident (callsign msg) now ac
    else ac
  else if bool_decide (tt = Some TransmissionType.ES_SURFACE_POS
                       \/ tt = Some TransmissionType.ES_AIRBORNE_POS) then
    Aircraft.update_position (altitude msg) (lat msg) (lon msg) now ac
  else if bool_decide (tt = Some TransmissionType.ES_AIRBORNE_VEL) then
    Aircraft.update_motion
      (ground_speed msg) (track msg) (vertical_rate msg) now ac
  else if bool_decide (tt = Some TransmissionType.AIR_TO_AIR
                       \/ tt = Some TransmissionType.SURVEILLANCE_ALT) then
    Aircraft.update_altitude (altitude msg) now ac
  else ac.

(** [Session.on_sbs_message], with the clock reading [now] made an
    argument. *)
Definition on_sbs_message (now : Z) (msg_str : wire) (s : Session)
  : result Session :=
  match fromString msg_str with
  | None => inl Exception
  | Some msg =>
      if bool_decide (hex_ident msg = "000000"%string) then inr s
      else if bool_decide (message_type msg = Transmission) then
        let s1 := if archiving_enabled s then emit msg_str s else s in
        let created : result (gmap string (Aircraft.Aircraft number)) :=
          match aircraft s1 !! hex_ident msg with
          | None =>
              match Aircraft.init (hex_ident msg)
                      Aircraft.default_history_size
                      Aircraft.default_history_interval with
              | inl e => inl e
              | inr ac =>
                  inr (<[hex_ident msg := Aircraft.set_origin (origin s1) ac]>
                         (aircraft s1))
              end
          | Some _ => inr (aircraft s1)
          end in
        match created with
        | inl e => inl e
        | inr acs =>
            match acs !! hex_ident msg with
            | None => inl KeyError
            | Some ac =>
                let ac1 :=
                  Aircraft.set_msg_count (Aircraft.msg_count ac + 1)
                    (Aircraft.set_last_seen (Some now) ac) in
                inr (set_aircraft
                       (<[hex_ident msg := apply_transmission now msg ac1]> acs)
                       s1)
            end
        end
      else inr s
  end.

(** The scan of [discard_lost_aircraft]: the keys whose age exceeds the
    threshold, in iteration order; subtracting a [last_seen] that is
    [None] is a [TypeError]. *)
Fixpoint lost_aircraft (threshold now : Z)
    (entries : list (string * Aircraft.Aircraft number))
  : result (list string) :=
  match entries with
  | [] => inr []
  | (icao_id, aircraft_item) :: rest =>
      match Aircraft.last_seen aircraft_item with
      | None => inl TypeError
      | Some seen =>
          match lost_aircraft threshold now rest with
          | inl e => inl e
          | inr lost =>
              if now - seen >? threshold then inr (icao_id :: lost)
              else inr lost
          end
      end
  end.

(** [Session.discard_lost_aircraft(aircraft_dict)], with the clock reading
    [now] made an argument; the dictionary is returned as it is left. *)
Definition discard_lost_aircraft (threshold now : Z)
    (aircraft_dict : gmap string (Aircraft.Aircraft number))
  : result (gmap string (Aircraft.Aircraft number)) :=
  match lost_aircraft threshold now (map_to_list aircraft_dict) with
  | inl e => inl e
  | inr lost =>
      inr (fold_left (fun d icao_id => delete icao_id d) lost aircraft_dict)
  end.

(** One turn of the loop of [manage_session]. *)
Definition manage_session_tick (now : Z) (s : Session) : result Session :=
  match discard_lost_aircraft (expiry_threshold s) now (aircraft s) with
  | inl e => inl e
  | inr m => inr (set_aircraft m s)
  end.

(** [Session.load_aircraft_cache]: [cached_aircraft] is what
    [pickle.load] returns. *)
Definition load_aircraft_cache (now : Z)
    (cached_aircraft : gmap string (Aircraft.Aircraft number))
    (s : Session) : result Session :=
  match discard_lost_aircraft (expiry_threshold s) now cached_aircraft with
  | inl e => inl e
  | inr cached =>
      if bool_decide (cached = ∅) then inr s else inr (set_aircraft cached s)
  end.

(** [Session.__init__], as far as the aircraft map goes: [cache] is the
    content of the cache file when it exists.  Recording without a file
    name is refused; with one, the constructor reads [self.session_file],
    an attribute that is never set, which is an [AttributeError]. *)
Definition init (record : bool) (record_file : option string)
    (cache_enabled : bool)
    (cache : option (gmap string (Aircraft.Aircraft number)))
    (session_threshold_minutes : Z)
    (origin : option (Aircraft.Position number)) (now : Z)
  : result Session :=
  if record && negb (bool_decide (is_Some record_file)) then inl Exception
  else if record then inl AttributeError
  else
    let s := {| origin := origin; aircraft := ∅;
                expiry_threshold := timedelta_minutes session_threshold_minutes;
                archiving_enabled := false;
                logfile := [];
                cache_enabled := cache_enabled |} in
    match cache with
    | Some cached_aircraft =>
        if cache_enabled then load_aircraft_cache now cached_aircraft s
        else inr s
    | None => inr s
    end.

End WithParser.

Arguments Session : clear implicits.

(** ** The expiry sweep *)

Section Sweep.

Context {number : Type}.
Implicit Types (m : gmap string (Aircraft.Aircraft number)).

(** Every record of the map has been seen. *)
Definition all_seen m : Prop :=
  forall k a, m !! k = Some a -> is_Some (Aircraft.last_seen a).

Lemma lost_aircraft_total thr now
    (l : list (string * Aircraft.Aircraft number)) :
  (forall k a, (k, a) ∈ l -> is_Some (Aircraft.last_seen a)) ->
  exists lost, lost_aircraft thr now l = inr lost.
Proof.
  induction l as [|[k a] l IH]; intros H; simpl.
  - eexists; reflexivity.
  - destruct (H k a) as [t Ht]; [left|]. rewrite Ht.
    destruct IH as [lost ->].
    { intros k' a' Hin. apply (H k' a'). right. exact Hin. }
    destruct (now - t >? thr); eexists; reflexivity.
Qed.

Lemma lost_aircraft_elem thr now
    (l : list (string * Aircraft.Aircraft number)) lost k :
  lost_aircraft thr now l = inr lost ->
  k ∈ lost <->
  exists a t, (k, a) ∈ l /\ Aircraft.last_seen a = Some t /\ now - t > thr.
Proof.
  revert lost; induction l as [|[k0 a0] l IH]; intros lost H; simpl in H.
  - inversion H; subst. split.
    + intros Hin. inversion Hin.
    + intros (a & t & Hin & _). inversion Hin.
  - destruct (Aircraft.last_seen a0) as [t0|] eqn:Hs; [|discriminate].
    destruct (lost_aircraft thr now l) as [e|lost0] eqn:Hl; [discriminate|].
    specialize (IH lost0 eq_refl).
    destruct (now - t0 >? thr) eqn:Hgt; inversion H; subst; clear H.
    + rewrite elem_of_cons, IH. split.
      * intros [-> | (a & t & Hin & Ht & Hage)].
        -- exists a0, t0. split; [left|]. split; [exact Hs|].
           apply Z.gtb_gt. exact Hgt.
        -- exists a, t. split; [right; exact Hin|]. auto.
      * intros (a & t & Hin & Ht & Hage).
        apply elem_of_cons in Hin as [Heq | Hin].
        -- inversion Heq; subst. left; reflexivity.
        -- right. exists a, t. auto.
    + rewrite IH. split.
      * intros (a & t & Hin & Ht & Hage).
        exists a, t. split; [right; exact Hin|]. auto.
      * intros (a & t & Hin & Ht & Hage).
        apply elem_of_cons in Hin as [Heq | Hin].
        -- inversion Heq; subst. rewrite Hs in Ht. inversion Ht; subst.
           apply Z.gtb_gt in Hage. congruence.
        -- exists a, t. auto.
Qed.

Lemma lookup_fold_delete (lost : list string) m k :
  fold_left (fun d icao_id => delete icao_id d) lost m !! k
  = if decide (k ∈ lost) then None else m !! k.
Proof.
  revert m; induction lost as [|i lost IH]; intros m; simpl.
  - destruct (decide (k ∈ [])) as [Hin|]; [inversion Hin|reflexivity].
  - rewrite IH.
    destruct (decide (k ∈ lost)) as [Hin|Hnin].
    + rewrite decide_True by (right; exact Hin). reflexivity.
    + destruct (decide (k = i)) as [->|Hne].
      * rewrite decide_True by left. apply lookup_delete_eq.
      * rewrite decide_False.
        -- apply lookup_delete_ne. congruence.
        -- intros Hin. apply elem_of_cons in Hin as [?|?]; contradiction.
Qed.

(** What the sweep leaves of each entry. *)
Lemma discard_lost_aircraft_lookup thr now m m' k :
  discard_lost_aircraft thr now m = inr m' ->
  m' !! k =
  match m !! k with
  | Some a =>
      match Aircraft.last_seen a with
      | Some t => if now - t >? thr then None else Some a
      | None => Some a
      end
  | None => None
  end.
Proof.
  unfold discard_lost_aircraft.
  destruct (lost_aircraft thr now (map_to_list m)) as [e|lost] eqn:Hl;
    [discriminate|].
  intros H; inversion H; subst; clear H.
  rewrite lookup_fold_delete.
  pose proof (lost_aircraft_elem thr now _ lost k Hl) as Hk.
  destruct (decide (k ∈ lost)) as [Hin|Hnin].
  - apply Hk in Hin as (a & t & Hin & Ht & Hage).
    apply elem_of_map_to_list in Hin. rewrite Hin, Ht.
    apply Z.gtb_gt in Hage. rewrite Hage. reflexivity.
  - destruct (m !! k) as [a|] eqn:Hm; [|reflexivity].
    destruct (Aircraft.last_seen a) as [t|] eqn:Ht; [|reflexivity].
    destruct (now - t >? thr) eqn:Hgt; [|reflexivity].
    exfalso. apply Hnin, Hk. exists a, t.
    split; [apply elem_of_map_to_list; exact Hm|].
    split; [exact Ht|]. apply Z.gtb_gt. exact Hgt.
Qed.

Lemma discard_lost_aircraft_total thr now m :
  all_seen m -> exists m', discard_lost_aircraft thr now m = inr m'.
Proof.
  intros Hm. unfold discard_lost_aircraft.
  destruct (lost_aircraft_total thr now (map_to_list m)) as [lost ->].
  - intros k a Hin. apply elem_of_map_to_list in Hin. eapply Hm; eassumption.
  - eexists; reflexivity.
Qed.

(** The fate of each entry under a sweep that returns. *)
Lemma discard_lost_aircraft_entry thr now m m' k a t :
  discard_lost_aircraft thr now m = inr m' ->
  m !! k = Some a -> Aircraft.last_seen a = Some t ->
  (m' !! k = None <-> now - t > thr)
  /\ (now - t <= thr -> m' !! k = Some a).
Proof.
  intros Hd Hk Ht.
  rewrite (discard_lost_aircraft_lookup _ _ _ _ k Hd), Hk, Ht.
  destruct (now - t >? thr) eqn:Hgt.
  - apply Z.gtb_gt in Hgt. split; [tauto|lia].
  - rewrite Z.gtb_ltb in Hgt. apply Z.ltb_ge in Hgt.
    split; [|reflexivity]. split; [discriminate|lia].
Qed.

(** C6: one run of the sweep over a map whose records have all been seen
    returns; an aircraft of the map is then absent exactly when its age
    [now - last_seen] exceeded the threshold, every other entry is kept as
    it was, and no entry is added. *)
Theorem discard_lost_aircraft_spec (thr now : Z) m :
  all_seen m ->
  exists m',
    discard_lost_aircraft thr now m = inr m'
    /\ (forall k a t,
          m !! k = Some a -> Aircraft.last_seen a = Some t ->
          (m' !! k = None <-> now - t > thr)
          /\ (now - t <= thr -> m' !! k = Some a))
    /\ (forall k, m !! k = None -> m' !! k = None).
Proof.
  intros Hm.
  destruct (discard_lost_aircraft_total thr now m Hm) as [m' Hd].
  exists m'. split; [exact Hd|]. split.
  - intros k a t. apply discard_lost_aircraft_entry. exact Hd.
  - intros k Hk.
    rewrite (discard_lost_aircraft_lookup _ _ _ _ k Hd), Hk. reflexivity.
Qed.

(** ** Restoring the cache *)

(** C7: a session constructed over a cache file whose records have all
    been seen comes up, and of the cached aircraft its map holds none whose
    age exceeds the expiry threshold at that time, and every other one as
    cached.  ([__init__] calls [load_aircraft_cache] on the empty map.) *)
Theorem load_aircraft_cache_drops_expired {wire : Type}
    (cached : gmap string (Aircraft.Aircraft number))
    (minutes : Z) (origin : option (Aircraft.Position number)) (now : Z) :
  all_seen cached ->
  exists s : Session number wire,
    init false None true (Some cached) minutes origin now = inr s
    /\ load_aircraft_cache now cached
         {| origin := origin; aircraft := ∅;
            expiry_threshold := timedelta_minutes minutes;
            archiving_enabled := false; logfile := [];
            cache_enabled := true |} = inr s
    /\ forall k a t,
         cached !! k = Some a -> Aircraft.last_seen a = Some t ->
         (now - t > timedelta_minutes minutes -> aircraft s !! k = None)
         /\ (now - t <= timedelta_minutes minutes ->
             aircraft s !! k = Some a).
Proof.
  intros Hc.
  destruct (discard_lost_aircraft_total (timedelta_minutes minutes) now
              cached Hc) as [m' Hd].
  pose proof (fun k a t =>
    discard_lost_aircraft_entry _ _ _ _ k a t Hd) as Hin.
  unfold init, load_aircraft_cache. simpl. rewrite Hd.
  destruct (bool_decide (m' = ∅)) eqn:He.
  - apply bool_decide_eq_true in He. subst m'.
    eexists. split; [reflexivity|]. split; [reflexivity|].
    intros k a t Hk Ht. simpl. split; intros Hage.
    + apply lookup_empty.
    + destruct (Hin k a t Hk Ht) as [_ Hkeep].
      rewrite lookup_empty in Hkeep. discriminate (Hkeep Hage).
  - eexists. split; [reflexivity|]. split; [reflexivity|].
    intros k a t Hk Ht. simpl.
    destruct (Hin k a t Hk Ht) as [Hiff Hkeep].
    split; [apply Hiff | exact Hkeep].
Qed.

End Sweep.

(** ** What every record of a session's map satisfies *)

Section Invariant.

Context {number wire : Type}.
Variable fromString : wire -> option (SBSMessage number).
Implicit Types (m : gmap string (Aircraft.Aircraft number))
  (s : Session number wire).

(** Every record has been seen and has counted at least one message. *)
Definition well_formed m : Prop :=
  forall k a, m !! k = Some a ->
    is_Some (Aircraft.last_seen a) /\ 1 <= Aircraft.msg_count a.

(** The states a session goes through: it is constructed, without a cache
    or over the cache that an earlier session saved on [close], and from
    then on it processes message lines and runs its sweep. *)
Inductive reachable : Session number wire -> Prop :=
| reach_init record record_file cache_enabled minutes origin now s :
    init record record_file cache_enabled None minutes origin now = inr s ->
    reachable s
| reach_restore s0 record record_file cache_enabled minutes origin now s :
    reachable s0 ->
    init record record_file cache_enabled (Some (aircraft s0))
      minutes origin now = inr s ->
    reachable s
| reach_message now msg_str s s' :
    reachable s ->
    on_sbs_message fromString now msg_str s = inr s' ->
    reachable s'
| reach_sweep now s s' :
    reachable s ->
    manage_session_tick now s = inr s' ->
    reachable s'.

Lemma well_formed_all_seen m : well_formed m -> all_seen m.
Proof. intros H k a Hk. apply (H k a Hk). Qed.

Lemma well_formed_empty : well_formed ∅.
Proof. intros k a Hk. rewrite lookup_empty in Hk. discriminate. Qed.

Lemma update_position_seen alt lat lon t (a : Aircraft.Aircraft number) :
  Aircraft.last_seen (Aircraft.update_position alt lat lon t a) = Some t
  /\ Aircraft.msg_count (Aircraft.update_position alt lat lon t a)
     = Aircraft.msg_count a.
Proof.
  unfold Aircraft.update_position. simpl.
  destruct (Deque.truthy (Aircraft.history a)); [|split; reflexivity].
  destruct (Aircraft.history_interval a) as [i|]; [|split; reflexivity].
  destruct (Deque.last_item (Aircraft.history a)) as [[[[t0 ?] ?] ?]|];
    [|split; reflexivity].
  destruct (t >? t0 + i); split; reflexivity.
Qed.

(** The per-type update keeps the time stamp and the counter that
    [on_sbs_message] has just set. *)
Lemma apply_transmission_seen now msg (ac : Aircraft.Aircraft number) :
  Aircraft.last_seen ac = Some now ->
  Aircraft.last_seen (apply_transmission now msg ac) = Some now
  /\ Aircraft.msg_count (apply_transmission now msg ac)
     = Aircraft.msg_count ac.
Proof.
  intros Hs. unfold apply_transmission.
  repeat case_bool_decide; try (split; [exact Hs|reflexivity]);
    try (split; reflexivity).
  apply update_position_seen.
Qed.

Lemma discard_lost_aircraft_well_formed thr now m m' :
  well_formed m -> discard_lost_aircraft thr now m = inr m' ->
  well_formed m'.
Proof.
  intros Hm Hd k a Hk.
  rewrite (discard_lost_aircraft_lookup _ _ _ _ k Hd) in Hk.
  destruct (m !! k) as [a0|] eqn:E; [|discriminate].
  assert (a = a0) as ->; [|exact (Hm k a0 E)].
  destruct (Aircraft.last_seen a0) as [t|].
  - destruct (now - t >? thr); [discriminate|]. congruence.
  - congruence.
Qed.

Lemma on_sbs_message_well_formed now msg_str s s' :
  well_formed (aircraft s) ->
  on_sbs_message fromString now msg_str s = inr s' ->
  well_formed (aircraft s').
Proof.
  intros Hs. unfold on_sbs_message.
  destruct (fromString msg_str) as [msg|]; [|discriminate].
  case_bool_decide; [intros Hr; inversion Hr; subst; exact Hs|].
  case_bool_decide; [|intros Hr; inversion Hr; subst; exact Hs].
  set (s1 := if archiving_enabled s then emit msg_str s else s).
  assert (Ha1 : aircraft s1 = aircraft s)
    by (unfold s1; destruct (archiving_enabled s); reflexivity).
  rewrite Ha1.
  assert (Hstep : forall acs ac,
    well_formed (delete (hex_ident msg) acs) ->
    well_formed
      (<[hex_ident msg :=
           apply_transmission now msg
             (Aircraft.set_msg_count (Aircraft.msg_count ac + 1)
                (Aircraft.set_last_seen (Some now) ac))]> acs)
    \/ Aircraft.msg_count ac < 0).
  { intros acs ac Hacs.
    destruct (Z.ltb_spec (Aircraft.msg_count ac) 0) as [Hneg|Hpos];
      [right; exact Hneg|left].
    intros k a Hk. rewrite lookup_insert in Hk. case_decide.
    - inversion Hk; subst a.
      destruct (apply_transmission_seen now msg
                  (Aircraft.set_msg_count (Aircraft.msg_count ac + 1)
                     (Aircraft.set_last_seen (Some now) ac)) eq_refl)
        as [-> ->].
      split; [eexists; reflexivity|simpl; lia].
    - apply (Hacs k a). rewrite lookup_delete_ne by assumption. exact Hk. }
  assert (Hdel : forall acs, well_formed acs ->
                 well_formed (delete (hex_ident msg) acs)).
  { intros acs Hacs k a Hk. apply lookup_delete_Some in Hk as [_ Hk].
    apply (Hacs k a Hk). }
  destruct (aircraft s !! hex_ident msg) as [ac|] eqn:Hl.
  - rewrite Hl. intros Hr; inversion Hr; subst; clear Hr. simpl.
    destruct (Hstep (aircraft s) ac (Hdel _ Hs)) as [Hok|Hneg];
      [exact Hok|].
    destruct (Hs _ _ Hl) as [_ Hc]. lia.
  - cbn [Aircraft.init Deque.new Aircraft.default_history_size
         Aircraft.default_history_interval].
    cbn. rewrite lookup_insert_eq.
    intros Hr; inversion Hr; subst; clear Hr. simpl.
    match goal with |- well_formed (<[_ := apply_transmission _ _
        (Aircraft.set_msg_count _ (Aircraft.set_last_seen _ ?ac0))]> ?acs) =>
      destruct (Hstep acs ac0) as [Hok|Hneg] end.
    + intros k a Hk. apply lookup_delete_Some in Hk as [Hne Hk].
      rewrite lookup_insert_ne in Hk by assumption. apply (Hs k a Hk).
    + exact Hok.
    + simpl in Hneg. lia.
Qed.

Lemma init_well_formed record record_file ce cache minutes origin now s :
  (forall c, cache = Some c -> well_formed c) ->
  init record record_file ce cache minutes origin now = inr s ->
  well_formed (aircraft s).
Proof.
  intros Hc. unfold init.
  destruct (record && negb (bool_decide (is_Some record_file)));
    [discriminate|].
  destruct record; [discriminate|].
  destruct cache as [c|];
    [|intros H; inversion H; subst; apply well_formed_empty].
  destruct ce; [|intros H; inversion H; subst; apply well_formed_empty].
  unfold load_aircraft_cache. simpl.
  destruct (discard_lost_aircraft _ now c) as [e|m'] eqn:Hd; [discriminate|].
  case_bool_decide; intros Hr; inversion Hr; subst; simpl.
  - apply well_formed_empty.
  - eapply discard_lost_aircraft_well_formed; [|exact Hd]. auto.
Qed.

Lemma reachable_well_formed s : reachable s -> well_formed (aircraft s).
Proof.
  induction 1 as [? ? ? ? ? ? s Hi
                 | s0 ? ? ? ? ? ? s _ IH Hi
                 | now msg_str s s' _ IH Hm
                 | now s s' _ IH Ht].
  - eapply init_well_formed; [|exact Hi]. discriminate.
  - eapply init_well_formed; [|exact Hi]. intros c [= <-]. exact IH.
  - eapply on_sbs_message_well_formed; eassumption.
  - unfold manage_session_tick in Ht.
    destruct (discard_lost_aircraft _ now (aircraft s)) as [e|m'] eqn:Hd;
      [discriminate|].
    inversion Ht; subst; simpl.
    eapply discard_lost_aircraft_well_formed; eassumption.
Qed.

(** C10: in every state a session reaches, each record of its map has a
    [last_seen] time stamp and has counted at least one message; so the
    sweep, which subtracts [last_seen] from the clock, runs to its end. *)
Theorem session_records_seen_and_counted s :
  reachable s ->
  (forall k a, aircraft s !! k = Some a ->
     is_Some (Aircraft.last_seen a) /\ 1 <= Aircraft.msg_count a)
  /\ (forall now, exists s', manage_session_tick now s = inr s').
Proof.
  intros Hr. pose proof (reachable_well_formed s Hr) as Hw.
  split; [exact Hw|]. intros now. unfold manage_session_tick.
  destruct (discard_lost_aircraft_total (expiry_threshold s) now (aircraft s)
              (well_formed_all_seen _ Hw)) as [m' ->].
  eexists; reflexivity.
Qed.

End Invariant.

(** ** The zero ICAO address *)

(** C3: a message whose [hex_ident] is ["000000"] leaves the session as
    it was (no record is inserted and none is updated) and is not handed
    to the client's parsed-message callback. *)
Theorem zero_icao_rejected {number wire : Type}
    (fromStringW : wire -> option (SBSMessage number))
    (decode : list byte -> option string)
    (fromString : string -> option (SBSMessage number))
    (now : Z) (msg_str : wire) (s : Session number wire)
    (c : Client.Client) (msg_data : list byte) (text : string)
    (msg msg' : SBSMessage number) :
  fromStringW msg_str = Some msg -> hex_ident msg = "000000"%string ->
  decode msg_data = Some text -> fromString text = Some msg' ->
  hex_ident msg' = "000000"%string ->
  on_sbs_message fromStringW now msg_str s = inr s
  /\ exists evs,
       Client._on_sbs_message decode fromString c msg_data = inr evs
       /\ Client.delivered evs = [].
Proof.
  intros Hp Hz Hd Hp' Hz'. split.
  - unfold on_sbs_message. rewrite Hp.
    rewrite bool_decide_eq_true_2 by exact Hz. reflexivity.
  - unfold Client._on_sbs_message. rewrite Hd, Hp'.
    rewrite bool_decide_eq_true_2 by exact Hz'.
    destruct (Client._on_message_received c);
      (eexists; split; [reflexivity|]);
      destruct (Client.archiving_enabled c),
               (Client._on_raw_message_received c); reflexivity.
Qed.

(** ** A session over integer payloads *)

Module Examples.

(** The message of the end-to-end scenario, with coordinates scaled to
    integers. *)
Definition msg3 : SBSMessage Z :=
  {| message_type := Transmission;
     transmission_type := Some 3;
     session_id := 1; aircraft_id := 1;
     hex_ident := "7C79B7";
     flight_id := 1;
     generated_date := {| year := 2017; month := 3; day := 25 |};
     generated_time :=
       {| hour := 10; minute := 41; second := 45; microsecond := 365000 |};
     logged_date := {| year := 2017; month := 3; day := 25 |};
     logged_time :=
       {| hour := 10; minute := 41; second := 45; microsecond := 384000 |};
     callsign := None;
     altitude := Some 2850;
     ground_speed := None; track := None;
     lat := Some (-3484658); lon := Some 13867962;
     vertical_rate := None; squawk := None;
     alert := None; emergency := None; spi := None; is_on_ground := None |}.

(** The same report from the invalid address. *)
Definition msg0 : SBSMessage Z :=
  {| message_type := Transmission;
     transmission_type := Some 3;
     session_id := 1; aircraft_id := 1;
     hex_ident := "000000";
     flight_id := 1;
     generated_date := generated_date msg3;
     generated_time := generated_time msg3;
     logged_date := logged_date msg3;
     logged_time := logged_time msg3;
     callsign := None;
     altitude := Some 2850;
     ground_speed := None; track := None;
     lat := Some (-3484658); lon := Some 13867962;
     vertical_rate := None; squawk := None;
     alert := None; emergency := None; spi := None; is_on_ground := None |}.

(** A parser that knows two lines. *)
Definition parse (line : string) : option (SBSMessage Z) :=
  if String.eqb line "good" then Some msg3
  else if String.eqb line "zero" then Some msg0
  else None.

Definition decode (data : list byte) : option string :=
  Some (string_of_list_byte data).

(** A session without cache or recording, two minutes of expiry. *)
Definition fresh : Session Z string :=
  {| origin := None; aircraft := ∅;
     expiry_threshold := timedelta_minutes 2;
     archiving_enabled := false; logfile := []; cache_enabled := false |}.

(** The record that the message of the scenario creates at time [t]. *)
Definition seen_at (t : Z) : Aircraft.Aircraft Z :=
  {| Aircraft.icao := "7C79B7"; Aircraft.callsign := None;
     Aircraft.last_seen := Some t;
     Aircraft.altitude := Some 2850;
     Aircraft.latitude := Some (-3484658);
     Aircraft.longitude := Some 13867962;
     Aircraft.ground_speed := None; Aircraft.track := None;
     Aircraft.vertical_rate := None;
     Aircraft.msg_count := 1; Aircraft.origin := None;
     Aircraft.details := ∅;
     Aircraft.history_interval := Some 5000000;
     Aircraft.history :=
       {| Deque.maxlen := Some 50%nat;
          Deque.items := [(t, Some (-3484658), Some 13867962, Some 2850)] |}
  |}.

Definition tracking (t : Z) : Session Z string :=
  set_aircraft {[ "7C79B7"%string := seen_at t ]} fresh.

(** The end-to-end scenario of the session: one message creates one record
    with one counted message and one history sample. *)
Example first_message_creates_record :
  on_sbs_message parse 1000000 "good"%string fresh = inr (tracking 1000000).
Proof.
  unfold on_sbs_message, tracking, set_aircraft. simpl.
  rewrite lookup_empty. simpl. rewrite lookup_insert_eq.
  rewrite insert_insert_eq. reflexivity.
Qed.

Lemma all_seen_tracking t : all_seen (aircraft (tracking t)).
Proof.
  intros k a Hk. simpl in Hk.
  apply lookup_singleton_Some in Hk as [_ <-]. eexists; reflexivity.
Qed.

End Examples.

Lemma zero_icao_rejected_witness :
  on_sbs_message Examples.parse 7 "zero"%string (Examples.tracking 5)
    = inr (Examples.tracking 5)
  /\ exists evs,
       Client._on_sbs_message Examples.decode Examples.parse
         {| Client._on_message_received := true;
            Client._on_raw_message_received := true;
            Client.archiving_enabled := true |}
         [x7a; x65; x72; x6f] = inr evs
       /\ Client.delivered evs = [].
Proof.
  apply (zero_icao_rejected Examples.parse Examples.decode Examples.parse
           7 "zero"%string (Examples.tracking 5) _ [x7a; x65; x72; x6f]
           "zero"%string Examples.msg0 Examples.msg0);
    reflexivity.
Defined.

Lemma discard_lost_aircraft_spec_witness :
  exists m',
    discard_lost_aircraft 120000000 200000000
      (aircraft (Examples.tracking 5)) = inr m'
    /\ (forall k a t,
          aircraft (Examples.tracking 5) !! k = Some a ->
          Aircraft.last_seen a = Some t ->
          (m' !! k = None <-> 200000000 - t > 120000000)
          /\ (200000000 - t <= 120000000 -> m' !! k = Some a))
    /\ (forall k, aircraft (Examples.tracking 5) !! k = None ->
                  m' !! k = None).
Proof.
  apply (discard_lost_aircraft_spec 120000000 200000000
           (aircraft (Examples.tracking 5))).
  apply Examples.all_seen_tracking.
Defined.

Lemma load_aircraft_cache_drops_expired_witness :
  exists s : Session Z string,
    init false None true (Some (aircraft (Examples.tracking 5))) 2 None
      200000000 = inr s
    /\ load_aircraft_cache 200000000 (aircraft (Examples.tracking 5))
         {| origin := None; aircraft := ∅;
            expiry_threshold := timedelta_minutes 2;
            archiving_enabled := false; logfile := [];
            cache_enabled := true |} = inr s
    /\ forall k a t,
         aircraft (Examples.tracking 5) !! k = Some a ->
         Aircraft.last_seen a = Some t ->
         (200000000 - t > timedelta_minutes 2 -> aircraft s !! k = None)
         /\ (200000000 - t <= timedelta_minutes 2 ->
             aircraft s !! k = Some a).
Proof.
  apply (load_aircraft_cache_drops_expired
           (aircraft (Examples.tracking 5)) 2 None 200000000).
  apply Examples.all_seen_tracking.
Defined.

Lemma session_records_seen_and_counted_witness :
  (forall k a, aircraft (Examples.tracking 1000000) !! k = Some a ->
     is_Some (Aircraft.last_seen a) /\ 1 <= Aircraft.msg_count a)
  /\ (forall now, exists s',
        manage_session_tick now (Examples.tracking 1000000) = inr s').
Proof.
  apply (session_records_seen_and_counted Examples.parse
           (Examples.tracking 1000000)).
  apply (reach_message Examples.parse 1000000 "good"%string Examples.fresh).
  - apply (reach_init Examples.parse false None false 2 None 0).
    reflexivity.
  - apply Examples.first_message_creates_record.
Defined.

End Session.

(* ===================================================================== *)
(** * Framing: what the decoder extracts, and the server side of it      *)
(* ===================================================================== *)

Module Framing.

Import Protocol.

(** A run of bytes in which the delimiter does not occur. *)
Definition no_delimiter (l : list byte) : Prop :=
  partition DELIMITER l = (l, [], []).

(** The wire form of a list of lines: each followed by the delimiter. *)
Definition terminated (lines : list (list byte)) : list byte :=
  concat (map (fun l => l ++ DELIMITER) lines).

(** The server side of a connection, [SBSServerProtocol]: [transport] is
    [None] until [connection_made]; afterwards it holds the bytes written
    to the peer so far. *)
Record SBSServerProtocol := {
  transport : option (list byte)
}.

(** [SBSServerProtocol.send_message(data, add_delimiter=False)]: writing
    to a transport that is [None] is an [AttributeError]. *)
Definition send_message (data : list byte) (add_delimiter : bool)
    (p : SBSServerProtocol) : result SBSServerProtocol :=
  let data := if add_delimiter then data ++ DELIMITER else data in
  match transport p with
  | None => inl AttributeError
  | Some written => inr {| transport := Some (written ++ data) |}
  end.

(** Sending a list of messages one after the other. *)
Fixpoint send_messages (msgs : list (list byte)) (add_delimiter : bool)
    (p : SBSServerProtocol) : result SBSServerProtocol :=
  match msgs with
  | [] => inr p
  | m :: ms =>
      match send_message m add_delimiter p with
      | inl e => inl e
      | inr p' => send_messages ms add_delimiter p'
      end
  end.

(** The [while self.buf:] loop of [data_received] with a handler that
    can raise: [handler msg] tells whether the call on [msg] returns.  The
    result is the buffer left behind, the lines that the handler was
    called on, in order, and whether the last of these calls raised; the
    buffer was set to the remainder before the call, so that is what is
    left when the handler raises. *)
Equations? drain_calling (handler : list byte -> bool) (buf : list byte)
  : list byte * list (list byte) * bool
  by wf (length buf) lt :=
  drain_calling handler [] := ([], [], false);
  drain_calling handler (b :: rest)
    with inspect (partition DELIMITER (b :: rest)) => {
    | exist _ (msg, [], remainder) _ := (b :: rest, [], false);
    | exist _ (msg, s :: sep, remainder) e :=
        if truthy msg then
          if handler msg then
            let '(buf', calls, raised) := drain_calling handler remainder in
            (buf', msg :: calls, raised)
          else (remainder, [msg], true)
        else drain_calling handler remainder }.
Proof.
  all: apply partition_length in e; simpl in *; lia.
Qed.

(** [SBSProtocol.data_received] with such a handler: [None] is the
    [AttributeError] of [None.extend]; otherwise the protocol as the call
    leaves it, the calls of the handler, and whether the call ended in the
    handler's exception. *)
Definition data_received_calling (handler : list byte -> bool)
    (p : SBSProtocol) (data : list byte)
  : option (SBSProtocol * list (list byte) * bool) :=
  match buf p with
  | None => None
  | Some b =>
      let '(b', calls, raised) :=
        if on_message_received p then drain_calling handler (b ++ data)
        else (drain false (b ++ data), false) in
      Some ({| buf := Some b'; on_message_received := on_message_received p |},
            calls, raised)
  end.

(** ** The head of a partition holds no separator *)

Lemma partition_head_clean sep buf m a s r :
  partition sep buf = (m, a :: s, r) -> partition sep m = (m, [], []).
Proof.
  revert m r; induction buf as [|b rest IH]; intros m r H.
  - discriminate.
  - pose proof (partition_found _ _ _ _ _ _ H) as [Hbuf Hsep].
    simpl in H. destruct (starts_with sep (b :: rest)) as [r'|] eqn:E.
    + inversion H; subst. reflexivity.
    + destruct (partition sep rest) as [[m' s'] r'] eqn:P.
      inversion H; subst m s' r'. clear H.
      cbn [partition].
      destruct (starts_with sep (b :: m')) as [x|] eqn:E'.
      * apply (starts_with_app _ _ _ (sep ++ r)) in E'.
        rewrite <- Hbuf in E'. congruence.
      * rewrite (IH _ _ eq_refl). reflexivity.
Qed.




(** ** What the loop extracts *)




(** One turn of the loop with a handler. *)
Lemma drain_calling_step handler buf :
  drain_calling handler buf =
  match partition DELIMITER buf with
  | (msg, [], _) => (buf, [], false)
  | (msg, _ :: _, remainder) =>
      if truthy msg then
        if handler msg then
          let '(buf', calls, raised) := drain_calling handler remainder in
          (buf', msg :: calls, raised)
        else (remainder, [msg], true)
      else drain_calling handler remainder
  end.
Proof.
  destruct buf as [|b rest]; [reflexivity|].
  simp drain_calling. unfold inspect.
  assert (G : forall q (e : partition DELIMITER (b :: rest) = q),
    drain_calling_unfold_clause_2 handler b rest (exist _ q e) =
    match q with
    | (msg, [], _) => (b :: rest, [], false)
    | (msg, _ :: _, remainder) =>
        if truthy msg then
          if handler msg then
            let '(buf', calls, raised) := drain_calling handler remainder in
            (buf', msg :: calls, raised)
          else (remainder, [msg], true)
        else drain_calling handler remainder
    end).
  { intros [[msg [|s sep]] remainder] e; simp drain_calling; reflexivity. }
  apply G.
Qed.

(** How a run of the loop with a handler ends.  The lines are those that
    the loop took off the buffer.  If no call raised, the handler returned
    from each, nothing complete is left, and the run is the one of
    [drain]; if one raised, it is the call on the last line taken, and
    all that follows that line is left. *)
Definition run_ends (handler : list byte -> bool) (buf : list byte)
    (lines : list (list byte)) (rest : list byte)
    (calls : list (list byte)) (raised : bool) : Prop :=
  buf = terminated lines ++ rest
  /\ Forall no_delimiter lines
  /\ calls = List.filter truthy lines
  /\ if raised then
       exists before m,
         lines = before ++ [m]
         /\ truthy m = true
         /\ handler m = false
         /\ Forall (fun l => handler l = true) (List.filter truthy before)
     else
       Forall (fun l => handler l = true) calls
       /\ no_delimiter rest
       /\ drain true buf = (rest, calls).

Lemma drain_calling_ends handler buf rest calls raised :
  drain_calling handler buf = (rest, calls, raised) ->
  exists lines, run_ends handler buf lines rest calls raised.
Proof.
  revert rest calls raised.
  induction buf as [buf m r0 E | buf m a s r0 E IH] using drain_ind;
    intros rest calls raised H.
  - rewrite drain_calling_step, E in H. injection H as <- <- <-.
    exists []. split; [reflexivity|]. split; [apply List.Forall_nil|].
    split; [reflexivity|]. split; [apply List.Forall_nil|]. split.
    + destruct (partition_missing _ _ _ _ E) as [-> ->]; [discriminate|].
      exact E.
    + rewrite drain_step, E. reflexivity.
  - rewrite drain_calling_step, E in H.
    destruct (partition_found _ _ _ _ _ _ E) as [Hbuf _].
    assert (Hm : no_delimiter m) by (eapply partition_head_clean; exact E).
    assert (Hdrain : drain true buf
                     = let '(b', o) := drain true r0 in
                       if truthy m then (b', m :: o) else (b', o)).
    { rewrite drain_step, E. destruct (drain true r0) as [b' o].
      rewrite andb_true_r. reflexivity. }
    destruct (truthy m) eqn:Tm; [destruct (handler m) eqn:Hh|].
    + destruct (drain_calling handler r0) as [[r1 c1] x1] eqn:D.
      injection H as <- <- <-.
      destruct (IH _ _ _ eq_refl) as (lines & Hr0 & Hclean & Hc & Hend).
      exists (m :: lines). split.
      { rewrite Hbuf, Hr0. unfold terminated. simpl.
        rewrite <- !app_assoc. reflexivity. }
      split; [apply List.Forall_cons; assumption|].
      split; [cbn [List.filter]; rewrite Tm, Hc; reflexivity|].
      destruct x1.
      * destruct Hend as (before & m' & -> & Ht' & Hm' & Hb).
        exists (m :: before), m'. split; [reflexivity|].
        split; [exact Ht'|]. split; [exact Hm'|].
        cbn [List.filter]. rewrite Tm.
        apply List.Forall_cons; assumption.
      * destruct Hend as (Hall & Hrest & Hd).
        split; [apply List.Forall_cons; assumption|].
        split; [exact Hrest|]. rewrite Hdrain, Hd. reflexivity.
    + injection H as <- <- <-.
      exists [m]. split.
      { rewrite Hbuf. unfold terminated. simpl.
        rewrite app_nil_r, <- app_assoc. reflexivity. }
      split; [apply List.Forall_cons; [exact Hm|apply List.Forall_nil]|].
      split; [cbn [List.filter]; rewrite Tm; reflexivity|].
      exists [], m. split; [reflexivity|]. split; [exact Tm|].
      split; [exact Hh|]. apply List.Forall_nil.
    + destruct (IH _ _ _ H) as (lines & Hr0 & Hclean & Hc & Hend).
      exists (m :: lines). split.
      { rewrite Hbuf, Hr0. unfold terminated. simpl.
        rewrite <- !app_assoc. reflexivity. }
      split; [apply List.Forall_cons; assumption|].
      split; [cbn [List.filter]; rewrite Tm; exact Hc|].
      destruct raised.
      * destruct Hend as (before & m' & -> & Ht' & Hm' & Hb).
        exists (m :: before), m'. split; [reflexivity|].
        split; [exact Ht'|]. split; [exact Hm'|].
        cbn [List.filter]. rewrite Tm. exact Hb.
      * destruct Hend as (Hall & Hrest & Hd).
        split; [exact Hall|]. split; [exact Hrest|].
        rewrite Hdrain, Hd. reflexivity.
Qed.

(** X1: a call of [data_received] on a connected protocol with a handler
    that can raise.  The buffer it works on (old buffer, then the new
    data) is a run of delimiter-free lines, each followed by the
    delimiter, and a rest; the lines are taken off, the handler is called
    on the non-empty ones, in order, and the rest stays buffered.  If the
    handler returns from every call, the call returns, the rest holds no
    delimiter, and the outcome is that of [data_received] of [Protocol];
    if the handler raises, the call ends there: the line of that call,
    a non-empty one, is the last one taken, and the rest is all that
    follows it, complete lines included. *)
Theorem data_received_lines (handler : list byte -> bool)
    (p : SBSProtocol) (b data : list byte) :
  buf p = Some b -> on_message_received p = true ->
  exists lines rest calls raised,
    data_received_calling handler p data
    = Some ({| buf := Some rest; on_message_received := true |},
            calls, raised)
    /\ b ++ data = terminated lines ++ rest
    /\ Forall no_delimiter lines
    /\ calls = List.filter truthy lines
    /\ if raised then
         exists before m,
           lines = before ++ [m]
           /\ truthy m = true
           /\ handler m = false
           /\ Forall (fun l => handler l = true)
                (List.filter truthy before)
       else
         Forall (fun l => handler l = true) calls
         /\ no_delimiter rest
         /\ data_received p data
            = Some ({| buf := Some rest; on_message_received := true |},
                    calls).
Proof.
  intros Hb Hcb. unfold data_received_calling, data_received.
  rewrite Hb, Hcb.
  destruct (drain_calling handler (b ++ data)) as [[rest calls] raised] eqn:D.
  destruct (drain_calling_ends _ _ _ _ _ D)
    as (lines & H1 & H2 & H3 & H4).
  exists lines, rest, calls, raised.
  split; [reflexivity|]. split; [exact H1|]. split; [exact H2|].
  split; [exact H3|]. destruct raised; [exact H4|].
  destruct H4 as (Ha & Hr & Hd). split; [exact Ha|]. split; [exact Hr|].
  rewrite Hd. reflexivity.
Qed.

(** A handler that raises on a line that holds the byte [ff], as one
    that decodes its line does. *)
Definition decodes (msg : list byte) : bool :=
  forallb (fun b => negb (Byte.eqb b xff)) msg.

Lemma data_received_lines_witness :
  exists lines rest calls raised,
    data_received_calling decodes
      {| buf := Some [x41]; on_message_received := true |}
      [x0d; x0a; xff; x0d; x0a; x42; x0d; x0a]
    = Some ({| buf := Some rest; on_message_received := true |},
            calls, raised)
    /\ [x41] ++ [x0d; x0a; xff; x0d; x0a; x42; x0d; x0a]
       = terminated lines ++ rest
    /\ Forall no_delimiter lines
    /\ calls = List.filter truthy lines
    /\ if raised then
         exists before m,
           lines = before ++ [m]
           /\ truthy m = true
           /\ decodes m = false
           /\ Forall (fun l => decodes l = true)
                (List.filter truthy before)
       else
         Forall (fun l => decodes l = true) calls
         /\ no_delimiter rest
         /\ data_received
              {| buf := Some [x41]; on_message_received := true |}
              [x0d; x0a; xff; x0d; x0a; x42; x0d; x0a]
            = Some ({| buf := Some rest; on_message_received := true |},
                    calls).
Proof.
  apply (data_received_lines decodes
           {| buf := Some [x41]; on_message_received := true |} [x41]);
    reflexivity.
Defined.

(** The run behind it: the handler raises on the second line, and the
    third line stays in the buffer. *)
Example data_received_raising :
  data_received_calling decodes
    {| buf := Some [x41]; on_message_received := true |}
    [x0d; x0a; xff; x0d; x0a; x42; x0d; x0a]
  = Some ({| buf := Some [x42; x0d; x0a]; on_message_received := true |},
          [[x41]; [xff]], true).
Proof. vm_compute. reflexivity. Qed.





End Framing.

(* ===================================================================== *)
(** * The shape of an aircraft's history                                  *)
(* ===================================================================== *)

Module HistoryShape.

Import Aircraft.

Section WithNumber.

Context {number : Type}.
Implicit Types (a : Aircraft number) (us : list (PositionUpdate number))
  (l : list (HistoryPoint number)).

(** The history point that an update stands for. *)
Definition sample (u : PositionUpdate number) : HistoryPoint number :=
  let '(alt, lat, lon, t) := u in (t, lat, lon, alt).

(** The time stamp of a history point. *)
Definition stamp (p : HistoryPoint number) : Z :=
  let '(t, _, _, _) := p in t.

(** Each sample is more than [gap] later than the one before it. *)
Definition gaps_exceed (gap : Z) l : Prop :=
  forall k p q, l !! k = Some p -> l !! S k = Some q ->
    stamp q > stamp p + gap.

(** The last [n] items of a list. *)
Definition keep_last {A} (n : nat) (l : list A) : list A :=
  drop (length l - n) l.

(** What a bound keeps of a list. *)
Definition bounded_by {A} (bound : option nat) (l : list A) : list A :=
  match bound with
  | None => l
  | Some n => keep_last n l
  end.

Lemma keep_last_app {A} n (l l' : list A) :
  keep_last n (keep_last n l ++ l') = keep_last n (l ++ l').
Proof.
  unfold keep_last. destruct (Nat.le_gt_cases (length l) n) as [Hle|Hgt].
  - replace (length l - n)%nat with 0%nat by lia. reflexivity.
  - rewrite !length_app, length_drop.
    replace (length l - (length l - n) + length l' - n)%nat
      with (length l') by lia.
    replace (length l + length l' - n)%nat
      with ((length l - n) + length l')%nat by lia.
    rewrite <- drop_drop. f_equal.
    rewrite drop_app_le by lia. reflexivity.
Qed.

Lemma keep_last_all {A} n (l : list A) :
  (length l <= n)%nat -> keep_last n l = l.
Proof.
  intros H. unfold keep_last.
  replace (length l - n)%nat with 0%nat by lia. reflexivity.
Qed.

Lemma keep_last_length {A} n (l : list A) :
  (length (keep_last n l) <= n)%nat.
Proof. unfold keep_last. rewrite length_drop. lia. Qed.

(** An append to a deque keeps the last items that fit. *)
Lemma deque_append_bounded_by {A} (x : A) (d : Deque.deque A) :
  (forall n, Deque.maxlen d = Some n -> (length (Deque.items d) <= n)%nat) ->
  Deque.items (Deque.append x d)
  = bounded_by (Deque.maxlen d) (Deque.items d ++ [x]).
Proof.
  intros Hb. unfold Deque.append, bounded_by.
  destruct (Deque.maxlen d) as [n|]; [|reflexivity]. simpl.
  specialize (Hb n eq_refl). unfold keep_last.
  rewrite length_app. simpl.
  destruct (Nat.ltb_spec n (length (Deque.items d) + 1)) as [Hlt|Hge].
  - replace (length (Deque.items d) + 1 - n)%nat with 1%nat by lia.
    destruct (Deque.items d ++ [x]); reflexivity.
  - replace (length (Deque.items d) + 1 - n)%nat with 0%nat by lia.
    reflexivity.
Qed.

(** The deque holds no more than its bound. *)
Definition respects_bound a : Prop :=
  forall n, Deque.maxlen (history a) = Some n ->
    (length (path a) <= n)%nat.

Lemma bounded_by_length {A} bound (l : list A) n :
  bound = Some n -> (length (bounded_by bound l) <= n)%nat.
Proof. intros ->. apply keep_last_length. Qed.

Lemma init_respects_bound hex size interval a :
  init hex size interval = inr a ->
  path a = [] /\ respects_bound a
  /\ Deque.maxlen (history a) = option_map Z.to_nat size
  /\ history_interval a =
     match interval with
     | Some n => if n =? 0 then None else Some (timedelta_seconds n)
     | None => None
     end.
Proof.
  unfold init, Deque.new. destruct size as [n|].
  - destruct (n <? 0); [discriminate|]. intros [= <-].
    repeat split. intros k _. simpl. lia.
  - intros [= <-]. repeat split. intros k H. discriminate H.
Qed.

(** What [update_position] does to the history: nothing, or an append
    that keeps the items that fit. *)
Lemma update_position_path a alt lat lon t :
  respects_bound a ->
  let a' := update_position alt lat lon t a in
  Deque.maxlen (history a') = Deque.maxlen (history a)
  /\ history_interval a' = history_interval a
  /\ respects_bound a'
  /\ (path a' = path a
      \/ path a' = bounded_by (Deque.maxlen (history a))
                     (path a ++ [(t, lat, lon, alt)])).
Proof.
  intros Hb. cbv zeta.
  assert (Happ : forall a0 : Aircraft number,
    history a0 = Deque.append (A := HistoryPoint number)
                   (t, lat, lon, alt) (history a) ->
    Deque.maxlen (history a0) = Deque.maxlen (history a)
    /\ respects_bound a0
    /\ path a0 = bounded_by (Deque.maxlen (history a))
                   (path a ++ [(t, lat, lon, alt)])).
  { intros a0 H0.
    pose proof (deque_append_bounded_by (A := HistoryPoint number)
                  (t, lat, lon, alt) (history a) Hb)
      as Hi.
    assert (Hm : Deque.maxlen (history a0) = Deque.maxlen (history a)).
    { rewrite H0. apply deque_append_maxlen. }
    split; [exact Hm|]. unfold respects_bound, path. rewrite Hm, H0, Hi.
    split; [|reflexivity]. intros n Hn. apply bounded_by_length. exact Hn. }
  destruct (Happ (set_history
                    (Deque.append (A := HistoryPoint number)
                       (t, lat, lon, alt) (history a))
                    (set_latlon lat lon
                       (set_altitude alt (set_last_seen (Some t) a))))
              eq_refl) as (H1 & H2 & H3).
  unfold update_position. cbn [history history_interval set_latlon
    set_altitude set_last_seen].
  destruct (Deque.truthy (history a)).
  - destruct (history_interval a) as [i|] eqn:Hi.
    + destruct (Deque.last_item (history a)) as [[[[t0 ?] ?] ?]|].
      * destruct (t >? t0 + i).
        -- repeat split; [exact H1|exact Hi|exact H2|right; exact H3].
        -- repeat split; [exact Hi|exact Hb|left; reflexivity].
      * repeat split; [exact Hi|exact Hb|left; reflexivity].
    + repeat split; [exact H1|exact Hi|exact H2|right; exact H3].
  - repeat split; [exact H1|exact H2|right; exact H3].
Qed.

(** Without an interval every update is appended. *)
Lemma update_position_ungated a alt lat lon t :
  respects_bound a -> history_interval a = None ->
  path (update_position alt lat lon t a)
  = bounded_by (Deque.maxlen (history a)) (path a ++ [(t, lat, lon, alt)]).
Proof.
  intros Hb Hi.
  pose proof (deque_append_bounded_by (A := HistoryPoint number)
                  (t, lat, lon, alt) (history a) Hb) as Ha.
  unfold update_position. cbn [history history_interval set_latlon
    set_altitude set_last_seen]. rewrite Hi.
  destruct (Deque.truthy (history a)); exact Ha.
Qed.

Lemma bounded_by_app {A} bound (l l' : list A) :
  bounded_by bound (bounded_by bound l ++ l') = bounded_by bound (l ++ l').
Proof. destruct bound; [apply keep_last_app|reflexivity]. Qed.

Lemma apply_updates_ungated a us :
  respects_bound a -> history_interval a = None ->
  path (apply_updates us a)
  = bounded_by (Deque.maxlen (history a)) (path a ++ map sample us).
Proof.
  unfold apply_updates. revert a.
  induction us as [|[[[alt lat] lon] t] us IH]; intros a Hb Hi.
  - simpl. rewrite app_nil_r. destruct (Deque.maxlen (history a)) as [n|] eqn:E;
      [|reflexivity].
    simpl. symmetry. apply keep_last_all. exact (Hb n E).
  - cbn [fold_left apply_update].
    destruct (update_position_path a alt lat lon t Hb) as (Hm & Hi' & Hb' & _).
    rewrite IH; [|exact Hb'|congruence].
    rewrite Hm, (update_position_ungated a alt lat lon t Hb Hi).
    rewrite bounded_by_app, <- app_assoc. reflexivity.
Qed.

(** X4: when interval gating is off ([history_interval] is [None] or [0])
    the history of a new aircraft is the run of all position updates,
    cut down to the last [history_size] of them when there is a bound. *)
Theorem ungated_history_is_recent_updates
    (hex : string) (size interval : option Z) (a : Aircraft number) us :
  interval = None \/ interval = Some 0 ->
  init hex size interval = inr a ->
  path (apply_updates us a)
  = bounded_by (option_map Z.to_nat size) (map sample us).
Proof.
  intros Hint Hinit.
  destruct (init_respects_bound _ _ _ _ Hinit) as (Hp & Hb & Hm & Hi).
  rewrite apply_updates_ungated; [|exact Hb|].
  - rewrite Hm, Hp. reflexivity.
  - rewrite Hi. destruct Hint as [-> | ->]; reflexivity.
Qed.

Lemma gaps_exceed_drop gap l k : gaps_exceed gap l -> gaps_exceed gap (drop k l).
Proof.
  intros H j p q Hp Hq. rewrite lookup_drop in Hp, Hq.
  apply (H (k + j)%nat); [exact Hp|].
  replace (S (k + j)) with (k + S j)%nat by lia. exact Hq.
Qed.

Lemma gaps_exceed_snoc gap l x :
  gaps_exceed gap l ->
  (forall p, last l = Some p -> stamp x > stamp p + gap) ->
  gaps_exceed gap (l ++ [x]).
Proof.
  intros H Hx k p q Hp Hq.
  destruct (Nat.lt_ge_cases (S k) (length l)) as [Hlt|Hge].
  - rewrite lookup_app_l in Hp, Hq by lia. exact (H k p q Hp Hq).
  - assert (Hk : S k = length l).
    { apply lookup_lt_Some in Hq. rewrite length_app in Hq. simpl in Hq. lia. }
    rewrite lookup_app_l in Hp by lia.
    rewrite lookup_app_r in Hq by lia.
    replace (S k - length l)%nat with 0%nat in Hq by lia.
    inversion Hq; subst q. apply Hx.
    rewrite last_lookup. rewrite <- Hk. simpl. exact Hp.
Qed.

Lemma gaps_exceed_bounded_by gap bound l :
  gaps_exceed gap l -> gaps_exceed gap (bounded_by bound l).
Proof. destruct bound; [apply gaps_exceed_drop|trivial]. Qed.

Lemma update_position_gaps a interval alt lat lon t :
  respects_bound a -> history_interval a = Some interval ->
  gaps_exceed interval (path a) ->
  gaps_exceed interval (path (update_position alt lat lon t a)).
Proof.
  intros Hb Hi Hg.
  pose proof (deque_append_bounded_by (A := HistoryPoint number)
                  (t, lat, lon, alt) (history a) Hb) as Ha.
  unfold update_position. cbn [history history_interval set_latlon
    set_altitude set_last_seen]. rewrite Hi.
  destruct (Deque.truthy (history a)) eqn:Ht.
  - destruct (Deque.last_item (history a)) as [[[[t0 la0] lo0] al0]|] eqn:Hl;
      [|exact Hg].
    destruct (t >? t0 + interval) eqn:Hgt; [|exact Hg].
    unfold path. cbn [history set_history]. rewrite Ha.
    apply gaps_exceed_bounded_by, gaps_exceed_snoc; [exact Hg|].
    intros p Hp. unfold Deque.last_item in Hl. unfold path in Hp.
    rewrite Hl in Hp. inversion Hp; subst p. simpl.
    apply Z.gtb_gt. exact Hgt.
  - unfold path. cbn [history set_history]. rewrite Ha.
    apply gaps_exceed_bounded_by, gaps_exceed_snoc; [exact Hg|].
    intros p Hp. unfold Deque.truthy in Ht. unfold path in Hp.
    destruct (Deque.items (history a)); [discriminate Hp|discriminate Ht].
Qed.

(** X5: with interval gating on, whatever position updates a new aircraft
    receives, each sample of its history is more than [history_interval]
    later than the sample before it. *)
Theorem gated_history_is_spaced
    (hex : string) (size : option Z) (n : Z) (a : Aircraft number) us :
  n <> 0 ->
  init hex size (Some n) = inr a ->
  gaps_exceed (timedelta_seconds n) (path (apply_updates us a)).
Proof.
  intros Hn Hinit.
  destruct (init_respects_bound _ _ _ _ Hinit) as (Hp & Hb & _ & Hi).
  replace (n =? 0) with false in Hi by (symmetry; apply Z.eqb_neq; exact Hn).
  assert (Hg : gaps_exceed (timedelta_seconds n) (path a)).
  { rewrite Hp. intros k p q Hk. discriminate Hk. }
  clear Hp Hinit. unfold apply_updates. revert a Hb Hi Hg.
  induction us as [|[[[alt lat] lon] t] us IH]; intros a Hb Hi Hg;
    [exact Hg|].
  cbn [fold_left apply_update].
  destruct (update_position_path a alt lat lon t Hb) as (_ & Hi' & Hb' & _).
  apply IH; [exact Hb'|congruence|].
  apply update_position_gaps; assumption.
Qed.

End WithNumber.

(** A new aircraft over integer payloads, as the constructor leaves it. *)
Definition fresh (bound : option nat) (interval : option Z) : Aircraft Z :=
  {| icao := "7C79B7"; callsign := None; last_seen := None;
     altitude := None; latitude := None; longitude := None;
     ground_speed := None; track := None; vertical_rate := None;
     msg_count := 0; origin := None; details := ∅;
     history_interval := interval;
     history := {| Deque.maxlen := bound; Deque.items := [] |} |}.

Lemma ungated_history_is_recent_updates_witness :
  path (apply_updates
          [(Some 100, Some 1, Some 2, 10); (Some 200, Some 3, Some 4, 5);
           (Some 300, Some 5, Some 6, 7)]
          (fresh (Some 2%nat) None))
  = bounded_by (option_map Z.to_nat (Some 2))
      (map sample
         [(Some 100, Some 1, Some 2, 10); (Some 200, Some 3, Some 4, 5);
          (Some 300, Some 5, Some 6, 7)]).
Proof.
  apply (ungated_history_is_recent_updates "7C79B7" (Some 2) (Some 0)).
  - right. reflexivity.
  - reflexivity.
Defined.

Lemma gated_history_is_spaced_witness :
  gaps_exceed (timedelta_seconds 5)
    (path (apply_updates
             [(Some 100, Some 1, Some 2, 0); (Some 200, Some 3, Some 4, 3000000);
              (Some 300, Some 5, Some 6, 6000000)]
             (fresh (Some 50%nat) (Some 5000000)))).
Proof.
  apply (gated_history_is_spaced "7C79B7" (Some 50) 5).
  - discriminate.
  - reflexivity.
Defined.

Example gated_history_example :
  path (apply_updates
          [(Some 100, Some 1, Some 2, 0); (Some 200, Some 3, Some 4, 3000000);
           (Some 300, Some 5, Some 6, 6000000)]
          (fresh (Some 50%nat) (Some 5000000)))
  = [(0, Some 1, Some 2, Some 100); (6000000, Some 5, Some 6, Some 300)].
Proof. reflexivity. Qed.

End HistoryShape.

(* ===================================================================== *)
(** * Sessions at work: what a message and a run of messages do          *)
(* ===================================================================== *)

Module SessionRun.

Import Message Session.

Section WithParser.

Context {number wire : Type}.
Variable fromString : wire -> option (SBSMessage number).
Implicit Types (s : Session number wire) (msg : SBSMessage number)
  (m : gmap string (Aircraft.Aircraft number)).

(** The record that [Aircraft(hex_ident)] builds. *)
Definition new_aircraft (hex : string) : Aircraft.Aircraft number :=
  {| Aircraft.icao := hex; Aircraft.callsign := None;
     Aircraft.last_seen := None; Aircraft.altitude := None;
     Aircraft.latitude := None; Aircraft.longitude := None;
     Aircraft.ground_speed := None; Aircraft.track := None;
     Aircraft.vertical_rate := None; Aircraft.msg_count := 0;
     Aircraft.origin := None; Aircraft.details := ∅;
     Aircraft.history_interval := Some 5000000;
     Aircraft.history := {| Deque.maxlen := Some 50%nat; Deque.items := [] |}
  |}.

Lemma init_default hex :
  Aircraft.init hex Aircraft.default_history_size
    Aircraft.default_history_interval = inr (new_aircraft hex).
Proof. reflexivity. Qed.

(** The record a message is applied to: the one on file, or a new one
    that carries the session's origin. *)
Definition record_for s (hex : string) : Aircraft.Aircraft number :=
  match aircraft s !! hex with
  | Some ac => ac
  | None => Aircraft.set_origin (origin s) (new_aircraft hex)
  end.

(** The record after the message: seen, counted, then updated by type. *)
Definition updated_record (now : Z) msg (ac : Aircraft.Aircraft number)
  : Aircraft.Aircraft number :=
  apply_transmission now msg
    (Aircraft.set_msg_count (Aircraft.msg_count ac + 1)
       (Aircraft.set_last_seen (Some now) ac)).

(** A message that the session takes up: a transmission that does not
    come from the zero address. *)
Definition accepted msg : Prop :=
  hex_ident msg <> "000000"%string /\ message_type msg = Transmission.

Lemma on_sbs_message_accepted now w s msg :
  fromString w = Some msg -> accepted msg ->
  on_sbs_message fromString now w s
  = inr (set_aircraft
           (<[hex_ident msg :=
                updated_record now msg (record_for s (hex_ident msg))]>
              (aircraft s))
           (if archiving_enabled s then emit w s else s)).
Proof.
  intros Hp [Hz Ht]. unfold on_sbs_message, record_for. rewrite Hp.
  rewrite bool_decide_eq_false_2 by exact Hz.
  rewrite bool_decide_eq_true_2 by exact Ht.
  assert (Ha : aircraft (if archiving_enabled s then emit w s else s)
               = aircraft s) by (destruct (archiving_enabled s); reflexivity).
  assert (Ho : origin (if archiving_enabled s then emit w s else s)
               = origin s) by (destruct (archiving_enabled s); reflexivity).
  rewrite Ha, Ho.
  destruct (aircraft s !! hex_ident msg) as [ac|] eqn:Hl.
  - rewrite Hl. reflexivity.
  - rewrite init_default, lookup_insert_eq, insert_insert_eq. reflexivity.
Qed.

Lemma on_sbs_message_ignored now w s msg :
  fromString w = Some msg -> ~ accepted msg ->
  on_sbs_message fromString now w s = inr s.
Proof.
  intros Hp Hn. unfold on_sbs_message. rewrite Hp.
  case_bool_decide; [reflexivity|].
  case_bool_decide; [|reflexivity].
  exfalso. apply Hn. split; assumption.
Qed.

(** A position report: surface or airborne position. *)
Definition position_report msg : Prop :=
  transmission_type msg = Some TransmissionType.ES_SURFACE_POS
  \/ transmission_type msg = Some TransmissionType.ES_AIRBORNE_POS.

Lemma update_position_frame alt lat lon t (a : Aircraft.Aircraft number) :
  let a' := Aircraft.update_position alt lat lon t a in
  Aircraft.icao a' = Aircraft.icao a
  /\ Aircraft.origin a' = Aircraft.origin a
  /\ Aircraft.callsign a' = Aircraft.callsign a
  /\ Aircraft.history_interval a' = Aircraft.history_interval a.
Proof.
  unfold Aircraft.update_position. cbn.
  destruct (Deque.truthy (Aircraft.history a)); [|repeat split; reflexivity].
  destruct (Aircraft.history_interval a) as [i|] eqn:Hi;
    [|repeat split; try reflexivity; exact Hi].
  destruct (Deque.last_item (Aircraft.history a)) as [[[[t0 ?] ?] ?]|];
    [|repeat split; try reflexivity; exact Hi].
  destruct (t >? t0 + i); repeat split; try reflexivity; exact Hi.
Qed.

(** No per-type update touches the identity or the origin of a record. *)
Lemma apply_transmission_frame now msg (ac : Aircraft.Aircraft number) :
  Aircraft.icao (apply_transmission now msg ac) = Aircraft.icao ac
  /\ Aircraft.origin (apply_transmission now msg ac) = Aircraft.origin ac.
Proof.
  unfold apply_transmission.
  repeat case_bool_decide; try (split; reflexivity).
  destruct (update_position_frame (altitude msg) (lat msg) (lon msg) now ac)
    as (H1 & H2 & _). split; assumption.
Qed.

(** Only a position report touches the position or the history. *)
Lemma apply_transmission_position now msg (ac : Aircraft.Aircraft number) :
  ~ position_report msg ->
  Aircraft.latitude (apply_transmission now msg ac) = Aircraft.latitude ac
  /\ Aircraft.longitude (apply_transmission now msg ac)
     = Aircraft.longitude ac
  /\ Aircraft.history (apply_transmission now msg ac) = Aircraft.history ac.
Proof.
  intros Hn. unfold apply_transmission.
  repeat case_bool_decide; try (repeat split; reflexivity).
  exfalso. apply Hn. assumption.
Qed.

(** X6: a transmission from a non-zero address is always taken up: the
    call returns, the record of that address (a new one if there was none)
    is stamped with the clock reading and has counted one more message,
    every other record is as before, and the line is archived exactly when
    recording is on. *)
Theorem accepted_message_effect (now : Z) (w : wire) s msg :
  fromString w = Some msg -> accepted msg ->
  exists s' ac',
    on_sbs_message fromString now w s = inr s'
    /\ aircraft s' !! hex_ident msg = Some ac'
    /\ Aircraft.last_seen ac' = Some now
    /\ Aircraft.msg_count ac'
       = match aircraft s !! hex_ident msg with
         | Some ac => Aircraft.msg_count ac + 1
         | None => 1
         end
    /\ Aircraft.origin ac'
       = match aircraft s !! hex_ident msg with
         | Some ac => Aircraft.origin ac
         | None => origin s
         end
    /\ (forall k, k <> hex_ident msg -> aircraft s' !! k = aircraft s !! k)
    /\ logfile s'
       = (if archiving_enabled s then logfile s ++ [w] else logfile s)
    /\ origin s' = origin s
    /\ expiry_threshold s' = expiry_threshold s
    /\ archiving_enabled s' = archiving_enabled s.
Proof.
  intros Hp Ha. rewrite (on_sbs_message_accepted now w s msg Hp Ha).
  eexists _, _. split; [reflexivity|].
  split; [apply lookup_insert_eq|].
  unfold updated_record.
  destruct (apply_transmission_seen now msg
              (Aircraft.set_msg_count
                 (Aircraft.msg_count (record_for s (hex_ident msg)) + 1)
                 (Aircraft.set_last_seen (Some now)
                    (record_for s (hex_ident msg)))) eq_refl) as [Hs Hc].
  destruct (apply_transmission_frame now msg
              (Aircraft.set_msg_count
                 (Aircraft.msg_count (record_for s (hex_ident msg)) + 1)
                 (Aircraft.set_last_seen (Some now)
                    (record_for s (hex_ident msg))))) as [_ Ho].
  split; [exact Hs|]. split.
  { rewrite Hc. unfold record_for.
    destruct (aircraft s !! hex_ident msg); reflexivity. }
  split.
  { rewrite Ho. unfold record_for.
    destruct (aircraft s !! hex_ident msg); reflexivity. }
  split.
  { intros k Hk. simpl. apply lookup_insert_ne. congruence. }
  destruct (archiving_enabled s) eqn:E; simpl; rewrite ?E; repeat split.
Qed.

(** X7: a message that is not a transmission (a status, identification,
    click, new or remove message) leaves the session exactly as it was: no
    record is made or touched and nothing is archived, recording or not. *)
Theorem non_transmission_ignored (now : Z) (w : wire) s msg :
  fromString w = Some msg -> message_type msg <> Transmission ->
  on_sbs_message fromString now w s = inr s.
Proof.
  intros Hp Hn. apply (on_sbs_message_ignored now w s msg Hp).
  intros [_ Ht]. contradiction.
Qed.

(** X8: a transmission that is not a position report (types 2 and 3)
    never moves an aircraft: the latitude, longitude and history of its
    record stay as they were, and a record it creates has no position and
    an empty history. *)
Theorem only_position_reports_move (now : Z) (w : wire) s msg :
  fromString w = Some msg -> accepted msg -> ~ position_report msg ->
  exists s' ac',
    on_sbs_message fromString now w s = inr s'
    /\ aircraft s' !! hex_ident msg = Some ac'
    /\ match aircraft s !! hex_ident msg with
       | Some ac =>
           Aircraft.position ac' = Aircraft.position ac
           /\ Aircraft.history ac' = Aircraft.history ac
       | None =>
           Aircraft.position ac' = (None, None)
           /\ Aircraft.path ac' = []
       end.
Proof.
  intros Hp Ha Hn. rewrite (on_sbs_message_accepted now w s msg Hp Ha).
  eexists _, _. split; [reflexivity|].
  split; [apply lookup_insert_eq|].
  unfold updated_record, Aircraft.position, Aircraft.path.
  destruct (apply_transmission_position now msg
              (Aircraft.set_msg_count
                 (Aircraft.msg_count (record_for s (hex_ident msg)) + 1)
                 (Aircraft.set_last_seen (Some now)
                    (record_for s (hex_ident msg)))) Hn) as (H1 & H2 & H3).
  rewrite H1, H2, H3. unfold record_for.
  destruct (aircraft s !! hex_ident msg); split; reflexivity.
Qed.

(** ** A run of messages *)

(** Message lines handed to [on_sbs_message] one after the other, each
    with the clock reading of its call; the run ends at the first call
    that raises. *)
Fixpoint on_sbs_messages (feed : list (Z * wire)) s
  : result (Session number wire) :=
  match feed with
  | [] => inr s
  | (now, w) :: rest =>
      match on_sbs_message fromString now w s with
      | inl e => inl e
      | inr s' => on_sbs_messages rest s'
      end
  end.

(** Whether a line is a transmission from [hex]. *)
Definition transmission_from (hex : string) (w : wire) : bool :=
  match fromString w with
  | Some msg =>
      bool_decide (hex_ident msg = hex /\ message_type msg = Transmission)
  | None => false
  end.

(** The number of transmissions from [hex] in a run. *)
Definition transmissions_from (hex : string) (feed : list (Z * wire)) : Z :=
  Z.of_nat (length (List.filter (fun e => transmission_from hex (snd e)) feed)).

(** The message count on file for [hex], zero when there is no record. *)
Definition count_of (hex : string) s : Z :=
  match aircraft s !! hex with
  | Some ac => Aircraft.msg_count ac
  | None => 0
  end.

Lemma on_sbs_message_count hex now w s s' :
  hex <> "000000"%string ->
  on_sbs_message fromString now w s = inr s' ->
  if transmission_from hex w
  then count_of hex s' = count_of hex s + 1 /\ is_Some (aircraft s' !! hex)
  else aircraft s' !! hex = aircraft s !! hex.
Proof.
  intros Hz H. unfold transmission_from.
  destruct (fromString w) as [msg|] eqn:Hp.
  2:{ unfold on_sbs_message in H. rewrite Hp in H. discriminate H. }
  destruct (decide (accepted msg)) as [Ha|Hn].
  - rewrite (on_sbs_message_accepted now w s msg Hp Ha) in H.
    inversion H; subst s'; clear H. destruct Ha as [Hnz Ht].
    case_bool_decide as Hd.
    + destruct Hd as [<- _]. unfold count_of. cbn [aircraft set_aircraft].
      rewrite lookup_insert_eq. split; [|eexists; reflexivity].
      unfold updated_record.
      destruct (apply_transmission_seen now msg
                  (Aircraft.set_msg_count
                     (Aircraft.msg_count (record_for s (hex_ident msg)) + 1)
                     (Aircraft.set_last_seen (Some now)
                        (record_for s (hex_ident msg)))) eq_refl) as [_ ->].
      unfold record_for. destruct (aircraft s !! hex_ident msg); reflexivity.
    + cbn [aircraft set_aircraft]. apply lookup_insert_ne.
      intros E. apply Hd. split; assumption.
  - rewrite (on_sbs_message_ignored now w s msg Hp Hn) in H.
    inversion H; subst s'; clear H.
    case_bool_decide as Hd; [|reflexivity].
    exfalso. apply Hn. destruct Hd as [Hh Ht]. split; [congruence|exact Ht].
Qed.

(** X9: over a run of message lines that all parse, the message count of
    an address grows by the number of transmissions received from it; its
    record is there as soon as one was received, and is untouched if none
    was. *)
Theorem msg_count_counts_transmissions
    (hex : string) (feed : list (Z * wire)) s s' :
  hex <> "000000"%string ->
  on_sbs_messages feed s = inr s' ->
  count_of hex s' = count_of hex s + transmissions_from hex feed
  /\ (0 < transmissions_from hex feed -> is_Some (aircraft s' !! hex))
  /\ (transmissions_from hex feed = 0 ->
      aircraft s' !! hex = aircraft s !! hex).
Proof.
  intros Hz. unfold transmissions_from. revert s.
  induction feed as [|[now w] feed IH]; intros s H.
  - inversion H; subst. simpl. repeat split; [lia|lia].
  - cbn [on_sbs_messages] in H.
    destruct (on_sbs_message fromString now w s) as [e|s1] eqn:H1;
      [discriminate H|].
    pose proof (on_sbs_message_count hex now w s s1 Hz H1) as Hstep.
    destruct (IH s1 H) as (Hc & Hpos & Hzero).
    cbn [List.filter snd]. destruct (transmission_from hex w).
    + destruct Hstep as [Hc1 Hin]. cbn [length]. rewrite Nat2Z.inj_succ.
      split; [lia|]. split; [|lia]. intros _.
      destruct (Z.eq_dec
        (Z.of_nat (length (List.filter
           (fun e => transmission_from hex (snd e)) feed))) 0) as [E|E].
      * rewrite (Hzero E). exact Hin.
      * apply Hpos. lia.
    + split; [unfold count_of at 2; rewrite <- Hstep; exact Hc|].
      split; [exact Hpos|]. intros E. rewrite (Hzero E). exact Hstep.
Qed.

(** ** Sweeps *)

Lemma lost_aircraft_seen thr now
    (l : list (string * Aircraft.Aircraft number)) lost :
  lost_aircraft thr now l = inr lost ->
  forall k a, (k, a) ∈ l -> is_Some (Aircraft.last_seen a).
Proof.
  revert lost; induction l as [|[k0 a0] l IH]; intros lost H k a Hin.
  - inversion Hin.
  - simpl in H. destruct (Aircraft.last_seen a0) as [t0|] eqn:Hs;
      [|discriminate H].
    destruct (lost_aircraft thr now l) as [e|lost0] eqn:Hl; [discriminate H|].
    apply elem_of_cons in Hin as [Heq|Hin].
    + inversion Heq; subst. rewrite Hs. eexists; reflexivity.
    + eapply IH; [reflexivity|exact Hin].
Qed.

(** A sweep that returns ran over records that had all been seen. *)
Lemma discard_lost_aircraft_seen thr now m m' :
  discard_lost_aircraft thr now m = inr m' -> all_seen m.
Proof.
  unfold discard_lost_aircraft.
  destruct (lost_aircraft thr now (map_to_list m)) as [e|lost] eqn:Hl;
    [discriminate|].
  intros _ k a Hk. eapply lost_aircraft_seen; [exact Hl|].
  apply elem_of_map_to_list. exact Hk.
Qed.

Lemma discard_lost_aircraft_keeps_seen thr now m m' :
  discard_lost_aircraft thr now m = inr m' -> all_seen m'.
Proof.
  intros H k a Hk. pose proof (discard_lost_aircraft_seen _ _ _ _ H) as Hm.
  rewrite (discard_lost_aircraft_lookup _ _ _ _ k H) in Hk.
  destruct (m !! k) as [a0|] eqn:E; [|discriminate Hk].
  destruct (Hm k a0 E) as [t Ht]. rewrite Ht in Hk.
  destruct (now - t >? thr); [discriminate Hk|].
  inversion Hk; subst. eexists; exact Ht.
Qed.

(** X10: sweeps compose: a sweep followed by a sweep at the same or a
    later time leaves what the later sweep alone would have left; in
    particular a sweep repeated at the same time changes nothing more. *)
Theorem sweeps_compose (thr now now' : Z) m m1 :
  now <= now' ->
  discard_lost_aircraft thr now m = inr m1 ->
  exists m2,
    discard_lost_aircraft thr now' m1 = inr m2
    /\ discard_lost_aircraft thr now' m = inr m2
    /\ (now' = now -> m2 = m1).
Proof.
  intros Hle H1.
  pose proof (discard_lost_aircraft_seen _ _ _ _ H1) as Hs.
  pose proof (discard_lost_aircraft_keeps_seen _ _ _ _ H1) as Hs1.
  destruct (discard_lost_aircraft_total thr now' m1 Hs1) as [m2 H2].
  destruct (discard_lost_aircraft_total thr now' m Hs) as [m3 H3].
  assert (E23 : m2 = m3).
  { apply map_eq. intros k.
    rewrite (discard_lost_aircraft_lookup _ _ _ _ k H2),
            (discard_lost_aircraft_lookup _ _ _ _ k H3),
            (discard_lost_aircraft_lookup _ _ _ _ k H1).
    destruct (m !! k) as [a|] eqn:E; [|reflexivity].
    destruct (Hs k a E) as [t Ht]. rewrite Ht.
    destruct (now - t >? thr) eqn:G1.
    - apply Z.gtb_gt in G1.
      replace (now' - t >? thr) with true
        by (symmetry; apply Z.gtb_gt; lia).
      reflexivity.
    - rewrite Ht. reflexivity. }
  subst m3. exists m2. split; [exact H2|]. split; [exact H3|].
  intros ->. congruence.
Qed.

(** X11: an aircraft that has just sent a transmission outlives every
    sweep that runs within the expiry threshold of that message. *)
Theorem fresh_record_survives_sweep (now now' : Z) (w : wire) s msg :
  all_seen (aircraft s) ->
  fromString w = Some msg -> accepted msg ->
  now' - now <= expiry_threshold s ->
  exists s' s'' ac,
    on_sbs_message fromString now w s = inr s'
    /\ manage_session_tick now' s' = inr s''
    /\ aircraft s' !! hex_ident msg = Some ac
    /\ aircraft s'' !! hex_ident msg = Some ac.
Proof.
  intros Hs Hp Ha Hnow.
  rewrite (on_sbs_message_accepted now w s msg Hp Ha).
  set (ac := updated_record now msg (record_for s (hex_ident msg))).
  set (s' := set_aircraft _ _).
  assert (Hseen : Aircraft.last_seen ac = Some now).
  { unfold ac, updated_record.
    apply (apply_transmission_seen now msg
             (Aircraft.set_msg_count
                (Aircraft.msg_count (record_for s (hex_ident msg)) + 1)
                (Aircraft.set_last_seen (Some now)
                   (record_for s (hex_ident msg)))) eq_refl). }
  assert (Hthr : expiry_threshold s' = expiry_threshold s)
    by (unfold s'; destruct (archiving_enabled s); reflexivity).
  assert (Hs' : all_seen (aircraft s')).
  { intros k a Hk. unfold s' in Hk. cbn [aircraft set_aircraft] in Hk.
    rewrite lookup_insert in Hk. case_decide.
    - inversion Hk; subst a. rewrite Hseen. eexists; reflexivity.
    - exact (Hs k a Hk). }
  destruct (discard_lost_aircraft_total (expiry_threshold s') now'
              (aircraft s') Hs') as [m' Hd].
  exists s', (set_aircraft m' s'), ac.
  split; [reflexivity|]. unfold manage_session_tick. rewrite Hd.
  split; [reflexivity|].
  assert (Hl : aircraft s' !! hex_ident msg = Some ac)
    by (unfold s'; cbn [aircraft set_aircraft]; apply lookup_insert_eq).
  split; [exact Hl|]. cbn [aircraft set_aircraft].
  rewrite (discard_lost_aircraft_lookup _ _ _ _ (hex_ident msg) Hd), Hl, Hseen.
  replace (now' - now >? expiry_threshold s') with false; [reflexivity|].
  symmetry. rewrite Z.gtb_ltb. apply Z.ltb_ge. lia.
Qed.

(** ** Saving and restoring *)

(** [Session.stop_recording] *)
Definition stop_recording s : Session number wire :=
  if archiving_enabled s then
    {| origin := origin s; aircraft := aircraft s;
       expiry_threshold := expiry_threshold s;
       archiving_enabled := false;
       logfile := logfile s; cache_enabled := cache_enabled s |}
  else s.

(** [Session.close], as far as the state goes: recording stops and, when
    the cache is enabled, the aircraft map is written to the cache file;
    the result is the session and what the cache file then holds, given
    what it held. *)
Definition close (cache : option (gmap string (Aircraft.Aircraft number))) s
  : Session number wire * option (gmap string (Aircraft.Aircraft number)) :=
  (stop_recording s,
   if cache_enabled s then Some (aircraft s) else cache).

(** X12: a session that saves its map on [close] gets it back whole: a
    session constructed over that cache file, at a time when none of the
    saved records is older than the expiry threshold, starts with exactly
    the saved aircraft map. *)
Theorem close_then_restore
    cache s (minutes : Z) (origin' : option (Aircraft.Position number))
    (now : Z) :
  cache_enabled s = true ->
  all_seen (aircraft s) ->
  (forall k a t, aircraft s !! k = Some a -> Aircraft.last_seen a = Some t ->
     now - t <= timedelta_minutes minutes) ->
  exists s2 : Session number wire,
    init false None true (snd (close cache s)) minutes origin' now = inr s2
    /\ aircraft s2 = aircraft s.
Proof.
  intros Hc Hs Hfresh. unfold close. rewrite Hc. cbn [snd init andb].
  unfold load_aircraft_cache. cbn [expiry_threshold].
  destruct (discard_lost_aircraft_total (timedelta_minutes minutes) now
              (aircraft s) Hs) as [m' Hd].
  rewrite Hd.
  assert (E : m' = aircraft s).
  { apply map_eq. intros k.
    rewrite (discard_lost_aircraft_lookup _ _ _ _ k Hd).
    destruct (aircraft s !! k) as [a|] eqn:Hk; [|reflexivity].
    destruct (Hs k a Hk) as [t Ht]. rewrite Ht.
    replace (now - t >? timedelta_minutes minutes) with false; [reflexivity|].
    symmetry. rewrite Z.gtb_ltb. apply Z.ltb_ge. eapply Hfresh; eassumption. }
  subst m'. case_bool_decide as He.
  - eexists. split; [reflexivity|]. simpl. symmetry. exact He.
  - eexists. split; [reflexivity|]. reflexivity.
Qed.

End WithParser.

(** ** A session over integer payloads *)

(** An identification message and a status message of the aircraft of the
    scenario. *)
Definition ident_message : SBSMessage Z :=
  {| message_type := Transmission;
     transmission_type := Some 1;
     session_id := 1; aircraft_id := 1;
     hex_ident := "7C79B7";
     flight_id := 1;
     generated_date := generated_date Examples.msg3;
     generated_time := generated_time Examples.msg3;
     logged_date := logged_date Examples.msg3;
     logged_time := logged_time Examples.msg3;
     callsign := Some "QFA123"%string;
     altitude := None; ground_speed := None; track := None;
     lat := None; lon := None; vertical_rate := None; squawk := None;
     alert := None; emergency := None; spi := None; is_on_ground := None |}.

Definition status_message : SBSMessage Z :=
  {| message_type := Status;
     transmission_type := None;
     session_id := 1; aircraft_id := 1;
     hex_ident := "7C79B7";
     flight_id := 1;
     generated_date := generated_date Examples.msg3;
     generated_time := generated_time Examples.msg3;
     logged_date := logged_date Examples.msg3;
     logged_time := logged_time Examples.msg3;
     callsign := None;
     altitude := None; ground_speed := None; track := None;
     lat := None; lon := None; vertical_rate := None; squawk := None;
     alert := None; emergency := None; spi := None; is_on_ground := None |}.

(** A parser that knows four lines. *)
Definition parse (line : string) : option (SBSMessage Z) :=
  if String.eqb line "ident" then Some ident_message
  else if String.eqb line "status" then Some status_message
  else Examples.parse line.

Lemma accepted_message_effect_witness :
  exists s' ac',
    on_sbs_message parse 9 "ident"%string (Examples.tracking 5) = inr s'
    /\ aircraft s' !! "7C79B7"%string = Some ac'
    /\ Aircraft.last_seen ac' = Some 9
    /\ Aircraft.msg_count ac'
       = match aircraft (Examples.tracking 5) !! "7C79B7"%string with
         | Some ac => Aircraft.msg_count ac + 1
         | None => 1
         end
    /\ Aircraft.origin ac'
       = match aircraft (Examples.tracking 5) !! "7C79B7"%string with
         | Some ac => Aircraft.origin ac
         | None => origin (Examples.tracking 5)
         end
    /\ (forall k, k <> "7C79B7"%string ->
          aircraft s' !! k = aircraft (Examples.tracking 5) !! k)
    /\ logfile s'
       = (if archiving_enabled (Examples.tracking 5)
          then logfile (Examples.tracking 5) ++ ["ident"%string]
          else logfile (Examples.tracking 5))
    /\ origin s' = origin (Examples.tracking 5)
    /\ expiry_threshold s' = expiry_threshold (Examples.tracking 5)
    /\ archiving_enabled s' = archiving_enabled (Examples.tracking 5).
Proof.
  apply (accepted_message_effect parse 9 "ident"%string
           (Examples.tracking 5) ident_message).
  - reflexivity.
  - split; [discriminate|reflexivity].
Defined.

Lemma non_transmission_ignored_witness :
  on_sbs_message parse 9 "status"%string (Examples.tracking 5)
  = inr (Examples.tracking 5).
Proof.
  apply (non_transmission_ignored parse 9 "status"%string
           (Examples.tracking 5) status_message).
  - reflexivity.
  - discriminate.
Defined.

Lemma only_position_reports_move_witness :
  exists s' ac',
    on_sbs_message parse 9 "ident"%string (Examples.tracking 5) = inr s'
    /\ aircraft s' !! hex_ident ident_message = Some ac'
    /\ match aircraft (Examples.tracking 5) !! hex_ident ident_message with
       | Some ac =>
           Aircraft.position ac' = Aircraft.position ac
           /\ Aircraft.history ac' = Aircraft.history ac
       | None =>
           Aircraft.position ac' = (None, None)
           /\ Aircraft.path ac' = []
       end.
Proof.
  apply (only_position_reports_move parse 9 "ident"%string
           (Examples.tracking 5) ident_message).
  - reflexivity.
  - split; [discriminate|reflexivity].
  - intros [H|H]; discriminate H.
Defined.

Example run_of_four_lines :
  match on_sbs_messages parse
          [(1, "good"); (2, "status"); (3, "zero"); (4, "ident")]%string
          Examples.fresh with
  | inr s' =>
      option_map (fun ac => (Aircraft.msg_count ac, Aircraft.callsign ac,
                             Aircraft.last_seen ac, Aircraft.path ac))
        (aircraft s' !! "7C79B7"%string)
      = Some (2, Some "QFA123"%string, Some 4,
              [(1, Some (-3484658), Some 13867962, Some 2850)])
  | inl _ => False
  end.
Proof.
  unfold on_sbs_messages, on_sbs_message. simpl.
  rewrite lookup_empty. simpl. rewrite !lookup_insert_eq. simpl.
  rewrite !lookup_insert_eq. reflexivity.
Qed.

(** A run of four lines: a position report, a status message, a report
    from the zero address and an identification. *)
Definition four_lines : list (Z * string) :=
  [(1, "good"); (2, "status"); (3, "zero"); (4, "ident")]%string.

(** The session after that run. *)
Definition after_four_lines : Session Z string :=
  set_aircraft
    {[ "7C79B7"%string :=
         Aircraft.set_callsign (Some "QFA123"%string)
           (Aircraft.set_msg_count 2
              (Aircraft.set_last_seen (Some 4) (Examples.seen_at 1))) ]}
    Examples.fresh.

Lemma msg_count_counts_transmissions_witness :
  count_of "7C79B7" after_four_lines
  = count_of "7C79B7" Examples.fresh
    + transmissions_from parse "7C79B7" four_lines
  /\ (0 < transmissions_from parse "7C79B7" four_lines ->
      is_Some (aircraft after_four_lines !! "7C79B7"%string))
  /\ (transmissions_from parse "7C79B7" four_lines = 0 ->
      aircraft after_four_lines !! "7C79B7"%string
      = aircraft Examples.fresh !! "7C79B7"%string).
Proof.
  apply (msg_count_counts_transmissions parse "7C79B7" four_lines
           Examples.fresh after_four_lines).
  - discriminate.
  - vm_compute. reflexivity.
Defined.

Lemma sweeps_compose_witness :
  exists m2,
    discard_lost_aircraft 120000000 300000000
      (∅ : gmap string (Aircraft.Aircraft Z)) = inr m2
    /\ discard_lost_aircraft 120000000 300000000
         (aircraft (Examples.tracking 5)) = inr m2
    /\ (300000000 = 200000000 -> m2 = ∅).
Proof.
  apply (sweeps_compose 120000000 200000000 300000000
           (aircraft (Examples.tracking 5)) ∅).
  - lia.
  - vm_compute. reflexivity.
Defined.

Lemma fresh_record_survives_sweep_witness :
  exists s' s'' ac,
    on_sbs_message parse 1000000 "good"%string (Examples.tracking 5) = inr s'
    /\ manage_session_tick 2000000 s' = inr s''
    /\ aircraft s' !! hex_ident Examples.msg3 = Some ac
    /\ aircraft s'' !! hex_ident Examples.msg3 = Some ac.
Proof.
  apply (fresh_record_survives_sweep parse 1000000 2000000 "good"%string
           (Examples.tracking 5) Examples.msg3).
  - apply Examples.all_seen_tracking.
  - reflexivity.
  - split; [discriminate|reflexivity].
  - vm_compute. discriminate.
Defined.

(** The tracking session with its cache enabled. *)
Definition tracking_cached (t : Z) : Session Z string :=
  {| origin := None; aircraft := aircraft (Examples.tracking t);
     expiry_threshold := timedelta_minutes 2;
     archiving_enabled := false; logfile := []; cache_enabled := true |}.

Lemma close_then_restore_witness :
  exists s2 : Session Z string,
    init false None true (snd (close None (tracking_cached 5))) 2 None
      100000000 = inr s2
    /\ aircraft s2 = aircraft (tracking_cached 5).
Proof.
  apply (close_then_restore None (tracking_cached 5) 2 None 100000000).
  - reflexivity.
  - apply Examples.all_seen_tracking.
  - intros k a t Hk Ht. cbn in Hk.
    apply lookup_singleton_Some in Hk as [_ <-].
    inversion Ht; subst. vm_compute. discriminate.
Defined.

End SessionRun.

(* ===================================================================== *)
(** * Recording: [start_recording] and [stop_recording]                  *)
(* ===================================================================== *)

(** [Client] and [Session] carry the same two methods over the same three
    attributes. *)
Module Recording.

Record Recorder := {
  record_file : option string;
  archiving_enabled : bool;
  (** the file of the open [RotatingArchiveFileHandler], if any *)
  logfile : option string
}.

(** [a or b] on optional strings: [None] and [""] are false. *)
Definition or_else (a b : option string) : option string :=
  match a with
  | Some EmptyString | None => b
  | Some _ => a
  end.

(** [start_recording(record_file=None)]: [inl Exception] is
    "No recording log file specified". *)
Definition start_recording (file : option string) (r : Recorder)
  : result Recorder :=
  match or_else file (record_file r) with
  | None => inl Exception
  | Some f =>
      if negb (archiving_enabled r) then
        inr {| record_file := record_file r;
               archiving_enabled := true;
               logfile := Some f |}
      else inr r
  end.

(** [stop_recording()] *)
Definition stop_recording (r : Recorder) : Recorder :=
  if archiving_enabled r then
    {| record_file := record_file r;
       archiving_enabled := false;
       logfile := None |}
  else r.

(** X13: while recording is on, [start_recording] never changes the
    recorder, whatever file it is given: it raises exactly when no file
    name is given or configured (the file is looked at before the
    recording flag) and returns without effect otherwise;
    [stop_recording] turns recording off and drops the handler, and a
    [stop_recording] after a stop changes nothing. *)
Theorem recording_is_idempotent (file file' : option string) (r r' : Recorder) :
  start_recording file r = inr r' ->
  archiving_enabled r' = true
  /\ start_recording file' r'
     = match or_else file' (record_file r') with
       | None => inl Exception
       | Some _ => inr r'
       end
  /\ stop_recording (stop_recording r') = stop_recording r'
  /\ archiving_enabled (stop_recording r') = false
  /\ logfile (stop_recording r') = None.
Proof.
  unfold start_recording. intros H.
  destruct (or_else file (record_file r)) as [f|]; [|discriminate H].
  assert (Ha : archiving_enabled r' = true).
  { destruct (archiving_enabled r) eqn:E; inversion H; subst; auto. }
  split; [exact Ha|]. split.
  - destruct (or_else file' (record_file r')) as [f'|]; [|reflexivity].
    rewrite Ha. reflexivity.
  - unfold stop_recording. rewrite Ha. simpl. auto.
Qed.

Lemma recording_is_idempotent_witness :
  let r' := {| record_file := None; archiving_enabled := true;
               logfile := Some "a.txt"%string |} in
  archiving_enabled r' = true
  /\ start_recording None r'
     = match or_else None (record_file r') with
       | None => inl Exception
       | Some _ => inr r'
       end
  /\ stop_recording (stop_recording r') = stop_recording r'
  /\ archiving_enabled (stop_recording r') = false
  /\ logfile (stop_recording r') = None.
Proof.
  intros r'.
  apply (recording_is_idempotent (Some "a.txt"%string) None
           {| record_file := None; archiving_enabled := false;
              logfile := None |} r').
  reflexivity.
Defined.

End Recording.

(* ===================================================================== *)
(** * The life of a client: [Client.start] and [Client.stop]             *)
(* ===================================================================== *)

Module ClientLife.

(** The attributes of [Client] that [start] and [stop] read and write.
    [wait_closed] tells whether the future of that name of the stored
    protocol is resolved, which [connection_lost] does.  A protocol whose
    buffer is [None] has not been connected, or has lost its
    connection. *)
Record Client := {
  protocol : option Protocol.SBSProtocol;
  wait_closed : bool;
  record : bool;
  recorder : Recording.Recorder
}.

(** How a call ends: it returns, it raises, or it waits for ever on a
    future that nothing resolves.  The client is given as the call leaves
    it. *)
Inductive Failure : Type :=
| AlreadyRunning
| NoRecordingFile
| ConnectionFailed.

Inductive Outcome : Type :=
| Returned (c : Client)
| Raised (e : Failure) (c : Client)
| Pending (c : Client).

(** [Client.__init__]: recording without a file name is refused. *)
Definition init (record : bool) (record_file : option string)
  : result Client :=
  if record && negb (bool_decide (is_Some record_file)) then inl Exception
  else inr {| protocol := None;
              wait_closed := false;
              record := record;
              recorder := {| Recording.record_file := record_file;
                             Recording.archiving_enabled := false;
                             Recording.logfile := None |} |}.

Definition set_protocol (p : option Protocol.SBSProtocol) (c : Client)
  : Client :=
  {| protocol := p; wait_closed := wait_closed c; record := record c;
     recorder := recorder c |}.

Definition set_recorder (r : Recording.Recorder) (c : Client) : Client :=
  {| protocol := protocol c; wait_closed := wait_closed c;
     record := record c; recorder := r |}.

Definition set_wait_closed (b : bool) (c : Client) : Client :=
  {| protocol := protocol c; wait_closed := b; record := record c;
     recorder := recorder c |}.

(** [Client.connect]: the protocol object, made with futures that are
    not resolved, is stored before the connection is attempted;
    [reachable] tells whether [create_connection] succeeds, in which case
    [connection_made] has run when [connect] returns. *)
Definition connect (reachable : bool) (c : Client) : Outcome :=
  let p := {| Protocol.buf := None; Protocol.on_message_received := true |} in
  let c := set_wait_closed false c in
  if reachable
  then Returned (set_protocol (Some (Protocol.connection_made p)) c)
  else Raised ConnectionFailed (set_protocol (Some p) c).

(** The transport reports that the connection is lost:
    [SBSProtocol.connection_lost] runs on the stored protocol. *)
Definition connection_lost (c : Client) : Client :=
  match protocol c with
  | Some p =>
      set_wait_closed true
        (set_protocol (Some (Protocol.connection_lost p)) c)
  | None => c
  end.

(** [Client.start] *)
Definition start (reachable : bool) (c : Client) : Outcome :=
  match protocol c with
  | Some _ => Raised AlreadyRunning c
  | None =>
      if record c then
        match Recording.start_recording
                (Recording.record_file (recorder c)) (recorder c) with
        | inl _ => Raised NoRecordingFile c
        | inr r => connect reachable (set_recorder r c)
        end
      else connect reachable c
  end.

(** [Client.disconnect]: [close] aborts the transport of a connected
    protocol, upon which [connection_lost] resolves [wait_closed]; after
    a connection that was lost the future is resolved already; on a
    protocol that was never connected nothing resolves it. *)
Definition disconnect (c : Client) : Outcome :=
  match protocol c with
  | None => Returned c
  | Some p =>
      match Protocol.buf p with
      | Some _ => Returned (set_protocol None c)
      | None =>
          if wait_closed c then Returned (set_protocol None c)
          else Pending c
      end
  end.

(** [Client.stop] *)
Definition stop (c : Client) : Outcome :=
  disconnect (set_recorder (Recording.stop_recording (recorder c)) c).

(** X14: a client cannot be started twice: [start] on a client that holds
    a protocol raises and leaves it as it is.  That is so after a start
    that succeeded and also after one whose connection attempt failed,
    since the protocol is stored before the attempt. *)
Theorem start_twice_raises (reachable reachable' : bool) (c : Client) :
  protocol c = None ->
  (record c = true ->
   is_Some (Recording.or_else (Recording.record_file (recorder c)) None)) ->
  exists c',
    start reachable c
    = (if reachable then Returned c' else Raised ConnectionFailed c')
    /\ is_Some (protocol c')
    /\ Recording.archiving_enabled (recorder c')
       = (record c || Recording.archiving_enabled (recorder c))
    /\ start reachable' c' = Raised AlreadyRunning c'.
Proof.
  intros Hp Hf. unfold start. rewrite Hp.
  assert (Hstart : forall c0, protocol c0 = None -> exists c',
    connect reachable c0
    = (if reachable then Returned c' else Raised ConnectionFailed c')
    /\ is_Some (protocol c') /\ recorder c' = recorder c0
    /\ record c' = record c0).
  { intros c0 _. unfold connect. destruct reachable; eexists;
      (split; [reflexivity|]); (split; [eexists; reflexivity|]);
      split; reflexivity. }
  destruct (record c) eqn:Hr.
  - specialize (Hf eq_refl). unfold Recording.start_recording.
    destruct (Recording.record_file (recorder c)) as [f|] eqn:Hfile;
      [|destruct Hf as [? Hf]; discriminate Hf].
    assert (Hor : Recording.or_else (Some f) (Some f) = Some f)
      by (destruct f; reflexivity).
    rewrite Hor.
    destruct (Recording.archiving_enabled (recorder c)) eqn:Ha; simpl.
    + destruct (Hstart (set_recorder (recorder c) c) Hp)
        as (c' & H1 & H2 & H3 & H4).
      exists c'. split; [exact H1|]. split; [exact H2|].
      split; [rewrite H3; exact Ha|].
      destruct H2 as [p Hp']. rewrite Hp'. reflexivity.
    + destruct (Hstart
        (set_recorder {| Recording.record_file := Some f;
                         Recording.archiving_enabled := true;
                         Recording.logfile := Some f |} c) Hp)
        as (c' & H1 & H2 & H3 & H4).
      exists c'. split; [exact H1|]. split; [exact H2|].
      split; [rewrite H3; reflexivity|].
      destruct H2 as [p Hp']. rewrite Hp'. reflexivity.
  - destruct (Hstart c Hp) as (c' & H1 & H2 & H3 & H4).
    exists c'. split; [exact H1|]. split; [exact H2|].
    split; [rewrite H3; reflexivity|].
    destruct H2 as [p Hp']. rewrite Hp'. reflexivity.
Qed.

(** X15: [stop] on a client that is connected, or that was never started,
    returns and leaves it without protocol and with recording off; a
    second [stop] changes nothing more, and the client can be started
    again. *)
Theorem stop_is_idempotent (reachable : bool) (c : Client) :
  (forall p, protocol c = Some p -> is_Some (Protocol.buf p)) ->
  exists c',
    stop c = Returned c'
    /\ protocol c' = None
    /\ Recording.archiving_enabled (recorder c') = false
    /\ stop c' = Returned c'
    /\ start reachable c' <> Raised AlreadyRunning c'.
Proof.
  intros Hc.
  exists {| protocol := None; wait_closed := wait_closed c;
            record := record c;
            recorder := Recording.stop_recording (recorder c) |}.
  assert (Hoff : Recording.archiving_enabled
                   (Recording.stop_recording (recorder c)) = false).
  { unfold Recording.stop_recording.
    destruct (Recording.archiving_enabled (recorder c)) eqn:E;
      [reflexivity|exact E]. }
  assert (Hidem : Recording.stop_recording
                    (Recording.stop_recording (recorder c))
                  = Recording.stop_recording (recorder c)).
  { unfold Recording.stop_recording at 1. rewrite Hoff. reflexivity. }
  split.
  - unfold stop, disconnect. cbn [protocol set_recorder].
    destruct c as [[p|] wc rec r];
      cbn [protocol wait_closed record recorder] in *; [|reflexivity].
    destruct (Hc p eq_refl) as [b Hb]. rewrite Hb. reflexivity.
  - split; [reflexivity|]. split; [exact Hoff|]. split.
    + unfold stop, disconnect.
      cbn [protocol set_recorder recorder record wait_closed].
      rewrite Hidem. reflexivity.
    + unfold start. cbn [protocol record recorder].
      destruct (record c).
      * destruct (Recording.start_recording _ _); [discriminate|].
        unfold connect. destruct reachable; discriminate.
      * unfold connect. destruct reachable; discriminate.
Qed.

(** A start that is let through goes on to [connect]. *)
Lemma start_connects (reachable : bool) (c : Client) :
  protocol c = None ->
  (record c = true ->
   is_Some (Recording.or_else (Recording.record_file (recorder c)) None)) ->
  exists c0, start reachable c = connect reachable c0.
Proof.
  intros Hp Hf. unfold start. rewrite Hp.
  destruct (record c) eqn:Hr; [|exists c; reflexivity].
  specialize (Hf eq_refl). unfold Recording.start_recording.
  destruct (Recording.record_file (recorder c)) as [f|] eqn:Hfile;
    [|destruct Hf as [? Hf]; discriminate Hf].
  assert (Hor : Recording.or_else (Some f) (Some f) = Some f)
    by (destruct f; reflexivity).
  rewrite Hor.
  destruct (negb (Recording.archiving_enabled (recorder c)));
    eexists; reflexivity.
Qed.

(** X30: what [stop] does after a start.  After a start whose connection
    attempt failed, [stop] never returns: the stored protocol was never
    connected, so nothing resolves the future that [disconnect] waits
    for.  After a start that connected and a connection that was then
    lost, [stop] returns and leaves the client without protocol. *)
Theorem stop_after_start (c : Client) :
  protocol c = None ->
  (record c = true ->
   is_Some (Recording.or_else (Recording.record_file (recorder c)) None)) ->
  (exists c1 c2,
     start false c = Raised ConnectionFailed c1 /\ stop c1 = Pending c2)
  /\ (exists c1 c2,
        start true c = Returned c1
        /\ stop (connection_lost c1) = Returned c2
        /\ protocol c2 = None).
Proof.
  intros Hp Hf. split.
  - destruct (start_connects false c Hp Hf) as [c0 ->].
    eexists. eexists. split; reflexivity.
  - destruct (start_connects true c Hp Hf) as [c0 ->].
    eexists. eexists. split; [reflexivity|]. split; reflexivity.
Qed.

Lemma start_twice_raises_witness :
  exists c',
    start false {| protocol := None; wait_closed := false; record := true;
                   recorder := {| Recording.record_file := Some "a.txt"%string;
                                  Recording.archiving_enabled := false;
                                  Recording.logfile := None |} |}
    = Raised ConnectionFailed c'
    /\ is_Some (protocol c')
    /\ Recording.archiving_enabled (recorder c') = (true || false)
    /\ start true c' = Raised AlreadyRunning c'.
Proof.
  apply (start_twice_raises false true
           {| protocol := None; wait_closed := false; record := true;
              recorder := {| Recording.record_file := Some "a.txt"%string;
                             Recording.archiving_enabled := false;
                             Recording.logfile := None |} |}).
  - reflexivity.
  - intros _. eexists. reflexivity.
Defined.

Lemma stop_is_idempotent_witness :
  exists c',
    stop {| protocol := Some {| Protocol.buf := Some [x41];
                                Protocol.on_message_received := true |};
            wait_closed := false;
            record := true;
            recorder := {| Recording.record_file := Some "a.txt"%string;
                           Recording.archiving_enabled := true;
                           Recording.logfile := Some "a.txt"%string |} |}
    = Returned c'
    /\ protocol c' = None
    /\ Recording.archiving_enabled (recorder c') = false
    /\ stop c' = Returned c'
    /\ start true c' <> Raised AlreadyRunning c'.
Proof.
  apply (stop_is_idempotent true).
  intros p [= <-]. eexists. reflexivity.
Defined.

Lemma stop_after_start_witness :
  (exists c1 c2,
     start false {| protocol := None; wait_closed := false; record := false;
                    recorder := {| Recording.record_file := None;
                                   Recording.archiving_enabled := false;
                                   Recording.logfile := None |} |}
     = Raised ConnectionFailed c1 /\ stop c1 = Pending c2)
  /\ (exists c1 c2,
        start true {| protocol := None; wait_closed := false;
                      record := false;
                      recorder := {| Recording.record_file := None;
                                     Recording.archiving_enabled := false;
                                     Recording.logfile := None |} |}
        = Returned c1
        /\ stop (connection_lost c1) = Returned c2
        /\ protocol c2 = None).
Proof.
  apply (stop_after_start
           {| protocol := None; wait_closed := false; record := false;
              recorder := {| Recording.record_file := None;
                             Recording.archiving_enabled := false;
                             Recording.logfile := None |} |}).
  - reflexivity.
  - discriminate.
Defined.

End ClientLife.

(* ===================================================================== *)
(** * From bytes to callbacks: the client behind its protocol            *)
(* ===================================================================== *)

Module ClientPipeline.

Import Message Client.

Section Pipeline.

Context {number : Type}.
Variable decode : list byte -> option string.
Variable fromString : string -> option (SBSMessage number).





(** The lines handed to the archive. *)
Definition archived (evs : list (Event number)) : list string :=
  flat_map (fun e => match e with Archived t => [t] | _ => [] end) evs.







End Pipeline.




End ClientPipeline.

(* ===================================================================== *)
(** * The server: [adsb/sbs/server.py]                                   *)
(* ===================================================================== *)

Module Server.

Import Protocol Framing.

(** A peer is the [(host, port)] pair that the transport reports. *)
Definition Peer : Type := string * Z.

(** [Server]: [protocols] maps each connected peer to its protocol
    instance. *)
Record Server := {
  protocols : gmap Peer SBSServerProtocol
}.

(** [Server.__init__]. *)
Definition init : Server := {| protocols := ∅ |}.

(** [Server.register_protocol]. *)
Definition register_protocol (peer : Peer) (prot : SBSServerProtocol)
    (s : Server) : Server :=
  {| protocols := <[peer := prot]> (protocols s) |}.

(** [Server.deregister_protocol]: [del] on a missing key is a
    [KeyError]. *)
Definition deregister_protocol (peer : Peer) (s : Server) : result Server :=
  match protocols s !! peer with
  | None => inl KeyError
  | Some _ => inr {| protocols := delete peer (protocols s) |}
  end.

(** [SBSServerProtocol.connection_made]: the protocol takes the
    transport, to which nothing has been written yet, and registers
    itself under the transport's peer name. *)
Definition connection_made (peer : Peer) (s : Server) : Server :=
  register_protocol peer {| transport := Some [] |} s.

(** [SBSServerProtocol.connection_lost]. *)
Definition connection_lost (peer : Peer) (s : Server) : result Server :=
  deregister_protocol peer s.

(** One round of the broadcast loop. *)
Definition broadcast_to (msg : list byte)
    (acc : result (gmap Peer SBSServerProtocol))
    (item : Peer * SBSServerProtocol)
  : result (gmap Peer SBSServerProtocol) :=
  match acc with
  | inl e => inl e
  | inr m' =>
      match Framing.send_message msg false (snd item) with
      | inl e => inl e
      | inr prot' => inr (<[fst item := prot']> m')
      end
  end.

(** The loop of the broadcast branch: every protocol of the dict is sent
    the message; the first exception ends the loop. *)
Definition broadcast (msg : list byte)
    (items : list (Peer * SBSServerProtocol))
    (m : gmap Peer SBSServerProtocol)
  : result (gmap Peer SBSServerProtocol) :=
  fold_left (broadcast_to msg) items (inr m).

(** [Server.send_message(msg, peer=None)].  A peer tuple and a protocol
    instance are always true, so the tests [if peer] and [if prot] are
    tests for [None]. *)
Definition send_message (msg : list byte) (peer : option Peer) (s : Server)
  : result Server :=
  if bool_decide (protocols s = ∅) then inl Exception
  else
    match peer with
    | Some p =>
        match protocols s !! p with
        | Some prot =>
            match Framing.send_message msg false prot with
            | inl e => inl e
            | inr prot' => inr {| protocols := <[p := prot']> (protocols s) |}
            end
        | None => inl Exception
        end
    | None =>
        match broadcast msg (map_to_list (protocols s)) (protocols s) with
        | inl e => inl e
        | inr m' => inr {| protocols := m' |}
        end
    end.

(** Sending a list of messages one after the other. *)
Fixpoint send_messages (msgs : list (list byte)) (peer : option Peer)
    (s : Server) : result Server :=
  match msgs with
  | [] => inr s
  | m :: ms =>
      match send_message m peer s with
      | inl e => inl e
      | inr s' => send_messages ms peer s'
      end
  end.

(** What has been written to a peer so far. *)
Definition written (s : Server) (peer : Peer) : option (list byte) :=
  match protocols s !! peer with
  | Some prot => transport prot
  | None => None
  end.

(** Every registered protocol has its transport; [connection_made] is
    the only place that registers one. *)
Definition connected (s : Server) : Prop :=
  forall peer prot, protocols s !! peer = Some prot -> is_Some (transport prot).

(** The states that a server goes through. *)
Inductive reachable : Server -> Prop :=
| reachable_init : reachable init
| reachable_made peer s :
    reachable s -> reachable (connection_made peer s)
| reachable_lost peer s s' :
    reachable s -> connection_lost peer s = inr s' -> reachable s'
| reachable_sent msg peer s s' :
    reachable s -> send_message msg peer s = inr s' -> reachable s'.

(** ** The broadcast loop *)

Lemma broadcast_step msg items m :
  (forall peer prot, (peer, prot) ∈ items -> is_Some (transport prot)) ->
  NoDup (items.*1) ->
  exists m',
    broadcast msg items m = inr m'
    /\ forall peer,
         m' !! peer
         = match list_to_map (M := gmap Peer SBSServerProtocol) items !! peer with
           | Some prot =>
               Some {| transport := (fun w => w ++ msg) <$> transport prot |}
           | None => m !! peer
           end.
Proof.
  unfold broadcast. revert m.
  induction items as [|[k p] items IH]; intros m Hc Hn.
  - exists m. split; [reflexivity|]. intros peer. simpl.
    rewrite lookup_empty. reflexivity.
  - destruct (Hc k p) as [w Hw]; [left|].
    change (fold_left (broadcast_to msg) ((k, p) :: items) (inr m))
      with (fold_left (broadcast_to msg) items
              (broadcast_to msg (inr m) (k, p))).
    unfold broadcast_to at 2, Framing.send_message. cbn [fst snd].
    rewrite Hw.
    rewrite fmap_cons in Hn. apply NoDup_cons in Hn as [Hk Hn].
    destruct (IH (<[k := {| transport := Some (w ++ msg) |}]> m)) as (m' & Hm & Hl).
    { intros peer prot Hin. apply (Hc peer prot). right. exact Hin. }
    { exact Hn. }
    exists m'. split; [exact Hm|].
    intros peer. rewrite Hl. cbn [list_to_map foldr]. cbn [fst snd uncurry].
    destruct (decide (k = peer)) as [->|Hne].
    + rewrite lookup_insert_eq.
      destruct (list_to_map items !! peer) as [q|] eqn:Hq.
      * exfalso. apply Hk. apply elem_of_list_to_map_2 in Hq.
        apply list_elem_of_fmap. exists (peer, q). split; [reflexivity|exact Hq].
      * rewrite lookup_insert_eq. simpl. rewrite Hw. reflexivity.
    + rewrite !lookup_insert_ne by exact Hne. reflexivity.
Qed.

Lemma broadcast_lookup msg m :
  (forall peer prot, m !! peer = Some prot -> is_Some (transport prot)) ->
  exists m',
    broadcast msg (map_to_list m) m = inr m'
    /\ forall peer,
         m' !! peer
         = (fun prot =>
              {| transport := (fun w => w ++ msg) <$> transport prot |})
             <$> m !! peer.
Proof.
  intros Hc.
  destruct (broadcast_step msg (map_to_list m) m) as (m' & Hb & Hl).
  - intros peer prot Hin. apply elem_of_map_to_list in Hin. eauto.
  - apply NoDup_fst_map_to_list.
  - exists m'. split; [exact Hb|]. intros peer. rewrite Hl.
    rewrite list_to_map_to_list. destruct (m !! peer); reflexivity.
Qed.

(** ** The invariant of the peer table *)

Lemma connected_init : connected init.
Proof. intros peer prot H. unfold init in H. simpl in H.
  rewrite lookup_empty in H. discriminate. Qed.

Lemma connected_made peer s : connected s -> connected (connection_made peer s).
Proof.
  intros Hc q prot. unfold connection_made, register_protocol. simpl.
  destruct (decide (peer = q)) as [->|Hne].
  - rewrite lookup_insert_eq. intros [= <-]. eexists; reflexivity.
  - rewrite lookup_insert_ne by exact Hne. apply Hc.
Qed.

Lemma connected_lost peer s s' :
  connected s -> connection_lost peer s = inr s' -> connected s'.
Proof.
  unfold connection_lost, deregister_protocol. intros Hc H.
  destruct (protocols s !! peer); [|discriminate].
  injection H as <-. intros q prot. simpl.
  destruct (decide (peer = q)) as [->|Hne].
  - rewrite lookup_delete_eq. discriminate.
  - rewrite lookup_delete_ne by exact Hne. apply Hc.
Qed.

(** The broadcast branch on a table of connected peers. *)
Lemma send_message_broadcast msg s :
  connected s -> protocols s <> ∅ ->
  exists s',
    send_message msg None s = inr s'
    /\ forall peer,
         protocols s' !! peer
         = (fun prot =>
              {| transport := (fun w => w ++ msg) <$> transport prot |})
             <$> protocols s !! peer.
Proof.
  intros Hc Hne. unfold send_message.
  rewrite bool_decide_false by exact Hne.
  destruct (broadcast_lookup msg (protocols s) Hc) as (m' & Hb & Hl).
  rewrite Hb. exists {| protocols := m' |}. split; [reflexivity|exact Hl].
Qed.

(** The branch for one peer. *)
Lemma send_message_unicast msg p prot s :
  connected s -> protocols s !! p = Some prot ->
  exists w,
    transport prot = Some w
    /\ send_message msg (Some p) s
       = inr {| protocols :=
                  <[p := {| transport := Some (w ++ msg) |}]> (protocols s) |}.
Proof.
  intros Hc Hp. destruct (Hc p prot Hp) as [w Hw]. exists w.
  split; [exact Hw|]. unfold send_message.
  rewrite bool_decide_false by (intros E; rewrite E, lookup_empty in Hp;
                                discriminate).
  rewrite Hp. unfold Framing.send_message. rewrite Hw. reflexivity.
Qed.

Lemma connected_sent msg peer s s' :
  connected s -> send_message msg peer s = inr s' -> connected s'.
Proof.
  intros Hc H. destruct peer as [p|].
  - destruct (protocols s !! p) as [prot|] eqn:Hp.
    + destruct (send_message_unicast msg p prot s Hc Hp) as (w & Hw & Hs).
      rewrite Hs in H. injection H as <-. intros q prot'. simpl.
      destruct (decide (p = q)) as [->|Hne].
      * rewrite lookup_insert_eq. intros [= <-]. eexists; reflexivity.
      * rewrite lookup_insert_ne by exact Hne. apply Hc.
    + unfold send_message in H. rewrite Hp in H.
      destruct (bool_decide (protocols s = ∅)); discriminate.
  - destruct (decide (protocols s = ∅)) as [E|Hne].
    + unfold send_message in H. rewrite bool_decide_true in H by exact E.
      discriminate.
    + destruct (send_message_broadcast msg s Hc Hne) as (s1 & Hs & Hl).
      rewrite Hs in H. injection H as <-. intros q prot'. rewrite Hl.
      destruct (protocols s !! q) as [prot|] eqn:Hq; [|discriminate].
      simpl. intros [= <-]. simpl.
      destruct (Hc q prot Hq) as [w ->]. eexists; reflexivity.
Qed.

Lemma reachable_connected s : reachable s -> connected s.
Proof.
  induction 1 as [|peer s _ IH|peer s s' _ IH H|msg peer s s' _ IH H].
  - exact connected_init.
  - exact (connected_made _ _ IH).
  - exact (connected_lost _ _ _ IH H).
  - exact (connected_sent _ _ _ _ IH H).
Qed.

Lemma written_broadcast msg s s' :
  (forall peer,
     protocols s' !! peer
     = (fun prot =>
          {| transport := (fun w => w ++ msg) <$> transport prot |})
         <$> protocols s !! peer) ->
  forall peer, written s' peer = (fun w => w ++ msg) <$> written s peer.
Proof.
  intros Hl peer. unfold written. rewrite Hl.
  destruct (protocols s !! peer) as [prot|]; reflexivity.
Qed.


(** X17: a broadcast on a server with connected peers returns; every
    registered peer has the message appended to what was written to it
    before, no peer joins or leaves the table, and the table stays
    connected. *)
Theorem broadcast_reaches_every_peer (msg : list byte) (s : Server) :
  connected s -> protocols s <> ∅ ->
  exists s',
    send_message msg None s = inr s'
    /\ (forall peer,
          written s' peer = (fun w => w ++ msg) <$> written s peer)
    /\ (forall peer,
          is_Some (protocols s' !! peer) <-> is_Some (protocols s !! peer))
    /\ connected s'.
Proof.
  intros Hc Hne.
  destruct (send_message_broadcast msg s Hc Hne) as (s' & Hs & Hl).
  exists s'. split; [exact Hs|]. split; [|split].
  - exact (written_broadcast msg s s' Hl).
  - intros peer. rewrite Hl. rewrite fmap_is_Some. reflexivity.
  - exact (connected_sent _ _ _ _ Hc Hs).
Qed.

(** X18: a message addressed to a registered peer is appended to what was
    written to that peer and to no other; the entries of all other peers
    are untouched. *)
Theorem unicast_reaches_one_peer (msg : list byte) (p : Peer) (s : Server) :
  connected s -> is_Some (protocols s !! p) ->
  exists s',
    send_message msg (Some p) s = inr s'
    /\ written s' p = (fun w => w ++ msg) <$> written s p
    /\ is_Some (written s' p)
    /\ forall q, q <> p -> protocols s' !! q = protocols s !! q.
Proof.
  intros Hc [prot Hp].
  destruct (send_message_unicast msg p prot s Hc Hp) as (w & Hw & Hs).
  eexists. split; [exact Hs|]. unfold written. simpl.
  rewrite lookup_insert_eq, Hp, Hw. simpl.
  split; [reflexivity|]. split; [eexists; reflexivity|].
  intros q Hq. rewrite lookup_insert_ne by congruence. reflexivity.
Qed.

(** X19: on a server reached by connections made and lost and messages
    sent, [send_message] raises nothing but [Exception], and raises it
    exactly when no peer is registered or the addressed peer is not. *)
Theorem send_message_raises (msg : list byte) (peer : option Peer)
    (s : Server) :
  reachable s ->
  (forall e, send_message msg peer s = inl e -> e = Exception)
  /\ (send_message msg peer s = inl Exception
      <-> protocols s = ∅
          \/ exists p, peer = Some p /\ protocols s !! p = None).
Proof.
  intros Hr. pose proof (reachable_connected s Hr) as Hc.
  destruct (decide (protocols s = ∅)) as [E|Hne].
  - unfold send_message. rewrite bool_decide_true by exact E.
    split; [intros e [= <-]; reflexivity|].
    split; [left; exact E|reflexivity].
  - destruct peer as [p|].
    + destruct (protocols s !! p) as [prot|] eqn:Hp.
      * destruct (send_message_unicast msg p prot s Hc Hp) as (w & _ & ->).
        split; [discriminate|]. split; [discriminate|].
        intros [E|(q & [= <-] & Hq)]; congruence.
      * unfold send_message. rewrite bool_decide_false by exact Hne.
        rewrite Hp. split; [intros e [= <-]; reflexivity|].
        split; [|reflexivity]. intros _. right. exists p. split; [|exact Hp].
        reflexivity.
    + destruct (send_message_broadcast msg s Hc Hne) as (s' & -> & _).
      split; [discriminate|]. split; [discriminate|].
      intros [E|(q & Hq & _)]; [congruence|discriminate].
Qed.

(** X20: once a peer's connection is lost the peer is out of reach: a
    message addressed to it raises [Exception], a second loss raises
    [KeyError], a broadcast writes nothing to it, and what was written to
    the other peers is as before. *)
Theorem lost_peer_receives_nothing (msg : list byte) (p : Peer)
    (s s' : Server) :
  connection_lost p s = inr s' ->
  send_message msg (Some p) s' = inl Exception
  /\ connection_lost p s' = inl KeyError
  /\ (forall s'', send_message msg None s' = inr s'' ->
                  protocols s'' !! p = None)
  /\ forall q, q <> p -> written s' q = written s q.
Proof.
  unfold connection_lost, deregister_protocol. intros H.
  destruct (protocols s !! p) as [prot|] eqn:Hp; [|discriminate].
  injection H as <-.
  assert (Hd : delete p (protocols s) !! p = None) by apply lookup_delete_eq.
  split; [|split; [|split]].
  - unfold send_message. simpl. rewrite Hd.
    destruct (bool_decide _); reflexivity.
  - simpl. rewrite Hd. reflexivity.
  - intros s''. unfold send_message. simpl.
    destruct (bool_decide _); [discriminate|].
    unfold broadcast.
    set (m := delete p (protocols s)) in *.
    assert (G : forall items acc m',
               (forall prot', (p, prot') ∉ items) ->
               (forall m0, acc = inr m0 -> m0 !! p = None) ->
               fold_left (broadcast_to msg) items acc = inr m' ->
               m' !! p = None).
    { induction items as [|[k q] items IH]; intros acc m' Hn Ha Hf.
      - simpl in Hf. exact (Ha _ Hf).
      - simpl in Hf. apply (IH _ _ (fun prot' Hin => Hn prot' (list_elem_of_further _ _ _ Hin))) in Hf;
          [exact Hf|].
        intros m0. unfold broadcast_to. destruct acc as [e|m1]; [discriminate|].
        cbn [fst snd]. destruct (Framing.send_message msg false q);
          [discriminate|].
        intros [= <-]. rewrite lookup_insert_ne.
        + exact (Ha _ eq_refl).
        + intros ->. apply (Hn q). left. }
    destruct (fold_left _ _ _) as [e|m'] eqn:Hf; [discriminate|].
    intros [= <-]. simpl. apply (G _ _ _) with (3 := Hf).
    + intros prot' Hin. apply elem_of_map_to_list in Hin. congruence.
    + intros m0 [= <-]. exact Hd.
  - intros q Hq. unfold written. simpl.
    rewrite lookup_delete_ne by congruence. reflexivity.
Qed.


(** ** A server with two peers *)

Definition alice : Peer := ("127.0.0.1"%string, 50001).
Definition bob : Peer := ("127.0.0.1"%string, 50002).

Definition two_peers : Server := connection_made bob (connection_made alice init).

Lemma two_peers_reachable : reachable two_peers.
Proof. repeat constructor. Qed.

Lemma two_peers_nonempty : protocols two_peers <> ∅.
Proof. apply insert_non_empty. Qed.

Lemma broadcast_reaches_every_peer_witness :
  exists s',
    send_message [x41; x0d; x0a] None two_peers = inr s'
    /\ (forall peer,
          written s' peer
          = (fun w => w ++ [x41; x0d; x0a]) <$> written two_peers peer)
    /\ (forall peer,
          is_Some (protocols s' !! peer)
          <-> is_Some (protocols two_peers !! peer))
    /\ connected s'.
Proof.
  apply (broadcast_reaches_every_peer [x41; x0d; x0a] two_peers).
  - exact (reachable_connected _ two_peers_reachable).
  - exact two_peers_nonempty.
Defined.

Lemma unicast_reaches_one_peer_witness :
  exists s',
    send_message [x41; x0d; x0a] (Some alice) two_peers = inr s'
    /\ written s' alice
       = (fun w => w ++ [x41; x0d; x0a]) <$> written two_peers alice
    /\ is_Some (written s' alice)
    /\ forall q, q <> alice -> protocols s' !! q = protocols two_peers !! q.
Proof.
  apply (unicast_reaches_one_peer [x41; x0d; x0a] alice two_peers).
  - exact (reachable_connected _ two_peers_reachable).
  - eexists. vm_compute. reflexivity.
Defined.

Lemma send_message_raises_witness :
  (forall e,
     send_message [x41] (Some ("10.0.0.1"%string, 1)) two_peers = inl e ->
     e = Exception)
  /\ (send_message [x41] (Some ("10.0.0.1"%string, 1)) two_peers
        = inl Exception
      <-> protocols two_peers = ∅
          \/ exists p, Some ("10.0.0.1"%string, 1) = Some p
                       /\ protocols two_peers !! p = None).
Proof.
  apply (send_message_raises [x41] (Some ("10.0.0.1"%string, 1)) two_peers).
  exact two_peers_reachable.
Defined.

Lemma lost_peer_receives_nothing_witness :
  send_message [x41] (Some bob) (connection_made alice init) = inl Exception
  /\ connection_lost bob (connection_made alice init) = inl KeyError
  /\ (forall s'',
        send_message [x41] None (connection_made alice init) = inr s'' ->
        protocols s'' !! bob = None)
  /\ forall q, q <> bob ->
       written (connection_made alice init) q = written two_peers q.
Proof.
  apply (lost_peer_receives_nothing [x41] bob two_peers
           (connection_made alice init)).
  vm_compute. reflexivity.
Defined.


(** The run behind the last statement, evaluated: both peers are sent the
    two lines. *)
Example two_peers_broadcast :
  match send_messages
          (map (fun l => l ++ DELIMITER) [[x41; x0d]; [x42]]) None two_peers
  with
  | inr s' => Some (written s' alice, written s' bob)
  | inl _ => None
  end
  = Some (Some [x41; x0d; x0d; x0a; x42; x0d; x0a],
          Some [x41; x0d; x0d; x0a; x42; x0d; x0a]).
Proof. vm_compute. reflexivity. Qed.

End Server.

(* ===================================================================== *)
(** * The message archive: [adsb/sbs/archive.py]                         *)
(* ===================================================================== *)

Module Archive.

(** The files of the file system that the handler works on: path to
    content.  Paths are absolute, so that [os.path.abspath] leaves them as
    they are. *)
Abbreviation FileSystem := (gmap string string).

(** The modes that a writer opens its file with. *)
Inductive Mode := AppendMode | WriteMode.

(** [RotatingArchiveFileHandler]: [stream] tells whether the stream is
    open ([false] stands for [None]); an open stream is one on
    [baseFilename].  [namer] and [rotator] are [None], as [__init__] sets
    them and nothing in the package changes them. *)
Record RotatingArchiveFileHandler := {
  baseFilename : string;
  mode : Mode;
  stream : bool;
  maxBytes : Z;
  backupCount : Z
}.

Definition terminator : string := Text.CRLF.

Definition LF : ascii := "010"%char.

Definition set_stream (b : bool) (h : RotatingArchiveFileHandler)
  : RotatingArchiveFileHandler :=
  {| baseFilename := baseFilename h; mode := mode h; stream := b;
     maxBytes := maxBytes h; backupCount := backupCount h |}.

(** [os.path.exists], [os.remove], [os.rename]. *)
Definition exists_ (name : string) (fs : FileSystem) : bool :=
  bool_decide (is_Some (fs !! name)).

Definition remove (name : string) (fs : FileSystem) : FileSystem :=
  delete name fs.

Definition rename (src dst : string) (fs : FileSystem) : FileSystem :=
  match fs !! src with
  | Some c => <[dst := c]> (delete src fs)
  | None => fs
  end.

(** The content of a file, empty if there is none. *)
Definition content (name : string) (fs : FileSystem) : string :=
  default EmptyString (fs !! name).

(** ["%s.%d" % (baseFilename, i)] *)
Definition backup_name (base : string) (i : nat) : string :=
  String.append base
    (String.append "." (NilZero.string_of_uint (Nat.to_uint i))).

Section WithCodec.

(** The stream's encoding of text into bytes, and [bytes.decode]. *)
Variable encode : string -> string.
Variable decode : string -> option string.

(** [_open]: appending keeps a file that is there, writing truncates
    it; both create one that is missing. *)
Definition _open (h : RotatingArchiveFileHandler) (fs : FileSystem)
  : FileSystem :=
  match mode h, fs !! baseFilename h with
  | AppendMode, Some _ => fs
  | _, _ => <[baseFilename h := EmptyString]> fs
  end.

(** [__init__(filename, mode='a', maxBytes=0, backupCount=0)] *)
Definition init (filename : string) (mode : Mode) (maxBytes backupCount : Z)
    (fs : FileSystem) : RotatingArchiveFileHandler * FileSystem :=
  let mode := if maxBytes >? 0 then AppendMode else mode in
  let h := {| baseFilename := filename; mode := mode; stream := true;
              maxBytes := maxBytes; backupCount := backupCount |} in
  (h, _open h fs).

(** [close] *)
Definition close (h : RotatingArchiveFileHandler)
  : RotatingArchiveFileHandler :=
  if stream h then set_stream false h else h.

(** [stream.write(text)] followed by [flush]: the bytes go to the end of
    the base file. *)
Definition write (h : RotatingArchiveFileHandler) (text : string)
    (fs : FileSystem) : FileSystem :=
  <[baseFilename h :=
      String.append (content (baseFilename h) fs) (encode text)]> fs.

(** One round of the loop of [doRollover]: backup [i] becomes backup
    [i + 1]. *)
Definition shift_backup (base : string) (i : nat) (fs : FileSystem)
  : FileSystem :=
  let sfn := backup_name base i in
  let dfn := backup_name base (S i) in
  if exists_ sfn fs then
    rename sfn dfn (if exists_ dfn fs then remove dfn fs else fs)
  else fs.

(** The loop [for i in range(backupCount - 1, 0, -1)], entered at [i]. *)
Fixpoint shift_backups (base : string) (i : nat) (fs : FileSystem)
  : FileSystem :=
  match i with
  | O => fs
  | S i' => shift_backups base i' (shift_backup base i fs)
  end.

(** [rotate(source, dest)] *)
Definition rotate (source dest : string) (fs : FileSystem) : FileSystem :=
  if exists_ source fs then rename source dest fs else fs.

(** [doRollover] *)
Definition doRollover (h : RotatingArchiveFileHandler) (fs : FileSystem)
  : RotatingArchiveFileHandler * FileSystem :=
  let h := set_stream false h in
  let fs :=
    if backupCount h >? 0 then
      let fs := shift_backups (baseFilename h)
                  (Z.to_nat (backupCount h - 1)) fs in
      let dfn := String.append (baseFilename h) ".1" in
      let fs := if exists_ dfn fs then remove dfn fs else fs in
      rotate (baseFilename h) dfn fs
    else fs in
  (set_stream true h, _open h fs).

(** [shouldRollover(record)]: [tell] after the seek to the end is the
    size of the base file, [len(msg)] the number of characters of the
    record and the terminator. *)
Definition shouldRollover (record : string)
    (h : RotatingArchiveFileHandler) (fs : FileSystem)
  : bool * (RotatingArchiveFileHandler * FileSystem) :=
  let '(h, fs) :=
    if stream h then (h, fs) else (set_stream true h, _open h fs) in
  let msg := String.append record terminator in
  (if maxBytes h >? 0
   then Z.of_nat (String.length (content (baseFilename h) fs))
        + Z.of_nat (String.length msg) >=? maxBytes h
   else false,
   (h, fs)).

(** [emit(record)], [now] being the ISO form of the clock's reading.  The
    file operations are taken to succeed. *)
Definition emit (record now : string)
    (h : RotatingArchiveFileHandler) (fs : FileSystem)
  : RotatingArchiveFileHandler * FileSystem :=
  if negb (stream h) then (h, fs)
  else
    let '(roll, (h, fs)) := shouldRollover record h fs in
    let '(h, fs) := if roll then doRollover h fs else (h, fs) in
    (h, write h
          (String.append now
             (String.append "," (String.append record terminator))) fs).

(** A run of calls of [emit], each a record with the time of its call. *)
Fixpoint emits (records : list (string * string))
    (h : RotatingArchiveFileHandler) (fs : FileSystem)
  : RotatingArchiveFileHandler * FileSystem :=
  match records with
  | [] => (h, fs)
  | (now, record) :: rest =>
      let '(h, fs) := emit record now h fs in emits rest h fs
  end.

(** Iterating over a file opened in binary mode: the lines, each with its
    line feed, and what follows the last line feed, if anything. *)
Fixpoint file_lines (s : string) : list string :=
  match s with
  | EmptyString => []
  | String c s' =>
      if Ascii.eqb c LF then String c EmptyString :: file_lines s'
      else match file_lines s' with
           | [] => [String c EmptyString]
           | l :: ls => String c l :: ls
           end
  end.

(** [line.split(b',', 1)], if it has two parts. *)
Fixpoint split_once (line : string) : option (string * string) :=
  match line with
  | EmptyString => None
  | String c s' =>
      if Ascii.eqb c ","%char then Some (EmptyString, s')
      else match split_once s' with
           | Some (a, b) => Some (String c a, b)
           | None => None
           end
  end.

(** The loop of [read_archive]: what the generator yields, and the
    exception that ends it, if one does. *)
Fixpoint read_lines (lines : list string)
  : list (string * string) * option PyError :=
  match lines with
  | [] => ([], None)
  | line :: rest =>
      match split_once line with
      | None => ([], Some ValueError)
      | Some (timestamp, msg_bytes) =>
          match decode timestamp with
          | None => ([], Some UnicodeDecodeError)
          | Some t =>
              let '(ys, e) := read_lines rest in ((t, msg_bytes) :: ys, e)
          end
      end
  end.

(** [read_archive(archive_file)] *)
Definition read_archive (archive_file : string) (fs : FileSystem)
  : list (string * string) * option PyError :=
  match fs !! archive_file with
  | None => ([], None)
  | Some c => read_lines (file_lines c)
  end.

(** ** File names *)

Lemma append_inj_r (a s t : string) :
  String.append a s = String.append a t -> s = t.
Proof.
  induction a as [|c a IH]; intros H.
  - rewrite !Text.append_nil in H. exact H.
  - rewrite !Text.append_cons in H. injection H as H. exact (IH H).
Qed.

Lemma append_neq_l (a s : string) :
  s <> EmptyString -> String.append a s <> a.
Proof.
  intros Hs E. apply (f_equal String.length) in E.
  rewrite Text.length_append in E. destruct s; [congruence|]. simpl in E. lia.
Qed.

Lemma to_uint_nonnil (n : nat) : Nat.to_uint n <> Decimal.Nil.
Proof.
  pose proof (DecimalNat.Unsigned.to_of (Nat.to_uint n)) as H.
  rewrite DecimalNat.Unsigned.of_to in H. rewrite H. apply DecimalFacts.unorm_nonnil.
Qed.

Lemma backup_name_inj base i j :
  backup_name base i = backup_name base j -> i = j.
Proof.
  unfold backup_name. intros H. apply append_inj_r, append_inj_r in H.
  apply (f_equal NilZero.uint_of_string) in H.
  rewrite !NilZero.usu in H by apply to_uint_nonnil.
  injection H as H. exact (DecimalNat.Unsigned.to_uint_inj _ _ H).
Qed.

Lemma backup_name_base base i : backup_name base i <> base.
Proof. unfold backup_name. apply append_neq_l. discriminate. Qed.

Lemma backup_name_1 base : String.append base ".1" = backup_name base 1.
Proof. reflexivity. Qed.

(** ** Files after one step *)

Lemma exists_Some name fs c : fs !! name = Some c -> exists_ name fs = true.
Proof. intros H. unfold exists_. apply bool_decide_true. eauto. Qed.

Lemma exists_None name fs : fs !! name = None -> exists_ name fs = false.
Proof.
  intros H. unfold exists_. apply bool_decide_false. rewrite H.
  intros [? ?]; discriminate.
Qed.

(** Moving [src] over [dst], as [doRollover] does it. *)
Definition move (src dst : string) (fs : FileSystem) : FileSystem :=
  if exists_ src fs then
    rename src dst (if exists_ dst fs then remove dst fs else fs)
  else fs.

Lemma move_lookup src dst fs name :
  src <> dst ->
  move src dst fs !! name
  = match fs !! src with
    | Some c =>
        if decide (name = dst) then Some c
        else if decide (name = src) then None else fs !! name
    | None => fs !! name
    end.
Proof.
  intros Hne. unfold move.
  destruct (fs !! src) as [c|] eqn:Hs.
  - rewrite (exists_Some _ _ _ Hs).
    assert (Hs' : (if exists_ dst fs then remove dst fs else fs) !! src
                  = Some c).
    { destruct (exists_ dst fs); [|exact Hs]. unfold remove.
      rewrite lookup_delete_ne by congruence. exact Hs. }
    unfold rename. rewrite Hs'.
    destruct (decide (name = dst)) as [->|Hd].
    + apply lookup_insert_eq.
    + rewrite lookup_insert_ne by congruence.
      destruct (decide (name = src)) as [->|Hn].
      * apply lookup_delete_eq.
      * rewrite lookup_delete_ne by congruence.
        destruct (exists_ dst fs); [|reflexivity].
        unfold remove. apply lookup_delete_ne. congruence.
  - rewrite (exists_None _ _ Hs). reflexivity.
Qed.

Lemma shift_backup_move base i fs :
  shift_backup base i fs
  = move (backup_name base i) (backup_name base (S i)) fs.
Proof. reflexivity. Qed.

(** The files after the loop of [doRollover]. *)
Lemma shift_backups_lookup base i fs :
  (forall name,
     (forall j, (1 <= j <= S i)%nat -> name <> backup_name base j) ->
     shift_backups base i fs !! name = fs !! name)
  /\ (forall j, (2 <= j <= S i)%nat ->
        shift_backups base i fs !! backup_name base j
        = match fs !! backup_name base (j - 1) with
          | Some c => Some c
          | None => if decide (j = S i) then fs !! backup_name base j
                    else None
          end)
  /\ ((1 <= i)%nat -> shift_backups base i fs !! backup_name base 1 = None).
Proof.
  revert fs. induction i as [|i IH]; intros fs.
  - split; [reflexivity|]. split; intros; lia.
  - cbn [shift_backups]. rewrite shift_backup_move.
    set (fs1 := move (backup_name base (S i)) (backup_name base (S (S i))) fs).
    assert (Hmv : forall name,
               fs1 !! name
               = match fs !! backup_name base (S i) with
                 | Some c =>
                     if decide (name = backup_name base (S (S i)))
                     then Some c
                     else if decide (name = backup_name base (S i))
                          then None else fs !! name
                 | None => fs !! name
                 end).
    { intros name. apply move_lookup. intros E.
      apply backup_name_inj in E. lia. }
    destruct (IH fs1) as (Ha & Hb & Hc).
    split; [|split].
    + intros name Hn. rewrite Ha by (intros j Hj; apply Hn; lia).
      rewrite Hmv. destruct (fs !! backup_name base (S i)); [|reflexivity].
      rewrite decide_False by (apply Hn; lia).
      rewrite decide_False by (apply Hn; lia). reflexivity.
    + intros j Hj. destruct (decide (j = S (S i))) as [->|Hne].
      * rewrite Ha by (intros j Hj' E; apply backup_name_inj in E; lia).
        rewrite Hmv. replace (S (S i) - 1)%nat with (S i) by lia.
        destruct (fs !! backup_name base (S i)); [|reflexivity].
        rewrite decide_True by reflexivity. reflexivity.
      * rewrite Hb by lia. rewrite !Hmv.
        assert (N1 : backup_name base (j - 1) <> backup_name base (S (S i)))
          by (intros E; apply backup_name_inj in E; lia).
        assert (N2 : backup_name base (j - 1) <> backup_name base (S i))
          by (intros E; apply backup_name_inj in E; lia).
        assert (N3 : backup_name base j <> backup_name base (S (S i)))
          by (intros E; apply backup_name_inj in E; lia).
        destruct (fs !! backup_name base (S i)) as [c|] eqn:Hs.
        -- rewrite (decide_False (P := _ = backup_name base (S (S i))))
             by exact N1.
           rewrite (decide_False (P := _ = backup_name base (S i)))
             by exact N2.
           destruct (fs !! backup_name base (j - 1)); [reflexivity|].
           destruct (decide (j = S i)) as [->|Hj']; [|reflexivity].
           rewrite decide_False by exact N3.
           rewrite decide_True by reflexivity. reflexivity.
        -- destruct (fs !! backup_name base (j - 1)); [reflexivity|].
           destruct (decide (j = S i)) as [->|Hj']; [|reflexivity].
           exact Hs.
    + intros _. destruct i as [|i].
      * simpl. unfold fs1. rewrite Hmv.
        destruct (fs !! backup_name base 1) eqn:Hs; [|reflexivity].
        rewrite decide_False
          by (intros E; apply backup_name_inj in E; lia).
        rewrite decide_True by reflexivity. reflexivity.
      * apply Hc. lia.
Qed.

(** ** Rollover *)

(** The line that [emit] writes. *)
Definition archive_line (record now : string) : string :=
  String.append now (String.append "," (String.append record terminator)).

(** Whether [shouldRollover] asks for a rollover of an open handler. *)
Definition due (record : string) (h : RotatingArchiveFileHandler)
    (fs : FileSystem) : bool :=
  (maxBytes h >? 0)
  && (Z.of_nat (String.length (content (baseFilename h) fs))
      + Z.of_nat (String.length (String.append record terminator))
      >=? maxBytes h).

(** A handler as [__init__] leaves it: the stream is open on the base
    file, and a handler that rolls over appends. *)
Definition opened (h : RotatingArchiveFileHandler) (fs : FileSystem) : Prop :=
  stream h = true
  /\ is_Some (fs !! baseFilename h)
  /\ (maxBytes h > 0 -> mode h = AppendMode).

Lemma emit_unfold record now h fs :
  stream h = true ->
  emit record now h fs
  = if due record h fs
    then (let '(h', fs') := doRollover h fs in
          (h', write h' (archive_line record now) fs'))
    else (h, write h (archive_line record now) fs).
Proof.
  intros Hs. unfold emit, shouldRollover, due, archive_line. rewrite Hs.
  cbn [negb andb].
  destruct (maxBytes h >? 0); cbn [andb]; [|reflexivity].
  destruct (_ >=? _); [|reflexivity].
  destruct (doRollover h fs). reflexivity.
Qed.

Lemma set_stream_same h : stream h = true -> set_stream true h = h.
Proof. destruct h. simpl. intros ->. reflexivity. Qed.

(** The files after [doRollover] with backups. *)
Lemma doRollover_lookup h fs :
  backupCount h > 0 ->
  let n := Z.to_nat (backupCount h) in
  let base := baseFilename h in
  fst (doRollover h fs) = set_stream true h
  /\ snd (doRollover h fs) !! base = Some EmptyString
  /\ snd (doRollover h fs) !! backup_name base 1 = fs !! base
  /\ (forall j, (2 <= j <= n)%nat ->
        snd (doRollover h fs) !! backup_name base j
        = match fs !! backup_name base (j - 1) with
          | Some c => Some c
          | None => if decide (j = n) then fs !! backup_name base j
                    else None
          end)
  /\ (forall name,
        name <> base ->
        (forall j, (1 <= j <= n)%nat -> name <> backup_name base j) ->
        snd (doRollover h fs) !! name = fs !! name).
Proof.
  intros Hn n base. unfold doRollover.
  cbn [baseFilename backupCount set_stream mode].
  replace (backupCount h >? 0) with true by (symmetry; apply Z.gtb_lt; lia).
  fold base. rewrite (backup_name_1 base).
  destruct (shift_backups_lookup base (Z.to_nat (backupCount h - 1)) fs)
    as (Ha & Hb & Hc).
  replace (S (Z.to_nat (backupCount h - 1))) with n in Ha, Hb by (unfold n; lia).
  set (fs2 := shift_backups base (Z.to_nat (backupCount h - 1)) fs) in *.
  set (fs3 := if exists_ (backup_name base 1) fs2
              then remove (backup_name base 1) fs2 else fs2).
  assert (H3 : forall name,
             fs3 !! name
             = if decide (name = backup_name base 1) then None
               else fs2 !! name).
  { intros name. unfold fs3.
    destruct (fs2 !! backup_name base 1) as [c|] eqn:E.
    - rewrite (exists_Some _ _ _ E). unfold remove.
      destruct (decide (name = backup_name base 1)) as [->|Hne].
      + apply lookup_delete_eq.
      + apply lookup_delete_ne. congruence.
    - rewrite (exists_None _ _ E).
      destruct (decide (name = backup_name base 1)) as [->|Hne];
        [exact E|reflexivity]. }
  assert (Hbase : fs3 !! base = fs !! base).
  { rewrite H3, decide_False by (apply not_eq_sym, backup_name_base).
    apply Ha. intros j _. apply not_eq_sym, backup_name_base. }
  set (fs4 := rotate base (backup_name base 1) fs3).
  assert (H4 : forall name,
             fs4 !! name
             = if decide (name = backup_name base 1) then fs !! base
               else if decide (name = base) then None else fs2 !! name).
  { intros name. unfold fs4, rotate.
    destruct (fs3 !! base) as [c|] eqn:E.
    - rewrite (exists_Some _ _ _ E). unfold rename. rewrite E.
      destruct (decide (name = backup_name base 1)) as [->|Hne].
      + rewrite lookup_insert_eq. congruence.
      + rewrite lookup_insert_ne by congruence.
        destruct (decide (name = base)) as [->|Hne'].
        * apply lookup_delete_eq.
        * rewrite lookup_delete_ne by congruence.
          rewrite H3, decide_False by exact Hne. reflexivity.
    - rewrite (exists_None _ _ E), H3.
      destruct (decide (name = backup_name base 1)) as [->|Hne];
        [congruence|].
      destruct (decide (name = base)) as [->|Hne']; [|reflexivity].
      rewrite <- E, H3, decide_False by exact Hne. reflexivity. }
  assert (H5 : _open (set_stream false h) fs4 = <[base := EmptyString]> fs4).
  { unfold _open. cbn [baseFilename set_stream mode]. fold base.
    rewrite H4, decide_False by (apply not_eq_sym, backup_name_base).
    rewrite decide_True by reflexivity. destruct (mode h); reflexivity. }
  cbn [fst snd]. fold fs3. fold fs4.
  change (_open _ fs4) with (_open (set_stream false h) fs4). rewrite H5.
  split; [reflexivity|]. split; [apply lookup_insert_eq|].
  split; [|split].
  - rewrite lookup_insert_ne by (apply not_eq_sym, backup_name_base).
    rewrite H4, decide_True by reflexivity. reflexivity.
  - intros j Hj.
    rewrite lookup_insert_ne by (apply not_eq_sym, backup_name_base).
    rewrite H4, decide_False
      by (intros E; apply backup_name_inj in E; lia).
    rewrite decide_False by apply backup_name_base.
    apply Hb. exact Hj.
  - intros name Hb' Hj. rewrite lookup_insert_ne by congruence.
    rewrite H4, decide_False by (apply Hj; unfold n; lia).
    rewrite decide_False by exact Hb'. apply Ha. exact Hj.
Qed.

Lemma write_lookup h text fs name :
  write h text fs !! name
  = if decide (name = baseFilename h)
    then Some (String.append (content (baseFilename h) fs) (encode text))
    else fs !! name.
Proof.
  unfold write. destruct (decide (name = baseFilename h)) as [->|Hne].
  - apply lookup_insert_eq.
  - apply lookup_insert_ne. congruence.
Qed.

Lemma emit_rollover record now h fs :
  stream h = true -> backupCount h > 0 -> due record h fs = true ->
  emit record now h fs
  = (h, <[baseFilename h := encode (archive_line record now)]>
          (snd (doRollover h fs))).
Proof.
  intros Hs Hn Hd. rewrite (emit_unfold _ _ _ _ Hs), Hd.
  destruct (doRollover_lookup h fs Hn) as (Hh & Hb & _).
  destruct (doRollover h fs) as [h' fs'] eqn:E. cbn [fst snd] in *.
  subst h'. rewrite (set_stream_same _ Hs). unfold write, content.
  rewrite Hb. cbn [default]. rewrite Text.append_nil. reflexivity.
Qed.

(** X22: a rollover with backups.  When the record would take the base
    file to [maxBytes], the base file becomes backup 1, every backup that
    is there moves up by one, the last one being overwritten, and the new
    base file holds the new line alone; a backup whose predecessor is
    missing is gone afterwards, unless it is the last, which then stays.
    No other file is touched. *)
Theorem rollover_shifts_backups (record now : string)
    (h : RotatingArchiveFileHandler) (fs : FileSystem) :
  stream h = true -> backupCount h > 0 -> due record h fs = true ->
  let n := Z.to_nat (backupCount h) in
  let base := baseFilename h in
  let fs' := snd (emit record now h fs) in
  fst (emit record now h fs) = h
  /\ fs' !! base = Some (encode (archive_line record now))
  /\ fs' !! backup_name base 1 = fs !! base
  /\ (forall j, (2 <= j <= n)%nat ->
        fs' !! backup_name base j
        = match fs !! backup_name base (j - 1) with
          | Some c => Some c
          | None => if decide (j = n) then fs !! backup_name base j
                    else None
          end)
  /\ (forall name,
        name <> base ->
        (forall j, (1 <= j <= n)%nat -> name <> backup_name base j) ->
        fs' !! name = fs !! name).
Proof.
  intros Hs Hn Hd n base fs'. unfold fs'.
  rewrite (emit_rollover _ _ _ _ Hs Hn Hd). cbn [fst snd]. fold base.
  destruct (doRollover_lookup h fs Hn) as (_ & _ & H1 & Hj & Ho).
  fold base in H1, Hj, Ho. fold n in Hj, Ho.
  split; [reflexivity|]. split; [apply lookup_insert_eq|].
  split; [|split].
  - rewrite lookup_insert_ne by (apply not_eq_sym, backup_name_base).
    exact H1.
  - intros j Hj'.
    rewrite lookup_insert_ne by (apply not_eq_sym, backup_name_base).
    apply Hj. exact Hj'.
  - intros name Hb Hn'. rewrite lookup_insert_ne by congruence.
    apply Ho; assumption.
Qed.

(** ** The archive as a whole *)

(** The text of the archive: the backups from the oldest, [n], to the
    newest, then the base file. *)
Fixpoint history (base : string) (n : nat) (fs : FileSystem) : string :=
  match n with
  | O => content base fs
  | S n' =>
      String.append (content (backup_name base n) fs) (history base n' fs)
  end.

(** No backup without the one before it. *)
Definition contiguous (base : string) (fs : FileSystem) : Prop :=
  forall j, (1 <= j)%nat ->
    is_Some (fs !! backup_name base (S j)) ->
    is_Some (fs !! backup_name base j).

Lemma history_ext base n fs fs' :
  fs' !! base = fs !! base ->
  (forall j, (1 <= j <= n)%nat ->
     fs' !! backup_name base j = fs !! backup_name base j) ->
  history base n fs' = history base n fs.
Proof.
  intros Hb. induction n as [|n IH]; intros Hj.
  - simpl. unfold content. rewrite Hb. reflexivity.
  - cbn [history]. rewrite IH by (intros j Hj'; apply Hj; lia).
    unfold content. rewrite Hj by lia. reflexivity.
Qed.

Lemma history_write base n fs c :
  history base n (<[base := String.append (content base fs) c]> fs)
  = String.append (history base n fs) c.
Proof.
  induction n as [|n IH].
  - simpl. unfold content at 1. rewrite lookup_insert_eq. reflexivity.
  - cbn [history]. rewrite IH, Text.append_assoc.
    unfold content at 1.
    rewrite lookup_insert_ne by (apply not_eq_sym, backup_name_base).
    reflexivity.
Qed.

Lemma history_shift base n fs fs' :
  fs' !! backup_name base 1 = fs !! base ->
  (forall j, (2 <= j <= S n)%nat ->
     fs' !! backup_name base j = fs !! backup_name base (j - 1)) ->
  history base (S n) fs'
  = String.append (history base n fs) (content base fs').
Proof.
  intros H1. induction n as [|n IH]; intros Hj.
  - cbn [history]. unfold content at 1 3. rewrite H1. reflexivity.
  - change (history base (S (S n)) fs')
      with (String.append (content (backup_name base (S (S n))) fs')
              (history base (S n) fs')).
    rewrite IH by (intros j Hj'; apply Hj; lia).
    change (history base (S n) fs)
      with (String.append (content (backup_name base (S n)) fs)
              (history base n fs)).
    rewrite Text.append_assoc. unfold content at 1 3.
    rewrite Hj by lia. replace (S (S n) - 1)%nat with (S n) by lia.
    reflexivity.
Qed.

(** On an archive without gaps every backup takes the place of the next
    one. *)
Lemma rollover_shift_view record now h fs :
  stream h = true -> backupCount h > 0 -> due record h fs = true ->
  contiguous (baseFilename h) fs ->
  let n := Z.to_nat (backupCount h) in
  let base := baseFilename h in
  let fs' := snd (emit record now h fs) in
  fs' !! base = Some (encode (archive_line record now))
  /\ fs' !! backup_name base 1 = fs !! base
  /\ (forall j, (2 <= j <= n)%nat ->
        fs' !! backup_name base j = fs !! backup_name base (j - 1))
  /\ (forall name,
        name <> base ->
        (forall j, (1 <= j <= n)%nat -> name <> backup_name base j) ->
        fs' !! name = fs !! name).
Proof.
  intros Hs Hn Hd Hc n base fs'. unfold fs'.
  rewrite (emit_rollover _ _ _ _ Hs Hn Hd). cbn [fst snd]. fold base.
  destruct (doRollover_lookup h fs Hn) as (_ & _ & H1 & Hj & Ho).
  fold base in H1, Hj, Ho. fold n in Hj, Ho.
  split; [apply lookup_insert_eq|]. split; [|split].
  - rewrite lookup_insert_ne by (apply not_eq_sym, backup_name_base).
    exact H1.
  - intros j Hj'.
    rewrite lookup_insert_ne by (apply not_eq_sym, backup_name_base).
    rewrite (Hj j Hj').
    destruct (fs !! backup_name base (j - 1)) as [c|] eqn:E; [reflexivity|].
    destruct (decide (j = n)) as [->|_]; [|reflexivity].
    destruct (fs !! backup_name base n) as [c|] eqn:E'; [|reflexivity].
    exfalso. destruct (Hc (n - 1)%nat) as [c' Hc'];
      [lia| |fold base in Hc'; congruence].
    replace (S (n - 1)) with n by lia. fold base. eauto.
  - intros name Hb Hn'. rewrite lookup_insert_ne by congruence.
    apply Ho; assumption.
Qed.

Lemma emit_plain record now h fs :
  opened h fs -> (backupCount h <= 0 \/ due record h fs = false) ->
  emit record now h fs
  = (h, <[baseFilename h :=
            String.append (content (baseFilename h) fs)
              (encode (archive_line record now))]> fs).
Proof.
  intros (Hs & [c Hc] & Hm) Hcase. rewrite (emit_unfold _ _ _ _ Hs).
  destruct (due record h fs) eqn:Hd; [|reflexivity].
  destruct Hcase as [Hn|]; [|discriminate].
  assert (Hmax : maxBytes h > 0).
  { unfold due in Hd. apply andb_prop in Hd as [Hd _].
    apply Z.gtb_lt in Hd. lia. }
  unfold doRollover. cbn [baseFilename backupCount set_stream mode].
  replace (backupCount h >? 0) with false
    by (symmetry; rewrite Z.gtb_ltb; apply Z.ltb_ge; lia).
  unfold _open. cbn [baseFilename set_stream mode].
  rewrite (Hm Hmax), Hc.
  change (set_stream true (set_stream false h)) with (set_stream true h).
  rewrite (set_stream_same _ Hs). reflexivity.
Qed.

Lemma opened_emit record now h fs :
  opened h fs ->
  opened (fst (emit record now h fs)) (snd (emit record now h fs)).
Proof.
  intros Ho. pose proof Ho as (Hs & Hb & Hm).
  destruct (Z_gt_le_dec (backupCount h) 0) as [Hn|Hn];
    [destruct (due record h fs) eqn:Hd|].
  - rewrite (emit_rollover _ _ _ _ Hs Hn Hd). cbn [fst snd].
    split; [exact Hs|]. split; [|exact Hm].
    rewrite lookup_insert_eq. eauto.
  - rewrite (emit_plain _ _ _ _ Ho (or_intror Hd)). cbn [fst snd].
    split; [exact Hs|]. split; [|exact Hm].
    rewrite lookup_insert_eq. eauto.
  - rewrite (emit_plain _ _ _ _ Ho (or_introl Hn)). cbn [fst snd].
    split; [exact Hs|]. split; [|exact Hm].
    rewrite lookup_insert_eq. eauto.
Qed.

(** X23: nothing but the oldest backup is ever lost.  On an archive
    without gaps among its backups, [emit] adds its line at the end of the
    archive's text; a rollover drops the text of the last backup and
    nothing else.  The archive is again without gaps, and the handler
    stays open. *)
Theorem emit_keeps_history (record now : string)
    (h : RotatingArchiveFileHandler) (fs : FileSystem) :
  opened h fs -> contiguous (baseFilename h) fs ->
  let n := Z.to_nat (backupCount h) in
  let base := baseFilename h in
  let fs' := snd (emit record now h fs) in
  history base n fs'
  = String.append
      (if due record h fs && bool_decide (1 <= n)%nat
       then history base (n - 1) fs else history base n fs)
      (encode (archive_line record now))
  /\ contiguous base fs'
  /\ opened (fst (emit record now h fs)) fs'.
Proof.
  intros Ho Hc n base fs'. pose proof Ho as (Hs & Hb & Hm).
  split; [|split; [|exact (opened_emit _ _ _ _ Ho)]].
  - destruct (due record h fs) eqn:Hd; cbn [andb].
    + case_bool_decide as Hn.
      * assert (Hn' : backupCount h > 0) by (unfold n in Hn; lia).
        destruct (rollover_shift_view record now h fs Hs Hn' Hd Hc)
          as (H0 & H1 & Hj & _).
        fold base n fs' in H0, H1, Hj.
        destruct n as [|n']; [lia|].
        replace (S n' - 1)%nat with n' by lia.
        rewrite (history_shift base n' fs fs' H1 Hj).
        unfold content. rewrite H0. reflexivity.
      * unfold fs'. rewrite (emit_plain _ _ _ _ Ho)
          by (left; unfold n in Hn; lia).
        cbn [snd]. apply history_write.
    + unfold fs'. rewrite (emit_plain _ _ _ _ Ho (or_intror Hd)).
      cbn [snd]. apply history_write.
  - destruct (Z_gt_le_dec (backupCount h) 0) as [Hn|Hn];
      [destruct (due record h fs) eqn:Hd|].
    + destruct (rollover_shift_view record now h fs Hs Hn Hd Hc)
        as (H0 & H1 & Hj & Ho').
      fold base n fs' in H0, H1, Hj, Ho'.
      intros j Hj1 [c Hc'].
      destruct (decide (S j <= n)%nat) as [Hle|Hgt].
      * rewrite Hj in Hc' by lia. replace (S j - 1)%nat with j in Hc' by lia.
        destruct (decide (j = 1%nat)) as [->|Hj2].
        -- rewrite H1. exact Hb.
        -- rewrite Hj by lia. apply Hc; [lia|].
           replace (S (j - 1)) with j by lia. eauto.
      * rewrite Ho' in Hc'.
        2: { apply backup_name_base. }
        2: { intros i Hi E. apply backup_name_inj in E. lia. }
        assert (Hj' : is_Some (fs !! backup_name base j))
          by (apply Hc; [lia|eauto]).
        destruct (decide (j = n)) as [->|Hjn].
        -- destruct (decide (n = 1%nat)) as [E1|E1].
           ++ rewrite E1, H1. exact Hb.
           ++ rewrite Hj by lia. apply Hc; [lia|].
              replace (S (n - 1)) with n by lia. exact Hj'.
        -- rewrite Ho'; [exact Hj'|apply backup_name_base|].
           intros i Hi E. apply backup_name_inj in E. lia.
    + unfold fs'. rewrite (emit_plain _ _ _ _ Ho (or_intror Hd)). cbn [snd].
      intros j Hj1.
      rewrite !lookup_insert_ne by (apply not_eq_sym, backup_name_base).
      apply Hc. exact Hj1.
    + unfold fs'. rewrite (emit_plain _ _ _ _ Ho (or_introl Hn)). cbn [snd].
      intros j Hj1.
      rewrite !lookup_insert_ne by (apply not_eq_sym, backup_name_base).
      apply Hc. exact Hj1.
Qed.

(** ** Without rollover *)

Lemma append_nil_r (s : string) : String.append s EmptyString = s.
Proof.
  induction s as [|c s IH]; [reflexivity|].
  rewrite Text.append_cons, IH. reflexivity.
Qed.

Lemma due_no_limit record h fs : maxBytes h <= 0 -> due record h fs = false.
Proof.
  intros H. unfold due.
  replace (maxBytes h >? 0) with false
    by (symmetry; rewrite Z.gtb_ltb; apply Z.ltb_ge; lia).
  reflexivity.
Qed.

(** The bytes that a run of calls of [emit] writes. *)
Definition archive_text (records : list (string * string)) : string :=
  String.concat EmptyString
    (map (fun r => encode (archive_line (snd r) (fst r))) records).

Lemma archive_text_cons now record rest :
  archive_text ((now, record) :: rest)
  = String.append (encode (archive_line record now)) (archive_text rest).
Proof.
  unfold archive_text. cbn [map fst snd].
  destruct (map _ rest) as [|x l] eqn:E.
  - simpl. rewrite append_nil_r. reflexivity.
  - cbn [String.concat]. rewrite Text.append_nil. reflexivity.
Qed.

Lemma emits_plain records h fs :
  opened h fs -> (backupCount h <= 0 \/ maxBytes h <= 0) ->
  emits records h fs
  = (h, <[baseFilename h :=
            String.append (content (baseFilename h) fs)
              (archive_text records)]> fs).
Proof.
  intros Ho Hcase. revert fs Ho.
  induction records as [|[now record] rest IH]; intros fs Ho.
  - cbn [emits]. unfold archive_text. cbn [map String.concat].
    rewrite append_nil_r. destruct Ho as (_ & [c Hc] & _).
    unfold content. rewrite Hc. cbn [default].
    rewrite insert_id by exact Hc. reflexivity.
  - cbn [emits].
    assert (He : emit record now h fs
                 = (h, <[baseFilename h :=
                           String.append (content (baseFilename h) fs)
                             (encode (archive_line record now))]> fs)).
    { apply (emit_plain _ _ _ _ Ho).
      destruct Hcase as [Hn|Hm]; [left; exact Hn|].
      right. apply due_no_limit. exact Hm. }
    pose proof (opened_emit record now h fs Ho) as Ho'.
    rewrite He in Ho' |- *. cbn [fst snd] in Ho'.
    rewrite (IH _ Ho'). f_equal.
    rewrite insert_insert_eq. unfold content at 1.
    rewrite lookup_insert_eq. cbn [default].
    unfold id. rewrite archive_text_cons, Text.append_assoc. reflexivity.
Qed.

(** X24: without backups there is no rotation.  With [backupCount] at
    zero the base file takes every line, whatever [maxBytes] is, and no
    other file is written. *)
Theorem no_backups_no_rotation (records : list (string * string))
    (h : RotatingArchiveFileHandler) (fs : FileSystem) :
  opened h fs -> backupCount h <= 0 ->
  emits records h fs
  = (h, <[baseFilename h :=
            String.append (content (baseFilename h) fs)
              (archive_text records)]> fs).
Proof. intros Ho Hn. apply (emits_plain _ _ _ Ho). left. exact Hn. Qed.

(** X25: how far the base file can grow.  [shouldRollover] measures the
    record and the terminator but not the timestamp that [emit] puts in
    front: with records that fit under [maxBytes], written one byte a
    character, the base file stays below [maxBytes] plus the length of
    the timestamp and its comma. *)
Theorem base_file_size_bound (record now : string)
    (h : RotatingArchiveFileHandler) (fs : FileSystem) :
  stream h = true -> backupCount h > 0 -> maxBytes h > 0 ->
  Z.of_nat (String.length (String.append record terminator)) < maxBytes h ->
  String.length (encode (archive_line record now))
  = String.length (archive_line record now) ->
  Z.of_nat (String.length
              (content (baseFilename h) (snd (emit record now h fs))))
  < maxBytes h + Z.of_nat (String.length now) + 1.
Proof.
  intros Hs Hn Hm Hr He.
  assert (Hl : String.length (archive_line record now)
               = (String.length now + 1
                  + String.length (String.append record terminator))%nat).
  { unfold archive_line. rewrite Text.length_append.
    rewrite (Text.append_cons ","%char). cbn [String.length].
    rewrite Text.append_nil. lia. }
  destruct (due record h fs) eqn:Hd.
  - rewrite (emit_rollover _ _ _ _ Hs Hn Hd). cbn [snd].
    unfold content. rewrite lookup_insert_eq. cbn [default]. unfold id.
    rewrite He, Hl. lia.
  - rewrite (emit_unfold _ _ _ _ Hs), Hd. cbn [snd].
    unfold write. unfold content at 1. rewrite lookup_insert_eq.
    cbn [default]. unfold id. rewrite Text.length_append, He, Hl.
    unfold due in Hd. apply andb_false_iff in Hd as [Hd|Hd].
    + rewrite Z.gtb_ltb in Hd. apply Z.ltb_ge in Hd. lia.
    + rewrite Z.geb_leb in Hd. apply Z.leb_gt in Hd. lia.
Qed.

(** ** Reading back *)

Lemma init_opened filename m maxb backups fs :
  opened (fst (init filename m maxb backups fs))
         (snd (init filename m maxb backups fs)).
Proof.
  unfold init, opened, _open. cbn [fst snd stream baseFilename mode maxBytes].
  split; [reflexivity|]. split.
  - destruct (maxb >? 0); [|destruct m];
      destruct (fs !! filename) eqn:E; rewrite ?lookup_insert_eq; eauto.
  - intros H. replace (maxb >? 0) with true; [reflexivity|].
    symmetry. apply Z.gtb_lt. lia.
Qed.

Lemma init_fresh filename m maxb backups fs :
  fs !! filename = None ->
  content filename (snd (init filename m maxb backups fs)) = EmptyString.
Proof.
  intros H. unfold init, _open, content. cbn [snd baseFilename mode].
  rewrite H. destruct (if maxb >? 0 then AppendMode else m);
    rewrite lookup_insert_eq; reflexivity.
Qed.

Lemma file_lines_tail (r rest : string) :
  Text.absent LF r ->
  file_lines (String.append (String.append r terminator) rest)
  = String.append r terminator :: file_lines rest.
Proof.
  induction r as [|c r IH]; intros Hr.
  - reflexivity.
  - destruct Hr as [Hc Hr]. rewrite !Text.append_cons. cbn [file_lines].
    rewrite (proj2 (Ascii.eqb_neq c LF) Hc), (IH Hr). reflexivity.
Qed.

Lemma file_lines_archive_line (record now rest : string) :
  Text.absent LF now -> Text.absent LF record ->
  file_lines (String.append (archive_line record now) rest)
  = archive_line record now :: file_lines rest.
Proof.
  intros Hn Hr. unfold archive_line.
  induction now as [|c now IH].
  - rewrite Text.append_nil, (Text.append_cons ","%char), Text.append_nil.
    rewrite Text.append_cons. cbn [file_lines].
    change (Ascii.eqb ","%char LF) with false. cbv iota.
    rewrite (file_lines_tail _ _ Hr). reflexivity.
  - destruct Hn as [Hc Hn].
    rewrite (Text.append_cons c now), (Text.append_cons c).
    cbn [file_lines].
    rewrite (proj2 (Ascii.eqb_neq c LF) Hc), (IH Hn). reflexivity.
Qed.

Lemma split_once_archive_line (record now : string) :
  Text.absent ","%char now ->
  split_once (archive_line record now)
  = Some (now, String.append record terminator).
Proof.
  unfold archive_line. induction now as [|c now IH]; intros Hn.
  - reflexivity.
  - destruct Hn as [Hc Hn]. rewrite Text.append_cons. cbn [split_once].
    rewrite (proj2 (Ascii.eqb_neq c ","%char) Hc), (IH Hn). reflexivity.
Qed.

(** A record and the time of its call that come back as written: the
    line is written one byte a character, the timestamp decodes to
    itself and has no comma, and neither holds a line feed. *)
Definition readable (r : string * string) : Prop :=
  encode (archive_line (snd r) (fst r)) = archive_line (snd r) (fst r)
  /\ decode (fst r) = Some (fst r)
  /\ Text.absent ","%char (fst r)
  /\ Text.absent LF (fst r)
  /\ Text.absent LF (snd r).

Lemma read_lines_archive_text records :
  Forall readable records ->
  read_lines (file_lines (archive_text records))
  = (map (fun r => (fst r, String.append (snd r) terminator)) records, None).
Proof.
  induction 1 as [|[now record] rest (He & Hd & Hc & Hn & Hr) _ IH].
  - reflexivity.
  - cbn [fst snd] in *. rewrite archive_text_cons, He.
    rewrite (file_lines_archive_line _ _ _ Hn Hr). cbn [read_lines].
    rewrite (split_once_archive_line _ _ Hc), Hd, IH. reflexivity.
Qed.

(** X26: what is archived reads back.  Records written by a handler that
    does not roll over, to a file that was not there, are what
    [read_archive] yields from that file: one pair a record, in order,
    the timestamp as text and the record with its terminator; no
    exception ends the reading.  This is for records that are [readable]:
    the stream writes the line as it is, one byte a character, as it does
    ASCII text; the timestamp decodes to itself and holds no comma; and
    neither timestamp nor record holds a line feed. *)
Theorem read_archive_emits (filename : string) (m : Mode)
    (maxb backups : Z) (fs : FileSystem) (records : list (string * string)) :
  fs !! filename = None ->
  backups <= 0 \/ maxb <= 0 ->
  Forall readable records ->
  read_archive filename
    (snd (emits records (fst (init filename m maxb backups fs))
                        (snd (init filename m maxb backups fs))))
  = (map (fun r => (fst r, String.append (snd r) terminator)) records, None).
Proof.
  intros Hf Hcase Hr.
  rewrite (emits_plain _ _ _ (init_opened filename m maxb backups fs) Hcase).
  cbn [snd]. change (baseFilename (fst (init filename m maxb backups fs)))
    with filename.
  rewrite (init_fresh _ _ _ _ _ Hf), Text.append_nil.
  unfold read_archive. rewrite lookup_insert_eq.
  apply read_lines_archive_text. exact Hr.
Qed.

End WithCodec.

(** ** An archive of ASCII text *)

(** ASCII text is written as it is and decodes to itself. *)
Definition plain_encode (s : string) : string := s.
Definition plain_decode (s : string) : option string := Some s.

(** A handler that rolls over at 16 bytes and keeps two backups, on a
    base file of ten bytes. *)
Definition small : RotatingArchiveFileHandler :=
  {| baseFilename := "/var/adsb/a.log"; mode := AppendMode; stream := true;
     maxBytes := 16; backupCount := 2 |}.

Definition ten_bytes : FileSystem :=
  {[ "/var/adsb/a.log"%string := "0123456789"%string ]}.

Lemma small_opened : opened small ten_bytes.
Proof.
  split; [reflexivity|]. split; [eexists; reflexivity|]. reflexivity.
Qed.

Lemma ten_bytes_contiguous : contiguous (baseFilename small) ten_bytes.
Proof.
  intros j _ [c Hc]. unfold ten_bytes in Hc.
  rewrite lookup_singleton_ne in Hc
    by (apply not_eq_sym, backup_name_base).
  discriminate.
Qed.

Lemma rollover_shifts_backups_witness :
  snd (emit plain_encode "MSG,8" "T" small ten_bytes) !! "/var/adsb/a.log"%string
  = Some (archive_line "MSG,8" "T")
  /\ snd (emit plain_encode "MSG,8" "T" small ten_bytes)
       !! "/var/adsb/a.log.1"%string
     = Some "0123456789"%string.
Proof.
  destruct (rollover_shifts_backups plain_encode "MSG,8" "T" small ten_bytes)
    as (_ & H0 & H1 & _); [reflexivity|reflexivity|reflexivity|].
  split; [exact H0|exact H1].
Defined.

Lemma emit_keeps_history_witness :
  history "/var/adsb/a.log" 2
    (snd (emit plain_encode "MSG,8" "T" small ten_bytes))
  = String.append "0123456789" (archive_line "MSG,8" "T").
Proof.
  destruct (emit_keeps_history plain_encode "MSG,8" "T" small ten_bytes
              small_opened ten_bytes_contiguous) as (H & _).
  exact H.
Defined.

Lemma no_backups_no_rotation_witness :
  emits plain_encode [("T1", "MSG,1"); ("T2", "MSG,2")]%string
    {| baseFilename := "/var/adsb/a.log"; mode := AppendMode; stream := true;
       maxBytes := 16; backupCount := 0 |} ten_bytes
  = ({| baseFilename := "/var/adsb/a.log"; mode := AppendMode;
        stream := true; maxBytes := 16; backupCount := 0 |},
     <[ "/var/adsb/a.log"%string :=
          String.append "0123456789"
            (archive_text plain_encode
               [("T1", "MSG,1"); ("T2", "MSG,2")]%string) ]> ten_bytes).
Proof.
  apply (no_backups_no_rotation plain_encode
           [("T1", "MSG,1"); ("T2", "MSG,2")]%string
           {| baseFilename := "/var/adsb/a.log"; mode := AppendMode;
              stream := true; maxBytes := 16; backupCount := 0 |} ten_bytes).
  - split; [reflexivity|]. split; [eexists; reflexivity|]. reflexivity.
  - simpl. lia.
Defined.

Lemma base_file_size_bound_witness :
  Z.of_nat (String.length
              (content "/var/adsb/a.log"
                 (snd (emit plain_encode "MSG,8" "T" small ten_bytes))))
  < 16 + 1 + 1.
Proof.
  apply (base_file_size_bound plain_encode "MSG,8" "T" small ten_bytes);
    reflexivity.
Defined.

(** The bound is met with room to spare for the limit itself: a record
    that is let in just under [maxBytes] takes the base file past it. *)
Example base_file_exceeds_maxBytes :
  String.length
    (content "/var/adsb/a.log"
       (snd (emit plain_encode "MSG" "2017-03-25T10:41:45+00:00" small
               ten_bytes)))
  = 41%nat.
Proof. vm_compute. reflexivity. Qed.

Lemma read_archive_emits_witness :
  read_archive plain_decode "/var/adsb/a.log"
    (snd (emits plain_encode
            [("2017-03-25T10:41:45+00:00", "MSG,3,1"); ("T2", "MSG,8")]%string
            (fst (init "/var/adsb/a.log" AppendMode 0 0 ∅))
            (snd (init "/var/adsb/a.log" AppendMode 0 0 ∅))))
  = ([("2017-03-25T10:41:45+00:00"%string,
       String.append "MSG,3,1" terminator);
      ("T2"%string, String.append "MSG,8" terminator)], None).
Proof.
  apply (read_archive_emits plain_encode plain_decode "/var/adsb/a.log"
           AppendMode 0 0 ∅
           [("2017-03-25T10:41:45+00:00", "MSG,3,1"); ("T2", "MSG,8")]%string).
  - reflexivity.
  - left. lia.
  - repeat (apply List.Forall_cons;
            [split; [reflexivity|]; split; [reflexivity|];
             cbn; repeat split; discriminate|]).
    apply List.Forall_nil.
Defined.

End Archive.

(* ===================================================================== *)
(** * Dates and times in JSON: [adsb/sbs/json_utils.py]                  *)
(* ===================================================================== *)

Module JsonUtils.

Import Message.

(** The values of the dicts that pass through the encoder's [default] and
    the decoder's object hook: integers, booleans, strings and [None]. *)
Inductive Value :=
| VInt (n : Z)
| VBool (b : bool)
| VStr (s : string)
| VNull.

Global Instance Value_eq_dec : EqDecision Value.
Proof. solve_decision. Defined.

Abbreviation Dict := (gmap string Value).

Section WithZone.

(** The time zone objects. *)
Context {tzinfo : Type}.

(** The objects that [default] is asked about.  A [datetime.timedelta]
    holds its normalised days, seconds and microseconds.  The [fold] of a
    time, which comparisons ignore, is left out. *)
Inductive PyObject :=
| ODate (d : date)
| OTime (t : time) (tz : option tzinfo)
| ODatetime (d : date) (t : time) (tz : option tzinfo)
| OTimedelta (days seconds microseconds : Z)
| OOther.

(** What the constructors guarantee of their objects. *)
Definition valid (o : PyObject) : Prop :=
  match o with
  | ODate d => valid_date d = true
  | OTime t _ => valid_time t = true
  | ODatetime d t _ => valid_date d = true /\ valid_time t = true
  | OTimedelta days seconds microseconds =>
      -999999999 <= days <= 999999999
      /\ 0 <= seconds < 86400
      /\ 0 <= microseconds < 1000000
  | OOther => True
  end.

(** [isinstance]: a [datetime.datetime] is a [datetime.date] too. *)
Definition isinstance_datetime (o : PyObject) : bool :=
  match o with ODatetime _ _ _ => true | _ => false end.

Definition isinstance_time (o : PyObject) : bool :=
  match o with OTime _ _ => true | _ => false end.

Definition isinstance_date (o : PyObject) : bool :=
  match o with ODate _ | ODatetime _ _ _ => true | _ => false end.

Definition isinstance_timedelta (o : PyObject) : bool :=
  match o with OTimedelta _ _ _ => true | _ => false end.

(** The attributes that [default] reads. *)
Definition date_of (o : PyObject) : date :=
  match o with
  | ODate d | ODatetime d _ _ => d
  | _ => {| year := 0; month := 0; day := 0 |}
  end.

Definition time_of (o : PyObject) : time :=
  match o with
  | OTime t _ | ODatetime _ t _ => t
  | _ => {| hour := 0; minute := 0; second := 0; microsecond := 0 |}
  end.

Definition days (o : PyObject) : Z :=
  match o with OTimedelta d _ _ => d | _ => 0 end.

Definition seconds (o : PyObject) : Z :=
  match o with OTimedelta _ s _ => s | _ => 0 end.

Definition microseconds (o : PyObject) : Z :=
  match o with OTimedelta _ _ u => u | _ => 0 end.

(** A dict display. *)
Definition dict_of (items : list (string * Value)) : Dict :=
  list_to_map items.

Definition int_of_N (n : N) : Value := VInt (Z.of_N n).

(** [DateTimeAwareEncoder.default]: any other object goes to the base
    class, which raises [TypeError]. *)
Definition default (obj : PyObject) : result Dict :=
  if isinstance_datetime obj then
    inr (dict_of
           [("__type__", VStr "datetime");
            ("year", int_of_N (year (date_of obj)));
            ("month", int_of_N (month (date_of obj)));
            ("day", int_of_N (day (date_of obj)));
            ("hour", int_of_N (hour (time_of obj)));
            ("minute", int_of_N (minute (time_of obj)));
            ("second", int_of_N (second (time_of obj)));
            ("microsecond", int_of_N (microsecond (time_of obj)))]%string)
  else if isinstance_time obj then
    inr (dict_of
           [("__type__", VStr "time");
            ("hour", int_of_N (hour (time_of obj)));
            ("minute", int_of_N (minute (time_of obj)));
            ("second", int_of_N (second (time_of obj)));
            ("microsecond", int_of_N (microsecond (time_of obj)))]%string)
  else if isinstance_date obj then
    inr (dict_of
           [("__type__", VStr "date");
            ("year", int_of_N (year (date_of obj)));
            ("month", int_of_N (month (date_of obj)));
            ("day", int_of_N (day (date_of obj)))]%string)
  else if isinstance_timedelta obj then
    inr (dict_of
           [("__type__", VStr "timedelta");
            ("days", VInt (days obj));
            ("seconds", VInt (seconds obj));
            ("microseconds", VInt (microseconds obj))]%string)
  else inl TypeError.

(** ** The constructors, called with keyword arguments

    [None] stands for the exception that a constructor raises
    ([TypeError], [ValueError] or [OverflowError]). *)

(** An argument that has to be an integer: a boolean counts as one. *)
Definition as_int (v : Value) : option Z :=
  match v with
  | VInt n => Some n
  | VBool b => Some (if b then 1 else 0)
  | _ => None
  end.

(** The keyword [k] of the call, or its default; a required one has
    none. *)
Definition keyword (k : string) (dflt : option Z) (d : Dict) : option Z :=
  match d !! k with
  | Some v => as_int v
  | None => dflt
  end.

(** No keyword but those of the signature. *)
Definition only_keywords (names : list string) (d : Dict) : bool :=
  forallb (fun k => bool_decide (k ∈ names)) (map fst (map_to_list d)).

(** [tzinfo=]: of the values of a dict only [None] is accepted. *)
Definition tzinfo_keyword (d : Dict) : bool :=
  match d !! "tzinfo"%string with
  | None | Some VNull => true
  | Some _ => false
  end.

(** [fold=]: 0 or 1. *)
Definition fold_keyword (d : Dict) : bool :=
  match keyword "fold" (Some 0) d with
  | Some f => (f =? 0) || (f =? 1)
  | None => false
  end.

Definition date_of_ints (y m d : Z) : option date :=
  let v := {| year := Z.to_N y; month := Z.to_N m; day := Z.to_N d |} in
  if (0 <=? y) && (0 <=? m) && (0 <=? d) && valid_date v
  then Some v else None.

Definition time_of_ints (h m s u : Z) : option time :=
  let v := {| hour := Z.to_N h; minute := Z.to_N m; second := Z.to_N s;
              microsecond := Z.to_N u |} in
  if (0 <=? h) && (0 <=? m) && (0 <=? s) && (0 <=? u) && valid_time v
  then Some v else None.

(** [datetime.date], called with the items of [d] as keywords. *)
Definition date_new (d : Dict) : option PyObject :=
  if only_keywords ["year"; "month"; "day"]%string d then
    y ← keyword "year" None d;
    m ← keyword "month" None d;
    dd ← keyword "day" None d;
    v ← date_of_ints y m dd;
    Some (ODate v)
  else None.

(** [datetime.time], called with the items of [d] as keywords. *)
Definition time_new (d : Dict) : option PyObject :=
  if only_keywords
       ["hour"; "minute"; "second"; "microsecond"; "tzinfo"; "fold"]%string d
     && tzinfo_keyword d && fold_keyword d
  then
    h ← keyword "hour" (Some 0) d;
    m ← keyword "minute" (Some 0) d;
    s ← keyword "second" (Some 0) d;
    u ← keyword "microsecond" (Some 0) d;
    v ← time_of_ints h m s u;
    Some (OTime v None)
  else None.

(** [datetime.datetime], called with the items of [d] as keywords. *)
Definition datetime_new (d : Dict) : option PyObject :=
  if only_keywords
       ["year"; "month"; "day"; "hour"; "minute"; "second"; "microsecond";
        "tzinfo"; "fold"]%string d
     && tzinfo_keyword d && fold_keyword d
  then
    y ← keyword "year" None d;
    mo ← keyword "month" None d;
    dd ← keyword "day" None d;
    h ← keyword "hour" (Some 0) d;
    m ← keyword "minute" (Some 0) d;
    s ← keyword "second" (Some 0) d;
    u ← keyword "microsecond" (Some 0) d;
    v ← date_of_ints y mo dd;
    t ← time_of_ints h m s u;
    Some (ODatetime v t None)
  else None.

(** [datetime.timedelta], called with the items of [d] as keywords: the
    arguments add up, and the sum is kept as days, seconds and
    microseconds. *)
Definition timedelta_new (d : Dict) : option PyObject :=
  if only_keywords
       ["days"; "seconds"; "microseconds"; "milliseconds"; "minutes";
        "hours"; "weeks"]%string d
  then
    da ← keyword "days" (Some 0) d;
    s ← keyword "seconds" (Some 0) d;
    u ← keyword "microseconds" (Some 0) d;
    ms ← keyword "milliseconds" (Some 0) d;
    mi ← keyword "minutes" (Some 0) d;
    h ← keyword "hours" (Some 0) d;
    w ← keyword "weeks" (Some 0) d;
    let total :=
      ((w * 7 + da) * 86400 + h * 3600 + mi * 60 + s) * 1000000
      + ms * 1000 + u in
    let days := total / 86400000000 in
    let rest := total mod 86400000000 in
    if (-999999999 <=? days) && (days <=? 999999999)
    then Some (OTimedelta days (rest / 1000000) (rest mod 1000000))
    else None
  else None.

(** What the object hook returns: the dict or an object. *)
Inductive Decoded :=
| DDict (d : Dict)
| DObj (o : PyObject).

(** [DateTimeAwareDecoder.dict_to_object] *)
Definition dict_to_object (d : Dict) : option Decoded :=
  match d !! "__type__"%string with
  | None => Some (DDict d)
  | Some _type =>
      let d := delete "__type__"%string d in
      if decide (_type = VStr "datetime") then DObj <$> datetime_new d
      else if decide (_type = VStr "time") then DObj <$> time_new d
      else if decide (_type = VStr "date") then DObj <$> date_new d
      else if decide (_type = VStr "timedelta") then DObj <$> timedelta_new d
      else Some (DDict (<["__type__"%string := _type]> d))
  end.

(** The object without its time zone. *)
Definition naive (o : PyObject) : PyObject :=
  match o with
  | OTime t _ => OTime t None
  | ODatetime d t _ => ODatetime d t None
  | _ => o
  end.

Definition aware (o : PyObject) : bool :=
  match o with
  | OTime _ (Some _) | ODatetime _ _ (Some _) => true
  | _ => false
  end.

(** ** Decoding what was encoded *)

Lemma date_of_ints_valid (v : date) :
  valid_date v = true ->
  date_of_ints (Z.of_N (year v)) (Z.of_N (month v)) (Z.of_N (day v))
  = Some v.
Proof.
  intros Hv. unfold date_of_ints. rewrite !N2Z.id.
  destruct v as [y m d]. cbn [year month day] in *. rewrite Hv.
  rewrite !(proj2 (Z.leb_le 0 _)) by apply N2Z.is_nonneg. reflexivity.
Qed.

Lemma time_of_ints_valid (v : time) :
  valid_time v = true ->
  time_of_ints (Z.of_N (hour v)) (Z.of_N (minute v)) (Z.of_N (second v))
    (Z.of_N (microsecond v))
  = Some v.
Proof.
  intros Hv. unfold time_of_ints. rewrite !N2Z.id.
  destruct v as [h m s u]. cbn [hour minute second microsecond] in *.
  rewrite Hv.
  rewrite !(proj2 (Z.leb_le 0 _)) by apply N2Z.is_nonneg. reflexivity.
Qed.

Lemma timedelta_normal (da s u : Z) :
  0 <= s < 86400 -> 0 <= u < 1000000 ->
  let total := ((0 * 7 + da) * 86400 + 0 * 3600 + 0 * 60 + s) * 1000000
               + 0 * 1000 + u in
  total / 86400000000 = da
  /\ (total mod 86400000000) / 1000000 = s
  /\ (total mod 86400000000) mod 1000000 = u.
Proof.
  intros Hs Hu total.
  assert (Ht : total = da * 86400000000 + (s * 1000000 + u))
    by (unfold total; lia).
  assert (Hr : 0 <= s * 1000000 + u < 86400000000) by lia.
  assert (Hd : total / 86400000000 = da).
  { rewrite Ht. symmetry. apply (Z.div_unique _ _ da (s * 1000000 + u)); lia. }
  assert (Hm : total mod 86400000000 = s * 1000000 + u).
  { rewrite Ht. symmetry. apply (Z.mod_unique _ _ da (s * 1000000 + u)); lia. }
  rewrite Hm. split; [exact Hd|]. split.
  - symmetry. apply (Z.div_unique _ _ s u); lia.
  - symmetry. apply (Z.mod_unique _ _ s u); lia.
Qed.

Lemma naive_aware (o : PyObject) : naive o = o <-> aware o = false.
Proof.
  destruct o as [v|t tz|v t tz|da s u|]; try (split; reflexivity);
    destruct tz; simpl; split; intros H; congruence.
Qed.

Lemma decode_encoded (o : PyObject) :
  valid o -> o <> OOther ->
  exists d,
    default o = inr d /\ dict_to_object d = Some (DObj (naive o)).
Proof.
  intros Hv Ho. destruct o as [v|t tz|v t tz|da s u|]; [| | | |congruence].
  - eexists. split; [reflexivity|].
    unfold dict_to_object.
    change (dict_of _ !! "__type__"%string) with (Some (VStr "date")).
    cbv iota beta zeta.
    rewrite decide_False by discriminate.
    rewrite decide_False by discriminate.
    rewrite decide_True by reflexivity.
    unfold date_new.
    change (only_keywords _ _) with true. cbv iota.
    change (keyword "year" None _) with (Some (Z.of_N (year v))).
    change (keyword "month" None _) with (Some (Z.of_N (month v))).
    change (keyword "day" None _) with (Some (Z.of_N (day v))).
    cbn [mbind option_bind]. rewrite (date_of_ints_valid _ Hv). reflexivity.
  - eexists. split; [reflexivity|].
    unfold dict_to_object.
    change (dict_of _ !! "__type__"%string) with (Some (VStr "time")).
    cbv iota beta zeta.
    rewrite decide_False by discriminate.
    rewrite decide_True by reflexivity.
    unfold time_new.
    change (only_keywords _ _) with true.
    change (tzinfo_keyword _) with true.
    change (fold_keyword _) with true. cbv iota beta delta [andb].
    change (keyword "hour" (Some 0) _) with (Some (Z.of_N (hour t))).
    change (keyword "minute" (Some 0) _) with (Some (Z.of_N (minute t))).
    change (keyword "second" (Some 0) _) with (Some (Z.of_N (second t))).
    change (keyword "microsecond" (Some 0) _)
      with (Some (Z.of_N (microsecond t))).
    cbn [mbind option_bind]. rewrite (time_of_ints_valid _ Hv). reflexivity.
  - destruct Hv as [Hd Ht]. eexists. split; [reflexivity|].
    unfold dict_to_object.
    change (dict_of _ !! "__type__"%string) with (Some (VStr "datetime")).
    cbv iota beta zeta.
    rewrite decide_True by reflexivity.
    unfold datetime_new.
    change (only_keywords _ _) with true.
    change (tzinfo_keyword _) with true.
    change (fold_keyword _) with true. cbv iota beta delta [andb].
    change (keyword "year" None _) with (Some (Z.of_N (year v))).
    change (keyword "month" None _) with (Some (Z.of_N (month v))).
    change (keyword "day" None _) with (Some (Z.of_N (day v))).
    change (keyword "hour" (Some 0) _) with (Some (Z.of_N (hour t))).
    change (keyword "minute" (Some 0) _) with (Some (Z.of_N (minute t))).
    change (keyword "second" (Some 0) _) with (Some (Z.of_N (second t))).
    change (keyword "microsecond" (Some 0) _)
      with (Some (Z.of_N (microsecond t))).
    cbn [mbind option_bind].
    rewrite (date_of_ints_valid _ Hd). cbn [mbind option_bind].
    rewrite (time_of_ints_valid _ Ht). reflexivity.
  - destruct Hv as (Hd & Hs & Hu).
    eexists. split; [reflexivity|].
    unfold dict_to_object.
    change (dict_of _ !! "__type__"%string) with (Some (VStr "timedelta")).
    cbv iota beta zeta.
    rewrite decide_False by discriminate.
    rewrite decide_False by discriminate.
    rewrite decide_False by discriminate.
    rewrite decide_True by reflexivity.
    unfold timedelta_new.
    change (only_keywords _ _) with true. cbv iota.
    change (keyword "days" (Some 0) _) with (Some da).
    change (keyword "seconds" (Some 0) _) with (Some s).
    change (keyword "microseconds" (Some 0) _) with (Some u).
    change (keyword "milliseconds" (Some 0) _) with (Some 0).
    change (keyword "minutes" (Some 0) _) with (Some 0).
    change (keyword "hours" (Some 0) _) with (Some 0).
    change (keyword "weeks" (Some 0) _) with (Some 0).
    cbn [mbind option_bind]. cbv zeta.
    destruct (timedelta_normal da s u Hs Hu) as (E1 & E2 & E3).
    cbv zeta in E1, E2, E3. rewrite E1, E2, E3.
    rewrite (proj2 (Z.leb_le _ _)) by lia.
    rewrite (proj2 (Z.leb_le _ _)) by lia. reflexivity.
Qed.

(** X27: what the encoder writes for a date, a time, a datetime or a
    timedelta, the decoder's hook reads back as the same object without
    its time zone: the round trip is the identity exactly on the objects
    that carry no time zone. *)
Theorem default_dict_to_object_roundtrip (o : PyObject) :
  valid o -> o <> OOther ->
  exists d,
    default o = inr d
    /\ dict_to_object d = Some (DObj (naive o))
    /\ (naive o = o <-> aware o = false).
Proof.
  intros Hv Ho. destruct (decode_encoded o Hv Ho) as (d & Hd & Hr).
  exists d. split; [exact Hd|]. split; [exact Hr|]. apply naive_aware.
Qed.

(** X28: every other dict goes through the hook unchanged: one without
    a [__type__] key, and one whose [__type__] is none of the four names,
    whose key the hook takes out and puts back. *)
Theorem dict_to_object_passthrough (d : Dict) :
  (forall name,
     d !! "__type__"%string = Some (VStr name) ->
     ~ In name ["datetime"; "time"; "date"; "timedelta"]%string) ->
  dict_to_object d = Some (DDict d).
Proof.
  intros H. unfold dict_to_object.
  destruct (d !! "__type__"%string) as [t|] eqn:E; [|reflexivity].
  cbv zeta.
  repeat (rewrite decide_False;
          [|intros ->; apply (H _ eq_refl); simpl; tauto]).
  rewrite insert_delete_id by exact E. reflexivity.
Qed.

Lemma date_of_ints_inv y m d v :
  date_of_ints y m d = Some v -> valid_date v = true.
Proof.
  unfold date_of_ints.
  destruct (_ && valid_date _) eqn:E; [|discriminate].
  intros [= <-]. apply andb_prop in E as [_ E]. exact E.
Qed.

Lemma time_of_ints_inv h m s u v :
  time_of_ints h m s u = Some v -> valid_time v = true.
Proof.
  unfold time_of_ints.
  destruct (_ && valid_time _) eqn:E; [|discriminate].
  intros [= <-]. apply andb_prop in E as [_ E]. exact E.
Qed.

(** What the constructors return is valid and carries no time zone. *)
Lemma constructed_valid (d : Dict) (o : PyObject) :
  date_new d = Some o \/ time_new d = Some o
  \/ datetime_new d = Some o \/ timedelta_new d = Some o ->
  valid o /\ aware o = false /\ o <> OOther.
Proof.
  intros [H|[H|[H|H]]].
  - unfold date_new in H. destruct (only_keywords _ _); [|discriminate].
    destruct (keyword "year" None d) as [y|]; [|discriminate].
    destruct (keyword "month" None d) as [m|]; [|discriminate].
    destruct (keyword "day" None d) as [dd|]; [|discriminate].
    cbn [mbind option_bind] in H.
    destruct (date_of_ints y m dd) as [v|] eqn:E; [|discriminate].
    injection H as <-. split; [|split; [reflexivity|discriminate]].
    exact (date_of_ints_inv _ _ _ _ E).
  - unfold time_new in H. destruct (_ && fold_keyword d); [|discriminate].
    destruct (keyword "hour" (Some 0) d) as [h|]; [|discriminate].
    destruct (keyword "minute" (Some 0) d) as [m|]; [|discriminate].
    destruct (keyword "second" (Some 0) d) as [s|]; [|discriminate].
    destruct (keyword "microsecond" (Some 0) d) as [u|]; [|discriminate].
    cbn [mbind option_bind] in H.
    destruct (time_of_ints h m s u) as [v|] eqn:E; [|discriminate].
    injection H as <-. split; [|split; [reflexivity|discriminate]].
    exact (time_of_ints_inv _ _ _ _ _ E).
  - unfold datetime_new in H. destruct (_ && fold_keyword d); [|discriminate].
    destruct (keyword "year" None d) as [y|]; [|discriminate].
    destruct (keyword "month" None d) as [mo|]; [|discriminate].
    destruct (keyword "day" None d) as [dd|]; [|discriminate].
    destruct (keyword "hour" (Some 0) d) as [h|]; [|discriminate].
    destruct (keyword "minute" (Some 0) d) as [m|]; [|discriminate].
    destruct (keyword "second" (Some 0) d) as [s|]; [|discriminate].
    destruct (keyword "microsecond" (Some 0) d) as [u|]; [|discriminate].
    cbn [mbind option_bind] in H.
    destruct (date_of_ints y mo dd) as [v|] eqn:E; [|discriminate].
    cbn [mbind option_bind] in H.
    destruct (time_of_ints h m s u) as [t|] eqn:E'; [|discriminate].
    injection H as <-. split; [|split; [reflexivity|discriminate]].
    split; [exact (date_of_ints_inv _ _ _ _ E)
           |exact (time_of_ints_inv _ _ _ _ _ E')].
  - unfold timedelta_new in H. destruct (only_keywords _ _); [|discriminate].
    destruct (keyword "days" (Some 0) d) as [da|]; [|discriminate].
    destruct (keyword "seconds" (Some 0) d) as [s|]; [|discriminate].
    destruct (keyword "microseconds" (Some 0) d) as [u|]; [|discriminate].
    destruct (keyword "milliseconds" (Some 0) d) as [ms|]; [|discriminate].
    destruct (keyword "minutes" (Some 0) d) as [mi|]; [|discriminate].
    destruct (keyword "hours" (Some 0) d) as [h|]; [|discriminate].
    destruct (keyword "weeks" (Some 0) d) as [w|]; [|discriminate].
    cbn [mbind option_bind] in H. cbv zeta in H.
    set (total := ((w * 7 + da) * 86400 + h * 3600 + mi * 60 + s) * 1000000
                  + ms * 1000 + u) in H.
    destruct (_ && _) eqn:E; [|discriminate].
    injection H as <-. split; [|split; [reflexivity|discriminate]].
    apply andb_prop in E as [E1 E2].
    apply Z.leb_le in E1. apply Z.leb_le in E2.
    pose proof (Z.mod_pos_bound total 86400000000 ltac:(lia)) as Hr.
    pose proof (Z.mod_pos_bound (total mod 86400000000) 1000000 ltac:(lia))
      as Hu.
    split; [lia|]. split; [|exact Hu].
    split; [apply Z.div_pos; lia|].
    apply Z.div_lt_upper_bound; lia.
Qed.

(** X29: what the hook builds is a normal form.  An object that the hook
    returns satisfies the constructors' bounds and carries no time zone,
    and encoding it and decoding the result gives the same object again,
    also when the dict it came from was not one that the encoder
    writes. *)
Theorem decoded_object_is_canonical (d : Dict) (o : PyObject) :
  dict_to_object d = Some (DObj o) ->
  valid o
  /\ aware o = false
  /\ exists d', default o = inr d' /\ dict_to_object d' = Some (DObj o).
Proof.
  intros H.
  assert (Hc : valid o /\ aware o = false /\ o <> OOther).
  { unfold dict_to_object in H.
    destruct (d !! "__type__"%string) as [t|]; [|discriminate].
    cbv zeta in H.
    repeat (destruct (decide _) in H;
            [destruct (_ (delete "__type__"%string d)) as [o'|] eqn:E;
               [injection H as <-|discriminate];
             apply (constructed_valid (delete "__type__"%string d)); tauto|]).
    discriminate. }
  destruct Hc as (Hv & Ha & Ho). split; [exact Hv|]. split; [exact Ha|].
  destruct (decode_encoded o Hv Ho) as (d' & Hd & Hr).
  exists d'. split; [exact Hd|].
  rewrite (proj2 (naive_aware o) Ha) in Hr. exact Hr.
Qed.

End WithZone.

Arguments PyObject : clear implicits.
Arguments Decoded : clear implicits.

(** ** Examples, with the offset from UTC in minutes as time zone *)

Definition sample_date : date := {| year := 2017; month := 3; day := 25 |}.

Definition sample_time : time :=
  {| hour := 10; minute := 41; second := 45; microsecond := 365000 |}.

Lemma default_dict_to_object_roundtrip_witness :
  exists d,
    default (ODatetime sample_date sample_time (Some 570)) = inr d
    /\ dict_to_object d
       = Some (DObj (ODatetime sample_date sample_time (@None Z)))
    /\ (naive (ODatetime sample_date sample_time (Some 570))
        = ODatetime sample_date sample_time (Some 570)
        <-> aware (ODatetime sample_date sample_time (Some 570)) = false).
Proof.
  apply (@default_dict_to_object_roundtrip Z
           (ODatetime sample_date sample_time (Some 570))).
  - split; reflexivity.
  - discriminate.
Defined.

(** A dict of another kind. *)
Definition point : Dict :=
  dict_of [("__type__", VStr "point"); ("x", VInt 1); ("y", VInt 2)]%string.

Lemma dict_to_object_passthrough_witness :
  @dict_to_object Z point = Some (DDict point).
Proof.
  apply (@dict_to_object_passthrough Z point).
  intros name H. vm_compute in H. injection H as <-.
  simpl. intros [E|[E|[E|[E|[]]]]]; discriminate.
Defined.

(** A duration that no encoder writes: twenty-five hours less a
    second. *)
Definition long_day : Dict :=
  dict_of [("__type__", VStr "timedelta"); ("hours", VInt 25);
           ("seconds", VInt (-1))]%string.

Lemma decoded_object_is_canonical_witness :
  valid (@OTimedelta Z 1 3599 0)
  /\ aware (@OTimedelta Z 1 3599 0) = false
  /\ exists d',
       default (@OTimedelta Z 1 3599 0) = inr d'
       /\ dict_to_object d' = Some (DObj (@OTimedelta Z 1 3599 0)).
Proof.
  apply (@decoded_object_is_canonical Z long_day (OTimedelta 1 3599 0)).
  vm_compute. reflexivity.
Defined.

(** A date that the calendar does not have is refused. *)
Example dict_to_object_invalid_date :
  @dict_to_object Z
    (dict_of [("__type__", VStr "date"); ("year", VInt 2017);
              ("month", VInt 2); ("day", VInt 29)]%string)
  = None.
Proof. vm_compute. reflexivity. Qed.

End JsonUtils.
